(** * Autonomous GPU cluster simulator: a shallow embedding

    The development follows the three Python modules it embeds:
    [Utils] (utils.py), [JobTypes] (job_types.py) and [Simulator]
    (autonomous_simulator.py).  Python objects that are shared between
    containers (a [Job] sits at once in the [jobs] dictionary, in the
    [job_queue] and in a worker's [current_job]) live in an object store
    and are referred to by their address, so that an attribute assignment
    is seen through every alias.  Wall-clock readings and random draws are
    explicit arguments of the operations that consume them. *)

From Stdlib Require Import ZArith QArith Lia Sorted.
From stdpp Require Import gmap strings list fin_maps pretty.

Set Default Proof Using "Type".
Open Scope Z_scope.

(** * Python values *)

(** A Python [float]: not-a-number, the two infinities, or a finite value
    (kept as the rational it denotes; the model only compares floats and
    passes them on, it never rounds). *)
Inductive PyFloat :=
  | FNan
  | FInf (negative : bool)
  | FNum (q : Q).

(** [x < y] on floats; every comparison with NaN is false. *)
Definition float_lt (x y : PyFloat) : bool :=
  match x, y with
  | FNan, _ | _, FNan => false
  | FInf true, FInf true => false
  | FInf true, _ => true
  | FInf false, _ => false
  | FNum _, FInf negative => negb negative
  | FNum p, FNum q => negb (Qle_bool q p)
  end.

Definition float_gt (x y : PyFloat) : bool := float_lt y x.

(** [x <= y] on floats. *)
Definition float_le (x y : PyFloat) : bool :=
  match x, y with
  | FNan, _ | _, FNan => false
  | FInf true, _ => true
  | _, FInf false => true
  | FInf false, _ => false
  | FNum _, FInf true => false
  | FNum p, FNum q => Qle_bool p q
  end.

Definition is_nan (x : PyFloat) : bool :=
  match x with FNan => true | _ => false end.

(** The values a parsed JSON body or a job parameter can hold. *)
#[warnings="-register-all"] Inductive PyVal :=
  | PyNone
  | PyBool (b : bool)
  | PyInt (n : Z)
  | PyFloatV (f : PyFloat)
  | PyStr (s : string)
  | PyList (l : list PyVal)
  | PyDict (d : list (string * PyVal)).

(** A dictionary literal with string keys, in source order. *)
Definition dict_get {V : Type} (k : string) (d : list (string * V)) : option V :=
  snd <$> List.find (λ kv, String.eqb kv.1 k) d.

(** [random.choice(seq)]: the element at a uniformly drawn index; [r] is the
    raw draw.  [None] stands for the IndexError on an empty sequence. *)
Definition random_choice {A : Type} (r : nat) (l : list A) : option A :=
  l !! (r mod length l)%nat.

(** [random.randint(lo, hi)], both ends included. *)
Definition random_randint (r : Z) (lo hi : Z) : Z :=
  lo + r mod (hi - lo + 1).

(** * utils.py *)
Module Utils.

Definition ascii_lower (c : Ascii.ascii) : Ascii.ascii :=
  let n := Ascii.nat_of_ascii c in
  if ((65 <=? n) && (n <=? 90))%nat then Ascii.ascii_of_nat (n + 32) else c.

(** [str.lower()] on the ASCII strings the program uses. *)
Fixpoint lower (s : string) : string :=
  match s with
  | EmptyString => EmptyString
  | String c s' => String (ascii_lower c) (lower s')
  end.

Definition type_prefixes : list (string * list string) :=
  [ ("sleep", ["io"; "wait"; "idle"; "pause"; "delay"]);
    ("compute", ["calc"; "process"; "analyze"; "compute"; "run"]);
    ("matrix", ["matrix"; "gpu"; "tensor"; "linear"; "algebra"]);
    ("fault_injection", ["test"; "check"; "verify"; "validate"; "inject"]) ].

Definition priority_suffixes : list (string * list string) :=
  [ ("low", ["batch"; "background"; "low-priority"]);
    ("normal", ["standard"; "regular"; "normal"]);
    ("high", ["urgent"; "priority"; "important"]);
    ("critical", ["critical"; "emergency"; "immediate"]) ].

(** [generate_job_id]: the three draws are, in program order, the prefix
    choice, the suffix choice and the four-digit number.  Every candidate
    list is non-empty, so the defaults of [default] are never used. *)
Definition generate_job_id (job_type priority : string) (r1 r2 : nat) (r3 : Z) : string :=
  let prefix :=
    default "" (random_choice r1 (default ["job"] (dict_get job_type type_prefixes))) in
  let suffix :=
    default "" (random_choice r2
                  (default ["normal"] (dict_get (lower priority) priority_suffixes))) in
  let number := pretty (random_randint r3 1000 9999) in
  if String.eqb job_type "matrix" then "gpu-" +:+ prefix +:+ "-" +:+ number
  else if String.eqb job_type "fault_injection" then prefix +:+ "-test-" +:+ number
  else prefix +:+ "-" +:+ suffix +:+ "-" +:+ number.

End Utils.

(** * job_types.py *)
Module JobTypes.

Inductive JobStatus := PENDING | RUNNING | COMPLETED | FAILED | CANCELLED.

Inductive JobPriority := LOW | NORMAL | HIGH | CRITICAL.

(** [priority.value] *)
Definition priority_value (p : JobPriority) : Z :=
  match p with LOW => 1 | NORMAL => 2 | HIGH => 3 | CRITICAL => 4 end.

(** [priority.name] *)
Definition priority_name (p : JobPriority) : string :=
  match p with
  | LOW => "LOW" | NORMAL => "NORMAL" | HIGH => "HIGH" | CRITICAL => "CRITICAL"
  end.

#[global] Instance JobStatus_eq_dec : EqDecision JobStatus.
Proof. solve_decision. Defined.

#[global] Instance JobPriority_eq_dec : EqDecision JobPriority.
Proof. solve_decision. Defined.

(** The [Job] dataclass.  Timestamps are clock readings. *)
Record Job := mkJob {
  job_id : string;
  job_type : string;
  priority : JobPriority;
  status : JobStatus;
  created_at : Z;
  started_at : option Z;
  completed_at : option Z;
  worker_id : option string;
  parameters : list (string * PyVal);
  result : option PyVal;
  error_message : option string;
  retry_count : Z;
  max_retries : Z
}.

(** Attribute assignments on a job. *)
Definition set_status (v : JobStatus) (j : Job) : Job :=
  mkJob (job_id j) (job_type j) (priority j) v (created_at j) (started_at j)
        (completed_at j) (worker_id j) (parameters j) (result j)
        (error_message j) (retry_count j) (max_retries j).

Definition set_started_at (v : option Z) (j : Job) : Job :=
  mkJob (job_id j) (job_type j) (priority j) (status j) (created_at j) v
        (completed_at j) (worker_id j) (parameters j) (result j)
        (error_message j) (retry_count j) (max_retries j).

Definition set_completed_at (v : option Z) (j : Job) : Job :=
  mkJob (job_id j) (job_type j) (priority j) (status j) (created_at j) (started_at j)
        v (worker_id j) (parameters j) (result j)
        (error_message j) (retry_count j) (max_retries j).

Definition set_worker_id (v : option string) (j : Job) : Job :=
  mkJob (job_id j) (job_type j) (priority j) (status j) (created_at j) (started_at j)
        (completed_at j) v (parameters j) (result j)
        (error_message j) (retry_count j) (max_retries j).

Definition set_result (v : option PyVal) (j : Job) : Job :=
  mkJob (job_id j) (job_type j) (priority j) (status j) (created_at j) (started_at j)
        (completed_at j) (worker_id j) (parameters j) v
        (error_message j) (retry_count j) (max_retries j).

Definition set_error_message (v : option string) (j : Job) : Job :=
  mkJob (job_id j) (job_type j) (priority j) (status j) (created_at j) (started_at j)
        (completed_at j) (worker_id j) (parameters j) (result j)
        v (retry_count j) (max_retries j).

Definition set_retry_count (v : Z) (j : Job) : Job :=
  mkJob (job_id j) (job_type j) (priority j) (status j) (created_at j) (started_at j)
        (completed_at j) (worker_id j) (parameters j) (result j)
        (error_message j) v (max_retries j).

(** What a call of [execute_job] can do: return a value, let an exception
    of the executor's body escape (carried as its [str(e)]), or raise the
    registry's own [ValueError] for a job type no executor claims. *)
Inductive BodyResult :=
  | Returned (v : PyVal)
  | Raised (message : string).

Inductive ExecResult :=
  | ExecReturned (v : PyVal)
  | ExecRaised (message : string)
  | NoExecutorFound (job_type : string).

Definition lift_body (r : BodyResult) : ExecResult :=
  match r with Returned v => ExecReturned v | Raised m => ExecRaised m end.

(** [str(e)] of the exception [execute_job] raised. *)
Definition exec_error_text (r : ExecResult) : option string :=
  match r with
  | ExecReturned _ => None
  | ExecRaised m => Some m
  | NoExecutorFound jt => Some ("No executor found for job type: " +:+ jt)
  end.

Section Executors.
(** The bodies of the four executors sleep, draw random numbers, format
    floats and call numpy; they are taken as given: a body maps the job
    and the state of the outside world to what it returns or raises and
    to the world it leaves behind. *)
Context {World : Type}.

Record ExecutorBodies := mkBodies {
  run_sleep : Job → World → BodyResult * World;
  run_compute : Job → World → BodyResult * World;
  run_matrix : Job → World → BodyResult * World;
  run_fault_injection : Job → World → BodyResult * World
}.

(** The abstract base class [JobExecutor]. *)
Class JobExecutor (E : Type) := {
  execute : E → Job → World → BodyResult * World;
  can_execute : E → Job → bool
}.

Variable bodies : ExecutorBodies.

Inductive SleepJobExecutor := SleepJobExecutor_new.
Inductive ComputeJobExecutor := ComputeJobExecutor_new.
Inductive MatrixJobExecutor := MatrixJobExecutor_new.
Inductive FaultInjectionJobExecutor := FaultInjectionJobExecutor_new.

#[local] Instance SleepJobExecutor_impl : JobExecutor SleepJobExecutor := {
  execute _ job w := run_sleep bodies job w;
  can_execute _ job := String.eqb (job_type job) "sleep"
}.

#[local] Instance ComputeJobExecutor_impl : JobExecutor ComputeJobExecutor := {
  execute _ job w := run_compute bodies job w;
  can_execute _ job := String.eqb (job_type job) "compute"
}.

#[local] Instance MatrixJobExecutor_impl : JobExecutor MatrixJobExecutor := {
  execute _ job w := run_matrix bodies job w;
  can_execute _ job := String.eqb (job_type job) "matrix"
}.

#[local] Instance FaultInjectionJobExecutor_impl :
  JobExecutor FaultInjectionJobExecutor := {
  execute _ job w := run_fault_injection bodies job w;
  can_execute _ job := String.eqb (job_type job) "fault_injection"
}.

(** An executor object of any class, as the registry's list holds them. *)
Record AnyExecutor := Executor {
  executor_class : Type;
  executor_impl : JobExecutor executor_class;
  executor_self : executor_class
}.

Definition any_can_execute (e : AnyExecutor) (job : Job) : bool :=
  @can_execute _ (executor_impl e) (executor_self e) job.

Definition any_execute (e : AnyExecutor) (job : Job) (w : World)
  : BodyResult * World :=
  @execute _ (executor_impl e) (executor_self e) job w.

(** [JobExecutorRegistry]: the list [_executors]. *)
Definition JobExecutorRegistry := list AnyExecutor.

Definition register (executor : AnyExecutor) (self : JobExecutorRegistry)
  : JobExecutorRegistry :=
  self ++ [executor].

Definition _register_default_executors (self : JobExecutorRegistry)
  : JobExecutorRegistry :=
  register (Executor _ FaultInjectionJobExecutor_impl FaultInjectionJobExecutor_new)
    (register (Executor _ MatrixJobExecutor_impl MatrixJobExecutor_new)
       (register (Executor _ ComputeJobExecutor_impl ComputeJobExecutor_new)
          (register (Executor _ SleepJobExecutor_impl SleepJobExecutor_new) self))).

(** [JobExecutorRegistry()] and the module-level [job_executor_registry]. *)
Definition job_executor_registry : JobExecutorRegistry :=
  _register_default_executors [].

Fixpoint get_executor (self : JobExecutorRegistry) (job : Job)
  : option AnyExecutor :=
  match self with
  | [] => None
  | executor :: rest =>
      if any_can_execute executor job then Some executor
      else get_executor rest job
  end.

Definition execute_job (self : JobExecutorRegistry) (job : Job) (w : World)
  : ExecResult * World :=
  match get_executor self job with
  | None => (NoExecutorFound (job_type job), w)
  | Some executor =>
      let '(r, w') := any_execute executor job w in (lift_body r, w')
  end.
End Executors.

Arguments ExecutorBodies : clear implicits.
Arguments AnyExecutor : clear implicits.
Arguments JobExecutorRegistry : clear implicits.

(** [create_job]; [now] is the clock reading and [r1 r2 r3] the draws that
    [generate_job_id] consumes. *)
Definition create_job (job_type : string) (priority : JobPriority)
    (parameters : option (list (string * PyVal))) (now : Z) (r1 r2 : nat) (r3 : Z)
  : Job :=
  mkJob (Utils.generate_job_id job_type (Utils.lower (priority_name priority)) r1 r2 r3)
        job_type priority PENDING now None None None
        (default [] parameters) None None 0 3.

(** The property [Job.duration], in the units of the clock. *)
Definition duration (j : Job) : option Z :=
  match started_at j, completed_at j with
  | Some started, Some completed => Some (completed - started)
  | _, _ => None
  end.

(** The four convenience constructors. *)
Definition create_sleep_job (duration : PyVal) (priority : JobPriority)
    (now : Z) (r1 r2 : nat) (r3 : Z) : Job :=
  create_job "sleep" priority (Some [("duration", duration)]) now r1 r2 r3.

Definition create_compute_job (iterations : PyVal) (priority : JobPriority)
    (now : Z) (r1 r2 : nat) (r3 : Z) : Job :=
  create_job "compute" priority (Some [("iterations", iterations)]) now r1 r2 r3.

Definition create_matrix_job (matrix_size : PyVal) (priority : JobPriority)
    (now : Z) (r1 r2 : nat) (r3 : Z) : Job :=
  create_job "matrix" priority (Some [("matrix_size", matrix_size)]) now r1 r2 r3.

Definition create_fault_injection_job (failure_rate duration : PyVal)
    (priority : JobPriority) (now : Z) (r1 r2 : nat) (r3 : Z) : Job :=
  create_job "fault_injection" priority
    (Some [("failure_rate", failure_rate); ("duration", duration)]) now r1 r2 r3.

End JobTypes.

(** * autonomous_simulator.py *)
Module Simulator.

(** The address of a [Job] object in the store. *)
Abbreviation loc := nat (only parsing).

(** [list.sort(key=key, reverse=True)]: Python's sort is stable, also with
    [reverse=True], so elements with equal keys keep their order.
    [insert_desc] puts [x], which stood before every element of [l], into
    the sorted [l]: after the elements with a larger key, before the others. *)
Fixpoint insert_desc {A : Type} (key : A → Z) (x : A) (l : list A) : list A :=
  match l with
  | [] => [x]
  | y :: l' => if key x <? key y then y :: insert_desc key x l' else x :: y :: l'
  end.

Definition sort_desc {A : Type} (key : A → Z) (l : list A) : list A :=
  foldr (insert_desc key) [] l.

(** [a] may stand before [b] in a list sorted by descending key. *)
Definition desc_order {A : Type} (key : A → Z) (a b : A) : Prop := key b ≤ key a.

(** The [WorkerInfo] dataclass; [current_job] refers to the job object. *)
Record WorkerInfo := mkWorkerInfo {
  worker_id : string;
  status : string;
  current_job : option loc;
  last_heartbeat : Z;
  failure_probability : PyFloat;
  recovery_time : Z
}.

Definition is_available (w : WorkerInfo) : bool :=
  String.eqb (status w) "online" && bool_decide (current_job w = None).

Definition set_wstatus (v : string) (w : WorkerInfo) : WorkerInfo :=
  mkWorkerInfo (worker_id w) v (current_job w) (last_heartbeat w)
               (failure_probability w) (recovery_time w).

Definition set_current_job (v : option loc) (w : WorkerInfo) : WorkerInfo :=
  mkWorkerInfo (worker_id w) (status w) v (last_heartbeat w)
               (failure_probability w) (recovery_time w).

Definition set_last_heartbeat (v : Z) (w : WorkerInfo) : WorkerInfo :=
  mkWorkerInfo (worker_id w) (status w) (current_job w) v
               (failure_probability w) (recovery_time w).

(** The [stats] dictionary, one field per key. *)
Record Stats := mkStats {
  total_jobs : Z;
  completed_jobs : Z;
  failed_jobs : Z;
  worker_failures : Z;
  worker_recoveries : Z;
  active_workers : Z;
  simulation_start : Z
}.

Definition add_total_jobs (d : Z) (st : Stats) : Stats :=
  mkStats (total_jobs st + d) (completed_jobs st) (failed_jobs st)
          (worker_failures st) (worker_recoveries st) (active_workers st)
          (simulation_start st).

Definition add_completed_jobs (d : Z) (st : Stats) : Stats :=
  mkStats (total_jobs st) (completed_jobs st + d) (failed_jobs st)
          (worker_failures st) (worker_recoveries st) (active_workers st)
          (simulation_start st).

Definition add_failed_jobs (d : Z) (st : Stats) : Stats :=
  mkStats (total_jobs st) (completed_jobs st) (failed_jobs st + d)
          (worker_failures st) (worker_recoveries st) (active_workers st)
          (simulation_start st).

Definition add_worker_failures (d : Z) (st : Stats) : Stats :=
  mkStats (total_jobs st) (completed_jobs st) (failed_jobs st)
          (worker_failures st + d) (worker_recoveries st) (active_workers st)
          (simulation_start st).

Definition add_worker_recoveries (d : Z) (st : Stats) : Stats :=
  mkStats (total_jobs st) (completed_jobs st) (failed_jobs st)
          (worker_failures st) (worker_recoveries st + d) (active_workers st)
          (simulation_start st).

Definition add_active_workers (d : Z) (st : Stats) : Stats :=
  mkStats (total_jobs st) (completed_jobs st) (failed_jobs st)
          (worker_failures st) (worker_recoveries st) (active_workers st + d)
          (simulation_start st).

(** The state of an [AutonomousClusterSimulator].  [store] holds the job
    objects; [jobs], [job_queue] and the workers refer into it.  [workers]
    is the dictionary in insertion order, a worker object being identified
    by its position. *)
Record AutonomousClusterSimulator := mkSimulator {
  store : list JobTypes.Job;
  workers : list (string * WorkerInfo);
  jobs : gmap string loc;
  job_queue : list loc;
  running : bool;
  job_generation_rate : PyFloat;
  failure_rate : PyFloat;
  sim_recovery_time : Z;
  stats : Stats
}.

Definition with_store (v : list JobTypes.Job) (s : AutonomousClusterSimulator) :=
  mkSimulator v (workers s) (jobs s) (job_queue s) (running s)
              (job_generation_rate s) (failure_rate s) (sim_recovery_time s) (stats s).

Definition with_workers (v : list (string * WorkerInfo)) (s : AutonomousClusterSimulator) :=
  mkSimulator (store s) v (jobs s) (job_queue s) (running s)
              (job_generation_rate s) (failure_rate s) (sim_recovery_time s) (stats s).

Definition with_jobs (v : gmap string loc) (s : AutonomousClusterSimulator) :=
  mkSimulator (store s) (workers s) v (job_queue s) (running s)
              (job_generation_rate s) (failure_rate s) (sim_recovery_time s) (stats s).

Definition with_job_queue (v : list loc) (s : AutonomousClusterSimulator) :=
  mkSimulator (store s) (workers s) (jobs s) v (running s)
              (job_generation_rate s) (failure_rate s) (sim_recovery_time s) (stats s).

Definition with_job_generation_rate (v : PyFloat) (s : AutonomousClusterSimulator) :=
  mkSimulator (store s) (workers s) (jobs s) (job_queue s) (running s)
              v (failure_rate s) (sim_recovery_time s) (stats s).

Definition with_stats (v : Stats) (s : AutonomousClusterSimulator) :=
  mkSimulator (store s) (workers s) (jobs s) (job_queue s) (running s)
              (job_generation_rate s) (failure_rate s) (sim_recovery_time s) v.

(** Attribute assignment on the job object at [l], and on the worker
    object at position [i]. *)
Definition update_job (l : loc) (f : JobTypes.Job → JobTypes.Job)
    (s : AutonomousClusterSimulator) : AutonomousClusterSimulator :=
  with_store (alter f l (store s)) s.

Definition update_worker (i : nat) (f : WorkerInfo → WorkerInfo)
    (s : AutonomousClusterSimulator) : AutonomousClusterSimulator :=
  with_workers (alter (λ kv, (kv.1, f kv.2)) i (workers s)) s.

Definition update_stats (f : Stats → Stats) (s : AutonomousClusterSimulator)
  : AutonomousClusterSimulator :=
  with_stats (f (stats s)) s.

(** The float literals of the module, by their exact binary64 values. *)
Definition float_0_1 : PyFloat := FNum (3602879701896397 # 36028797018963968).
Definition float_2_0 : PyFloat := FNum (2 # 1).
Definition float_50_0 : PyFloat := FNum (50 # 1).

(** [AutonomousClusterSimulator()] *)
Definition init (now : Z) : AutonomousClusterSimulator :=
  mkSimulator [] [] ∅ [] false float_2_0 float_0_1 30
              (mkStats 0 0 0 0 0 0 now).

Definition set_job_generation_rate (rate : PyFloat) (s : AutonomousClusterSimulator)
  : AutonomousClusterSimulator :=
  with_job_generation_rate rate s.

(** Position of the key [k] in a dictionary. *)
Fixpoint dict_index {V : Type} (k : string) (d : list (string * V)) : option nat :=
  match d with
  | [] => None
  | (k', _) :: d' => if String.eqb k' k then Some 0%nat else S <$> dict_index k d'
  end.

(** [d[k] = v]: an existing key keeps its position, a new one goes last. *)
Definition dict_set {V : Type} (k : string) (v : V) (d : list (string * V))
  : list (string * V) :=
  match dict_index k d with
  | Some i => <[i := (k, v)]> d
  | None => d ++ [(k, v)]
  end.

Definition add_worker (worker_id : string) (failure_probability : PyFloat) (now : Z)
    (s : AutonomousClusterSimulator) : AutonomousClusterSimulator :=
  update_stats (add_active_workers 1)
    (with_workers
       (dict_set worker_id
          (mkWorkerInfo worker_id "online" None now failure_probability
                        (sim_recovery_time s))
          (workers s))
       s).

(** ** The job generator *)

(** The table [job_types] of [_job_generator]: type and parameter ranges
    (only the kind of a range, int or float, is inspected; the weights
    shape the distribution of the draw, not its possible outcomes). *)
Definition job_types : list (string * list (string * (PyVal * PyVal))) :=
  [ ("sleep", [("duration", (PyInt 1, PyInt 5))]);
    ("compute", [("iterations", (PyInt 100000, PyInt 1000000))]);
    ("matrix", [("matrix_size", (PyInt 500, PyInt 2000))]);
    ("fault_injection",
      [("failure_rate", (PyFloatV (FNum (1 # 20)), PyFloatV (FNum (1 # 5))));
       ("duration", (PyInt 2, PyInt 8))]) ].

Definition priorities : list JobTypes.JobPriority :=
  [JobTypes.LOW; JobTypes.NORMAL; JobTypes.HIGH; JobTypes.CRITICAL].

(** One parameter: [random.randint] on an integer range, [random.uniform]
    otherwise; [r] and [u] are the draws of the two. *)
Definition gen_param (range : PyVal * PyVal) (r : Z) (u : PyFloat) : PyVal :=
  match range with
  | (PyInt lo, PyInt hi) => PyInt (random_randint r lo hi)
  | _ => PyFloatV u
  end.

Definition gen_params (param_range : list (string * (PyVal * PyVal)))
    (draws : nat → Z * PyFloat) : list (string * PyVal) :=
  imap (λ i nr, (nr.1, gen_param nr.2 (draws i).1 (draws i).2)) param_range.

(** The draws one emission consumes, in program order. *)
Record GeneratorDraws := mkDraws {
  draw_type : nat;
  draw_params : nat → Z * PyFloat;
  draw_priority : nat;
  draw_prefix : nat;
  draw_suffix : nat;
  draw_number : Z
}.

(** The body of [if random.random() < rate / 60.0]: create the job, then
    under the lock enter it in [jobs], append it to the queue and count it. *)
Definition _job_generator_emit (d : GeneratorDraws) (now : Z)
    (s : AutonomousClusterSimulator) : AutonomousClusterSimulator :=
  match random_choice (draw_type d) job_types,
        random_choice (draw_priority d) priorities with
  | Some (job_type, param_range), Some priority =>
      let job :=
        JobTypes.create_job job_type priority
          (Some (gen_params param_range (draw_params d))) now
          (draw_prefix d) (draw_suffix d) (draw_number d) in
      let l := length (store s) in
      update_stats (add_total_jobs 1)
        (with_job_queue (job_queue s ++ [l])
           (with_jobs (<[JobTypes.job_id job := l]> (jobs s))
              (with_store (store s ++ [job]) s)))
  | _, _ => s
  end.

(** One round of [_job_generator]; [fire] is the outcome of the rate test. *)
Definition _job_generator_tick (fire : bool) (d : GeneratorDraws) (now : Z)
    (s : AutonomousClusterSimulator) : AutonomousClusterSimulator :=
  if fire then _job_generator_emit d now s else s.

(** ** Worker failure and recovery *)

(** The four assignments that reset the job a failed worker held. *)
Definition failure_reset (job : JobTypes.Job) : JobTypes.Job :=
  JobTypes.set_retry_count (JobTypes.retry_count job + 1)
    (JobTypes.set_started_at None
       (JobTypes.set_worker_id None (JobTypes.set_status JobTypes.PENDING job))).

(** The two assignments of the branch that gives the job up. *)
Definition failure_exhausted (job : JobTypes.Job) : JobTypes.Job :=
  JobTypes.set_error_message (Some "Max retries exceeded due to worker failures")
    (JobTypes.set_status JobTypes.FAILED job).

(** What [_simulate_worker_failure] does to the job the worker held. *)
Definition requeue_or_fail (l : loc) (s : AutonomousClusterSimulator)
  : AutonomousClusterSimulator :=
  let s1 := update_job l failure_reset s in
  match store s1 !! l with
  | Some job =>
      if JobTypes.retry_count job <=? JobTypes.max_retries job then
        with_job_queue (job_queue s1 ++ [l]) s1
      else
        update_stats (add_failed_jobs 1) (update_job l failure_exhausted s1)
  | None => s1
  end.

(** [_simulate_worker_failure]; [None] is the KeyError of an unknown
    worker.  The recovery thread it starts is the later call of
    [_recover_worker]. *)
Definition _simulate_worker_failure (worker_id : string)
    (s : AutonomousClusterSimulator) : option AutonomousClusterSimulator :=
  i ← dict_index worker_id (workers s);
  worker ← snd <$> workers s !! i;
  let s1 :=
    update_stats (λ st, add_active_workers (-1) (add_worker_failures 1 st))
      (update_worker i (set_wstatus "failed") s) in
  Some match current_job worker with
       | Some l => update_worker i (set_current_job None) (requeue_or_fail l s1)
       | None => s1
       end.

(** [_recover_worker], after its sleep. *)
Definition _recover_worker (worker_id : string) (now : Z)
    (s : AutonomousClusterSimulator) : AutonomousClusterSimulator :=
  match dict_index worker_id (workers s) with
  | Some i =>
      update_stats (λ st, add_active_workers 1 (add_worker_recoveries 1 st))
        (update_worker i (λ w, set_last_heartbeat now (set_wstatus "online" w)) s)
  | None => s
  end.

(** One round of [_fault_injector]: [fires i] tells whether the draw for
    the worker at position [i] fell below its failure chance. *)
Definition _fault_injector_step (fires : nat → bool)
    (s : AutonomousClusterSimulator) (i : nat) : AutonomousClusterSimulator :=
  match workers s !! i with
  | Some (worker_id, worker) =>
      if String.eqb (status worker) "online" && fires i
      then default s (_simulate_worker_failure worker_id s)
      else s
  | None => s
  end.

Definition _fault_injector_tick (fires : nat → bool)
    (s : AutonomousClusterSimulator) : AutonomousClusterSimulator :=
  foldl (_fault_injector_step fires) s (seq 0 (length (workers s))).

(** One round of [_worker_monitor]. *)
Definition _worker_monitor_step (fires : nat → bool) (current_time : Z)
    (s : AutonomousClusterSimulator) (i : nat) : AutonomousClusterSimulator :=
  match workers s !! i with
  | Some (worker_id, worker) =>
      if String.eqb (status worker) "online" then
        if fires i then default s (_simulate_worker_failure worker_id s)
        else update_worker i (set_last_heartbeat current_time) s
      else s
  | None => s
  end.

Definition _worker_monitor_tick (fires : nat → bool) (current_time : Z)
    (s : AutonomousClusterSimulator) : AutonomousClusterSimulator :=
  foldl (_worker_monitor_step fires current_time) s (seq 0 (length (workers s))).

(** ** The scheduler *)

(** The sort key [job.priority.value] of the job object at [l]. *)
Definition priority_key (st : list JobTypes.Job) (l : loc) : Z :=
  match st !! l with
  | Some job => JobTypes.priority_value (JobTypes.priority job)
  | None => 0
  end.

(** [[w for w in self.workers.values() if w.is_available]], each worker
    with its position. *)
Definition available_workers (s : AutonomousClusterSimulator)
  : list (nat * WorkerInfo) :=
  List.filter (λ iw, is_available iw.2) (imap (λ i kv, (i, kv.2)) (workers s)).

(** The assignments of a dispatch, on the job and on the worker. *)
Definition job_assigned (now : Z) (worker : WorkerInfo) (j : JobTypes.Job)
  : JobTypes.Job :=
  JobTypes.set_worker_id (Some (worker_id worker))
    (JobTypes.set_started_at (Some now) (JobTypes.set_status JobTypes.RUNNING j)).

Definition worker_assigned (job : loc) (w : WorkerInfo) : WorkerInfo :=
  set_wstatus "busy" (set_current_job (Some job) w).

(** One round of [_job_scheduler]; [r] is the draw of [random.choice]. *)
Definition _job_scheduler_tick (r : nat) (now : Z)
    (s : AutonomousClusterSimulator) : AutonomousClusterSimulator :=
  match job_queue s with
  | [] => s
  | _ :: _ =>
      let s1 :=
        with_job_queue (sort_desc (priority_key (store s)) (job_queue s)) s in
      match available_workers s1 with
      | [] => s1
      | first :: others =>
          match job_queue s1 with
          | [] => s1
          | job :: rest =>
              let '(i, worker) :=
                default first (random_choice r (first :: others)) in
              update_job job (job_assigned now worker)
                (update_worker i (worker_assigned job) (with_job_queue rest s1))
          end
      end
  end.

(** ** The executor runner *)
Section Runner.
Context {World : Type}.
Variable registry : JobTypes.JobExecutorRegistry World.

(** The assignments that end a job, and the one that frees its worker. *)
Definition job_completed (now : Z) (v : PyVal) (j : JobTypes.Job) : JobTypes.Job :=
  JobTypes.set_result (Some v)
    (JobTypes.set_completed_at (Some now)
       (JobTypes.set_status JobTypes.COMPLETED j)).

Definition job_failed (now : Z) (r : JobTypes.ExecResult) (j : JobTypes.Job)
  : JobTypes.Job :=
  JobTypes.set_error_message (JobTypes.exec_error_text r)
    (JobTypes.set_completed_at (Some now)
       (JobTypes.set_status JobTypes.FAILED j)).

Definition worker_freed (w : WorkerInfo) : WorkerInfo :=
  set_wstatus "online" (set_current_job None w).

Definition _job_executor_step (now : Z)
    (sw : AutonomousClusterSimulator * World) (i : nat)
  : AutonomousClusterSimulator * World :=
  let '(s, w) := sw in
  match workers s !! i with
  | Some (_, worker) =>
      match current_job worker with
      | Some l =>
          match store s !! l with
          | Some job =>
              if bool_decide (JobTypes.status job = JobTypes.RUNNING) then
                let '(r, w') := JobTypes.execute_job registry job w in
                let s1 :=
                  match r with
                  | JobTypes.ExecReturned v =>
                      update_stats (add_completed_jobs 1)
                        (update_job l (job_completed now v) s)
                  | _ =>
                      update_stats (add_failed_jobs 1)
                        (update_job l (job_failed now r) s)
                  end in
                (update_worker i worker_freed s1, w')
              else (s, w)
          | None => (s, w)
          end
      | None => (s, w)
      end
  | None => (s, w)
  end.

(** One round of [_job_executor], over the workers in dictionary order.
    The clock is read once for every job, after its executor has
    returned: [now i] is the reading for the worker at position [i]. *)
Definition _job_executor_tick (now : nat → Z) (w : World)
    (s : AutonomousClusterSimulator) : AutonomousClusterSimulator * World :=
  foldl (λ sw i, _job_executor_step (now i) sw i) (s, w)
        (seq 0 (length (workers s))).
End Runner.

(** ** The HTTP handler of [/api/update-job-rate] *)

(** The exceptions the handler's [try] block can meet. *)
Inductive PyException :=
  | BadRequest              (* request.get_json() rejects the body *)
  | AttributeError          (* the parsed body has no method [get] *)
  | TypeError               (* float() of None, a list or a dict *)
  | ValueError (s : string) (* float() of a string that is no number *)
  | OverflowError.          (* float() of an int beyond the float range *)

Inductive Try (A : Type) :=
  | Ok (a : A)
  | Raise (e : PyException).
Arguments Ok {A} a.
Arguments Raise {A} e.

(** [float(n)] of an int rounds to the nearest binary64, ties to even:
    [round_to_binary64 n] is that float's value. *)
Definition round_to_binary64 (n : Z) : Z :=
  let a := Z.abs n in
  let e := Z.log2 a - 52 in
  if e <=? 0 then n
  else
    let m := Z.shiftr a e in
    let rest := a - Z.shiftl m e in
    let half := Z.shiftl 1 (e - 1) in
    let m' := if (half <? rest) || ((rest =? half) && Z.odd m) then m + 1 else m in
    Z.sgn n * Z.shiftl m' e.

Definition float_of_int (n : Z) : Try PyFloat :=
  let r := round_to_binary64 n in
  if 2 ^ 1024 <=? Z.abs r then Raise OverflowError
  else Ok (FNum (inject_Z r)).

(** The JSON object of a response and its status code.  [message] holds
    the rate that the text "Job generation rate set to ... jobs/minute"
    quotes, [error] the exception whose [str(e)] is reported. *)
Record Response := mkResponse {
  http_status : Z;
  success : bool;
  new_rate : option PyFloat;
  message : option PyFloat;
  error : option PyException
}.

Section Http.
(** Python's [float(str)], the parser of float literals; [None] is its
    ValueError. *)
Variable float_of_str : string → option PyFloat.

(** The built-in [float(x)]. *)
Definition py_float (v : PyVal) : Try PyFloat :=
  match v with
  | PyNone => Raise TypeError
  | PyBool b => Ok (FNum (if b then 1 # 1 else 0 # 1))
  | PyInt n => float_of_int n
  | PyFloatV f => Ok f
  | PyStr str =>
      match float_of_str str with
      | Some f => Ok f
      | None => Raise (ValueError str)
      end
  | PyList _ | PyDict _ => Raise TypeError
  end.

(** [data.get('rate', 2.0)] *)
Definition get_rate (data : PyVal) : Try PyVal :=
  match data with
  | PyDict d => Ok (default (PyFloatV float_2_0) (dict_get "rate" d))
  | _ => Raise AttributeError
  end.

(** The validation of the rate. *)
Definition clamp_rate (new_rate : PyFloat) : PyFloat :=
  if float_lt new_rate float_0_1 then float_0_1
  else if float_gt new_rate float_50_0 then float_50_0
  else new_rate.

(** [update_job_rate]; [request_json] is what [request.get_json()]
    returns or raises. *)
Definition update_job_rate (request_json : Try PyVal)
    (s : AutonomousClusterSimulator) : Response * AutonomousClusterSimulator :=
  let attempt :=
    match request_json with
    | Ok data =>
        match get_rate data with
        | Ok v => py_float v
        | Raise e => Raise e
        end
    | Raise e => Raise e
    end in
  match attempt with
  | Ok new_rate =>
      let new_rate := clamp_rate new_rate in
      (mkResponse 200 true (Some new_rate) (Some new_rate) None,
       set_job_generation_rate new_rate s)
  | Raise e => (mkResponse 400 false None None (Some e), s)
  end.
End Http.

(** ** Runs of the simulator *)

(** The critical sections that change the state, each with the clock
    reading and the draws it consumes.  [Failure] is the failure handler
    called on a worker directly; the fault injector and the heartbeat
    monitor call it for workers that are online. *)
Inductive Event :=
  | AddWorker (worker_id : string) (failure_probability : PyFloat) (now : Z)
  | Generate (fire : bool) (d : GeneratorDraws) (now : Z)
  | Schedule (r : nat) (now : Z)
  | Execute (World : Type) (bodies : JobTypes.ExecutorBodies World) (w : World)
            (now : nat → Z)
  | FaultInjector (fires : nat → bool)
  | WorkerMonitor (fires : nat → bool) (now : Z)
  | Failure (worker_id : string)
  | Recover (worker_id : string) (now : Z)
  | UpdateJobRate (float_of_str : string → option PyFloat) (request_json : Try PyVal).

Definition apply_event (s : AutonomousClusterSimulator) (ev : Event)
  : AutonomousClusterSimulator :=
  match ev with
  | AddWorker worker_id p now => add_worker worker_id p now s
  | Generate fire d now => _job_generator_tick fire d now s
  | Schedule r now => _job_scheduler_tick r now s
  | Execute _ bodies w now =>
      (_job_executor_tick (JobTypes.job_executor_registry bodies) now w s).1
  | FaultInjector fires => _fault_injector_tick fires s
  | WorkerMonitor fires now => _worker_monitor_tick fires now s
  | Failure worker_id => default s (_simulate_worker_failure worker_id s)
  | Recover worker_id now => _recover_worker worker_id now s
  | UpdateJobRate float_of_str request_json =>
      (update_job_rate float_of_str request_json s).2
  end.

Definition run (events : list Event) (s : AutonomousClusterSimulator)
  : AutonomousClusterSimulator :=
  foldl apply_event s events.

(** The states a simulator can be observed in. *)
Definition reachable (s : AutonomousClusterSimulator) : Prop :=
  ∃ now events, s = run events (init now).

(** ** Invariants of the object graph *)

(** The worker at position [i] refers to the job object at [l]. *)
Definition holds (s : AutonomousClusterSimulator) (i : nat) (l : loc) : Prop :=
  ∃ key worker, workers s !! i = Some (key, worker) ∧ current_job worker = Some l.

(** A job object is live when the queue or some worker refers to it. *)
Definition live (s : AutonomousClusterSimulator) (l : loc) : Prop :=
  l ∈ job_queue s ∨ ∃ i, holds s i l.

(** What holds of every job object on its own: the retry count is at most
    one above the limit, and above it only in a FAILED job; a COMPLETED job
    has its completion time; a FAILED job has it or ran out of retries. *)
Record job_ok (job : JobTypes.Job) : Prop := {
  retry_bounded : JobTypes.retry_count job ≤ JobTypes.max_retries job + 1;
  retry_exceeded_failed :
    JobTypes.max_retries job < JobTypes.retry_count job →
    JobTypes.status job = JobTypes.FAILED;
  completed_has_time :
    JobTypes.status job = JobTypes.COMPLETED → is_Some (JobTypes.completed_at job);
  failed_has_time_or_exhausted :
    JobTypes.status job = JobTypes.FAILED →
    is_Some (JobTypes.completed_at job) ∨
    JobTypes.max_retries job < JobTypes.retry_count job
}.

(** What holds of the references between queue, workers and store. *)
Record consistent (s : AutonomousClusterSimulator) : Prop := {
  refs_allocated : ∀ l, live s l → (l < length (store s))%nat;
  queue_nodup : NoDup (job_queue s);
  held_not_queued : ∀ i l, holds s i l → l ∉ job_queue s;
  held_once : ∀ i i' l, holds s i l → holds s i' l → i = i';
  held_running :
    ∀ i l job, holds s i l → store s !! l = Some job →
               JobTypes.status job = JobTypes.RUNNING;
  queued_pending :
    ∀ l job, l ∈ job_queue s → store s !! l = Some job →
             JobTypes.status job = JobTypes.PENDING ∧
             JobTypes.worker_id job = None ∧
             JobTypes.started_at job = None;
  jobs_ok : ∀ l job, store s !! l = Some job → job_ok job
}.

(** ** Invariants of the bookkeeping *)

(** 1 when the job has the status, 0 otherwise; and the number of job
    objects of a status. *)
Definition status_indicator (st : JobTypes.JobStatus) (job : JobTypes.Job) : Z :=
  if bool_decide (JobTypes.status job = st) then 1 else 0.

Definition count_status (st : JobTypes.JobStatus) (js : list JobTypes.Job) : Z :=
  foldr (λ job n, status_indicator st job + n) 0 js.

(** What holds of every job object on its own, beyond [job_ok]: a RUNNING
    job has its start time and worker, a COMPLETED job a duration and a
    result, a FAILED job an error message. *)
Record job_timed (job : JobTypes.Job) : Prop := {
  running_has_start :
    JobTypes.status job = JobTypes.RUNNING →
    is_Some (JobTypes.started_at job) ∧ is_Some (JobTypes.worker_id job);
  completed_has_duration :
    JobTypes.status job = JobTypes.COMPLETED →
    is_Some (JobTypes.duration job) ∧ is_Some (JobTypes.result job);
  failed_has_message :
    JobTypes.status job = JobTypes.FAILED → is_Some (JobTypes.error_message job)
}.

(** The counters of [stats] against the store and the [jobs] dictionary. *)
Record counted (s : AutonomousClusterSimulator) : Prop := {
  total_counted : total_jobs (stats s) = Z.of_nat (length (store s));
  completed_counted :
    completed_jobs (stats s) = count_status JobTypes.COMPLETED (store s);
  failed_counted : failed_jobs (stats s) = count_status JobTypes.FAILED (store s);
  jobs_indexed :
    ∀ id l, jobs s !! id = Some l →
            ∃ job, store s !! l = Some job ∧ JobTypes.job_id job = id;
  jobs_size : (size (jobs s) ≤ length (store s))%nat;
  jobs_timed : ∀ l job, store s !! l = Some job → job_timed job
}.

(** What holds of a worker object stored under [key]. *)
Record worker_ok (key : string) (w : WorkerInfo) : Prop := {
  worker_keyed : worker_id w = key;
  worker_status_known :
    status w = "online" ∨ status w = "busy" ∨ status w = "failed";
  busy_has_job : status w = "busy" → is_Some (current_job w);
  failed_has_no_job : status w = "failed" → current_job w = None
}.

(** The workers: each is well formed, the keys are distinct, and the job a
    worker holds names that worker. *)
Record staffed (s : AutonomousClusterSimulator) : Prop := {
  workers_ok : ∀ i key w, workers s !! i = Some (key, w) → worker_ok key w;
  worker_keys_nodup : NoDup (workers s).*1;
  held_names_worker :
    ∀ i key w l job,
      workers s !! i = Some (key, w) → current_job w = Some l →
      store s !! l = Some job →
      JobTypes.worker_id job = Some (worker_id w)
}.

(** [job'] is [job] as the executor runner leaves it at time [now]: ended,
    with its completion time, and nothing else of its scheduling changed. *)
Record finished_at (now : Z) (job job' : JobTypes.Job) : Prop := {
  finished_status :
    JobTypes.status job' = JobTypes.COMPLETED ∨ JobTypes.status job' = JobTypes.FAILED;
  finished_time : JobTypes.completed_at job' = Some now;
  finished_same_id : JobTypes.job_id job' = JobTypes.job_id job;
  finished_same_start : JobTypes.started_at job' = JobTypes.started_at job;
  finished_same_worker : JobTypes.worker_id job' = JobTypes.worker_id job;
  finished_same_retries : JobTypes.retry_count job' = JobTypes.retry_count job
}.

(** What holds of a job from its creation on: the fields that no
    assignment of the simulator touches are as the generator and
    [create_job] set them, the retry count only grows, and no assignment
    writes CANCELLED. *)
Record job_made (job : JobTypes.Job) : Prop := {
  made_type :
    ∃ ranges draws,
      (JobTypes.job_type job, ranges) ∈ job_types ∧
      JobTypes.parameters job = gen_params ranges draws;
  made_id :
    ∃ r1 r2 r3,
      JobTypes.job_id job =
        Utils.generate_job_id (JobTypes.job_type job)
          (Utils.lower (JobTypes.priority_name (JobTypes.priority job))) r1 r2 r3;
  made_max_retries : JobTypes.max_retries job = 3;
  made_retry_nonneg : 0 ≤ JobTypes.retry_count job;
  made_not_cancelled : JobTypes.status job ≠ JobTypes.CANCELLED
}.

(** ** Runs in which only the threads call the failure handler *)

(** The fault injector and the heartbeat monitor call
    [_simulate_worker_failure] for online workers only, and every recovery
    is started by a failure.  An event is [guarded] in a state when the
    failure handler is not called from outside and a recovery reaches a
    worker that is failed. *)
Definition guarded (s : AutonomousClusterSimulator) (ev : Event) : Prop :=
  match ev with
  | Failure _ => False
  | Recover worker_id _ =>
      ∀ i w, workers s !! i = Some (worker_id, w) → status w = "failed"
  | _ => True
  end.

Fixpoint guarded_run (s : AutonomousClusterSimulator) (events : list Event) : Prop :=
  match events with
  | [] => True
  | ev :: rest => guarded s ev ∧ guarded_run (apply_event s ev) rest
  end.

(** Every worker that has a current job is busy. *)
Definition tidy (s : AutonomousClusterSimulator) : Prop :=
  ∀ i key w, workers s !! i = Some (key, w) →
             is_Some (current_job w) → status w = "busy".

(** The job was never taken from a worker: it has no retry behind it, and
    if it is FAILED it was the executor runner that ended it. *)
Record never_requeued (job : JobTypes.Job) : Prop := {
  no_retry : JobTypes.retry_count job = 0;
  failed_by_executor :
    JobTypes.status job = JobTypes.FAILED → is_Some (JobTypes.completed_at job)
}.

End Simulator.

(** * Scenarios *)

(** Runs of the simulator that the examples below start from. *)
Module Scenarios.
Import Simulator.

(** A sleep job of NORMAL priority whose id ends in [1000 + n]. *)
Definition draws (n : Z) : GeneratorDraws :=
  mkDraws 0 (λ _, (0, FNum (1 # 10))) 1 0 0 n.


(** One worker, holding the only job. *)
Definition busy_worker : AutonomousClusterSimulator :=
  run [AddWorker "w1" (FNum 0) 0; Generate true (draws 0) 1; Schedule 0 2] (init 0).

(** The worker fails, recovers and is given the job again. *)
Definition fail_recover_schedule (now : Z) : list Event :=
  [Failure "w1"; Recover "w1" now; Schedule 0 (now + 1)].

(** The job is requeued three times and runs on the worker again: its
    [retry_count] equals its [max_retries]. *)
Definition retries_used_up_events : list Event :=
  [AddWorker "w1" (FNum 0) 0; Generate true (draws 0) 1; Schedule 0 2]
  ++ fail_recover_schedule 10 ++ fail_recover_schedule 20 ++ fail_recover_schedule 30.

Definition retries_used_up : AutonomousClusterSimulator :=
  run retries_used_up_events (init 0).

(** One more failure of the worker. *)
Definition retries_exceeded : AutonomousClusterSimulator :=
  run (retries_used_up_events ++ [Failure "w1"]) (init 0).

(** A worker that failed while idle. *)
Definition failed_worker : AutonomousClusterSimulator :=
  run [AddWorker "w1" (FNum 0) 0; Failure "w1"] (init 0).

(** Two idle workers and two queued jobs. *)
Definition two_jobs_two_workers : AutonomousClusterSimulator :=
  run [AddWorker "w1" (FNum 0) 0; AddWorker "w2" (FNum 0) 0;
       Generate true (draws 0) 1; Generate true (draws 1) 2] (init 0).

(** Two emissions whose draws agree. *)
Definition colliding_emissions : AutonomousClusterSimulator :=
  run [Generate true (draws 0) 1; Generate true (draws 0) 2] (init 0).

(** Executor bodies that return at once, in a world without state. *)
Definition quick_bodies : JobTypes.ExecutorBodies unit :=
  JobTypes.mkBodies
    (λ _ w, (JobTypes.Returned (PyStr "slept"), w))
    (λ _ w, (JobTypes.Returned (PyStr "computed"), w))
    (λ _ w, (JobTypes.Returned (PyStr "multiplied"), w))
    (λ job w, (JobTypes.Raised ("Simulated failure in job " +:+ JobTypes.job_id job), w)).

(** The events up to the point where the only job runs on the only worker. *)
Definition busy_worker_events : list Event :=
  [AddWorker "w1" (FNum 0) 0; Generate true (draws 0) 1; Schedule 0 2].

(** The job has run to completion. *)
Definition completed_job : AutonomousClusterSimulator :=
  run (busy_worker_events ++ [Execute unit quick_bodies tt (λ _, 3)]) (init 0).
(** A run of the threads: the worker fails while idle, recovers and is
    given a job; the fault injector then draws a failure for it while it is
    busy; the job runs to its end. *)
Definition thread_events : list Event :=
  [AddWorker "w1" float_0_1 0; FaultInjector (λ _, true); Recover "w1" 5;
   Generate true (draws 0) 6; Schedule 0 7; FaultInjector (λ _, true);
   Execute unit quick_bodies tt (λ _, 8)].
(** Two workers, each holding one of two jobs. *)
Definition two_busy_workers_events : list Event :=
  [AddWorker "w1" float_0_1 0; AddWorker "w2" float_0_1 0;
   Generate true (draws 0) 1; Generate true (draws 1) 2;
   Schedule 0 3; Schedule 0 4].

Definition two_busy_workers : AutonomousClusterSimulator :=
  run two_busy_workers_events (init 0).
End Scenarios.

(** * Properties *)

Import Simulator.

(** ** The executor registry *)
Section RegistryFacts.
Context {World : Type}.
Implicit Types (reg : JobTypes.JobExecutorRegistry World) (job : JobTypes.Job).

Lemma get_executor_none reg job :
  JobTypes.get_executor reg job = None ↔
  Forall (λ e, JobTypes.any_can_execute e job = false) reg.
Proof.
  induction reg as [|e reg IH]; simpl.
  - split; [constructor | done].
  - destruct (JobTypes.any_can_execute e job) eqn:He.
    + split; [done | intros H; inversion H; congruence].
    + rewrite IH. split; [by constructor | by inversion 1].
Qed.

Lemma get_executor_some reg job e :
  JobTypes.get_executor reg job = Some e ↔
  ∃ before after,
    reg = before ++ e :: after ∧
    JobTypes.any_can_execute e job = true ∧
    Forall (λ e', JobTypes.any_can_execute e' job = false) before.
Proof.
  induction reg as [|e0 reg IH]; simpl.
  - split; [done | intros (before & after & Heq & _)].
    by destruct before.
  - destruct (JobTypes.any_can_execute e0 job) eqn:He0.
    + split.
      * intros [= ->]. by exists [], reg.
      * intros ([|e1 before] & after & Heq & He & Hbefore); simplify_eq/=; [done|].
        inversion Hbefore; congruence.
    + rewrite IH. split.
      * intros (before & after & -> & He & Hbefore).
        exists (e0 :: before), after. by repeat constructor.
      * intros ([|e1 before] & after & Heq & He & Hbefore); simplify_eq/=.
        { congruence. }
        inversion Hbefore; subst. by exists before, after.
Qed.

Lemma default_registry_can_execute (bodies : JobTypes.ExecutorBodies World) job :
  map (λ e, JobTypes.any_can_execute e job) (JobTypes.job_executor_registry bodies) =
  [ String.eqb (JobTypes.job_type job) "sleep";
    String.eqb (JobTypes.job_type job) "compute";
    String.eqb (JobTypes.job_type job) "matrix";
    String.eqb (JobTypes.job_type job) "fault_injection" ].
Proof. reflexivity. Qed.

Lemma default_registry_none (bodies : JobTypes.ExecutorBodies World) job :
  JobTypes.get_executor (JobTypes.job_executor_registry bodies) job = None ↔
  JobTypes.job_type job ∉ ["sleep"; "compute"; "matrix"; "fault_injection"].
Proof.
  rewrite !not_elem_of_cons, elem_of_nil, <- !String.eqb_neq.
  unfold JobTypes.job_executor_registry, JobTypes._register_default_executors,
    JobTypes.register; simpl.
  unfold JobTypes.any_can_execute; simpl.
  repeat destruct (String.eqb (JobTypes.job_type job) _); intuition congruence.
Qed.
End RegistryFacts.

(** ** The rate handler *)
Section RateFacts.
Local Open Scope Q_scope.

Lemma Qle_bool_false_le (p q : Q) : Qle_bool p q = false → Qle_bool q p = true.
Proof.
  intros Hpq. apply Qle_bool_iff, Qlt_le_weak, Qnot_le_lt.
  intros Hle. apply Qle_bool_iff in Hle. congruence.
Qed.

Lemma float_lt_le_false (x y : PyFloat) :
  float_le y x = true → float_lt x y = false.
Proof.
  destruct x as [| [] | p], y as [| [] | q]; simpl; try done.
  by intros ->.
Qed.

Lemma float_lt_false_le (x y : PyFloat) :
  is_nan x = false → is_nan y = false → float_lt x y = false → float_le y x = true.
Proof.
  destruct x as [| [] | p], y as [| [] | q]; simpl; try done.
  intros _ _. by destruct (Qle_bool q p).
Qed.

Lemma float_lt_asym (x y : PyFloat) : float_lt x y = true → float_lt y x = false.
Proof.
  destruct x as [| [] | p], y as [| [] | q]; simpl; try done.
  destruct (Qle_bool q p) eqn:Hqp; [done|].
  intros _. by rewrite (Qle_bool_false_le _ _ Hqp).
Qed.

Lemma float_lt_trans_lit (x : PyFloat) :
  float_lt x float_0_1 = true → float_lt float_50_0 x = false.
Proof.
  destruct x as [| [] | p]; simpl; try done.
  destruct (Qle_bool _ p) eqn:Hp; [done|]. intros _.
  apply Qle_bool_false_le in Hp.
  assert (Hle : Qle_bool p (50 # 1) = true); [|by rewrite Hle].
  apply Qle_bool_iff. apply Qle_bool_iff in Hp.
  eapply Qle_trans; [exact Hp|]. by apply Qle_bool_iff.
Qed.

Lemma clamp_rate_below (f : PyFloat) :
  float_lt f float_0_1 = true → clamp_rate f = float_0_1.
Proof. unfold clamp_rate. by intros ->. Qed.

Lemma clamp_rate_above (f : PyFloat) :
  float_gt f float_50_0 = true → clamp_rate f = float_50_0.
Proof.
  unfold clamp_rate, float_gt. intros Hgt. rewrite Hgt.
  destruct (float_lt f float_0_1) eqn:Hlt; [|done].
  apply float_lt_trans_lit in Hlt. congruence.
Qed.

Lemma clamp_rate_inside (f : PyFloat) :
  float_le float_0_1 f = true → float_le f float_50_0 = true → clamp_rate f = f.
Proof.
  unfold clamp_rate, float_gt. intros Hlo Hhi.
  by rewrite (float_lt_le_false _ _ Hlo), (float_lt_le_false _ _ Hhi).
Qed.

Lemma clamp_rate_range (f : PyFloat) :
  is_nan f = false →
  float_le float_0_1 (clamp_rate f) = true ∧ float_le (clamp_rate f) float_50_0 = true.
Proof.
  intros Hnan. unfold clamp_rate, float_gt.
  destruct (float_lt f float_0_1) eqn:Hlo; [done|].
  destruct (float_lt float_50_0 f) eqn:Hhi; [done|].
  split; by apply float_lt_false_le.
Qed.
End RateFacts.

(** ** Object updates *)

(** Unfold the field updates of the simulator and reduce the projections. *)
Ltac sim_simpl :=
  cbn [store workers jobs job_queue running job_generation_rate failure_rate
       sim_recovery_time stats update_job update_worker update_stats
       with_store with_workers with_jobs with_job_queue
       with_job_generation_rate with_stats set_job_generation_rate] in *.

Section UpdateFacts.
Implicit Types (s : AutonomousClusterSimulator) (l : loc) (i : nat).

Lemma store_update_job_eq s l f job :
  store s !! l = Some job → store (update_job l f s) !! l = Some (f job).
Proof. intros Hl. simpl. by rewrite list_lookup_alter_eq, Hl. Qed.

Lemma store_update_job_ne s l l' f :
  l ≠ l' → store (update_job l f s) !! l' = store s !! l'.
Proof. intros Hne. simpl. by rewrite list_lookup_alter_ne. Qed.

Lemma store_update_job_length s l f :
  length (store (update_job l f s)) = length (store s).
Proof. simpl. apply length_alter. Qed.

Lemma workers_update_worker_eq s i f key w :
  workers s !! i = Some (key, w) →
  workers (update_worker i f s) !! i = Some (key, f w).
Proof. intros Hi. simpl. by rewrite list_lookup_alter_eq, Hi. Qed.

Lemma workers_update_worker_ne s i i' f :
  i ≠ i' → workers (update_worker i f s) !! i' = workers s !! i'.
Proof. intros Hne. simpl. by rewrite list_lookup_alter_ne. Qed.

Lemma workers_update_worker_length s i f :
  length (workers (update_worker i f s)) = length (workers s).
Proof. simpl. apply length_alter. Qed.

(** Updating a worker object leaves the dictionary keys where they are. *)
Lemma dict_index_alter_value {V : Type} (k : string) (f : V → V) i
    (d : list (string * V)) :
  dict_index k (alter (λ kv, (kv.1, f kv.2)) i d) = dict_index k d.
Proof.
  revert i. induction d as [|[k' v] d IH]; intros [|i]; simpl; try done.
  destruct (String.eqb k' k); [done|]. f_equal. apply IH.
Qed.

Lemma dict_index_lookup {V : Type} (k : string) (d : list (string * V)) i :
  dict_index k d = Some i → ∃ v, d !! i = Some (k, v).
Proof.
  revert i. induction d as [|[k' v] d IH]; intros i; simpl; [done|].
  destruct (String.eqb k' k) eqn:Hk.
  - intros [= <-]. apply String.eqb_eq in Hk as ->. by eexists.
  - destruct (dict_index k d) as [j|]; simpl; [|done].
    intros [= <-]. by apply IH.
Qed.

Lemma dict_index_update_worker s k i f :
  dict_index k (workers (update_worker i f s)) = dict_index k (workers s).
Proof. apply dict_index_alter_value. Qed.

Lemma dict_index_update_stats_worker s k i f g :
  dict_index k (workers (update_stats g (update_worker i f s)))
    = dict_index k (workers s).
Proof. apply dict_index_alter_value. Qed.
End UpdateFacts.

(** ** The failure handler *)
Section FailureFacts.
Implicit Types (s : AutonomousClusterSimulator) (l : loc) (job : JobTypes.Job).

Lemma requeue_or_fail_requeue s l job :
  store s !! l = Some job →
  JobTypes.retry_count job + 1 ≤ JobTypes.max_retries job →
  requeue_or_fail l s =
    with_job_queue (job_queue s ++ [l]) (update_job l failure_reset s).
Proof.
  intros Hl Hle. unfold requeue_or_fail.
  rewrite (store_update_job_eq _ _ _ _ Hl). simpl.
  destruct (Z.leb_spec (JobTypes.retry_count job + 1) (JobTypes.max_retries job));
    [done|lia].
Qed.

Lemma requeue_or_fail_exhausted s l job :
  store s !! l = Some job →
  JobTypes.max_retries job < JobTypes.retry_count job + 1 →
  requeue_or_fail l s =
    update_stats (add_failed_jobs 1)
      (update_job l failure_exhausted (update_job l failure_reset s)).
Proof.
  intros Hl Hlt. unfold requeue_or_fail.
  rewrite (store_update_job_eq _ _ _ _ Hl). simpl.
  destruct (Z.leb_spec (JobTypes.retry_count job + 1) (JobTypes.max_retries job));
    [lia|done].
Qed.

Lemma workers_requeue_or_fail s l :
  workers (requeue_or_fail l s) = workers s.
Proof.
  unfold requeue_or_fail.
  destruct (store (update_job l failure_reset s) !! l) as [job|]; [|done].
  by destruct (JobTypes.retry_count job <=? JobTypes.max_retries job).
Qed.

Lemma requeue_or_fail_dangling s l :
  store s !! l = None → requeue_or_fail l s = s.
Proof.
  intros Hl. unfold requeue_or_fail, update_job. simpl.
  rewrite list_lookup_alter_eq, Hl. simpl.
  destruct s. unfold with_store. simpl in *. f_equal.
  apply list_eq. intros l'. destruct (decide (l = l')) as [<-|].
  - by rewrite list_lookup_alter_eq, Hl.
  - by rewrite list_lookup_alter_ne.
Qed.

Lemma _recover_worker_known s wid i now :
  dict_index wid (workers s) = Some i →
  _recover_worker wid now s =
    update_stats (λ st, add_active_workers 1 (add_worker_recoveries 1 st))
      (update_worker i (λ w, set_last_heartbeat now (set_wstatus "online" w)) s).
Proof. intros Hidx. unfold _recover_worker. by rewrite Hidx. Qed.

Lemma _recover_worker_unknown s wid now :
  dict_index wid (workers s) = None → _recover_worker wid now s = s.
Proof. intros Hidx. unfold _recover_worker. by rewrite Hidx. Qed.
End FailureFacts.

(** ** Sorting by descending key *)
Section SortFacts.
Context {A : Type} (key : A → Z).
Implicit Types (x : A) (l : list A).

Lemma insert_desc_perm x l : insert_desc key x l ≡ₚ x :: l.
Proof.
  induction l as [|y l IH]; simpl; [done|].
  destruct (key x <? key y); [|done].
  by rewrite IH, Permutation_swap.
Qed.

Lemma sort_desc_perm l : sort_desc key l ≡ₚ l.
Proof.
  induction l as [|x l IH]; simpl; [done|].
  by rewrite insert_desc_perm, IH.
Qed.

Lemma sort_desc_length l : length (sort_desc key l) = length l.
Proof. by rewrite sort_desc_perm. Qed.

Lemma insert_desc_sorted x l :
  StronglySorted (desc_order key) l → StronglySorted (desc_order key) (insert_desc key x l).
Proof.
  induction 1 as [|y l Hsorted IH Hy]; simpl.
  - by repeat constructor.
  - destruct (Z.ltb_spec (key x) (key y)) as [Hlt|Hge].
    + constructor; [done|].
      rewrite insert_desc_perm. constructor; [unfold desc_order; lia | done].
    + constructor; [by constructor|].
      constructor; [done|].
      eapply Forall_impl; [exact Hy|]. unfold desc_order. intros z ?. lia.
Qed.

Lemma sort_desc_sorted l : StronglySorted (desc_order key) (sort_desc key l).
Proof.
  induction l as [|x l IH]; simpl; [constructor|]. by apply insert_desc_sorted.
Qed.




Lemma sort_desc_nil_inv l : sort_desc key l = [] → l = [].
Proof.
  intros Hsort. apply Permutation_nil_r. by rewrite <- Hsort, sort_desc_perm.
Qed.
End SortFacts.

(** ** The scheduler *)
Section SchedulerFacts.
Implicit Types (s : AutonomousClusterSimulator) (w : WorkerInfo).

Lemma random_choice_elem_of {A : Type} (r : nat) (l : list A) x :
  random_choice r l = Some x → x ∈ l.
Proof. unfold random_choice. apply list_elem_of_lookup_2. Qed.

Lemma random_choice_cons {A : Type} (r : nat) (x : A) (l : list A) :
  default x (random_choice r (x :: l)) ∈ x :: l.
Proof.
  destruct (random_choice r (x :: l)) as [y|] eqn:Hy; simpl.
  - by eapply random_choice_elem_of.
  - by left.
Qed.

Lemma elem_of_available_workers s i w :
  (i, w) ∈ available_workers s ↔
  ∃ key, workers s !! i = Some (key, w) ∧ is_available w = true.
Proof.
  unfold available_workers.
  rewrite list_elem_of_In, filter_In, <- list_elem_of_In, elem_of_lookup_imap.
  split.
  - intros [(i' & [key w'] & [= -> ->] & Hlook) Hav]. by exists key.
  - intros (key & Hlook & Hav). split; [|done]. by exists i, (key, w).
Qed.


Lemma _job_scheduler_tick_empty r now s :
  job_queue s = [] → _job_scheduler_tick r now s = s.
Proof. unfold _job_scheduler_tick. by intros ->. Qed.

Lemma _job_scheduler_tick_no_worker r now s :
  job_queue s ≠ [] → available_workers s = [] →
  _job_scheduler_tick r now s
    = with_job_queue (sort_desc (priority_key (store s)) (job_queue s)) s.
Proof.
  intros Hq Hav. unfold _job_scheduler_tick.
  destruct (job_queue s) as [|l q] eqn:Hqueue; [done|].
  change (available_workers (with_job_queue _ s)) with (available_workers s).
  by rewrite Hav.
Qed.

(** With a queued job and an available worker the tick makes one
    assignment: the head of the sorted queue goes to one available worker. *)
Lemma _job_scheduler_tick_dispatch r now s :
  job_queue s ≠ [] → available_workers s ≠ [] →
  ∃ job rest i key worker,
    sort_desc (priority_key (store s)) (job_queue s) = job :: rest ∧
    workers s !! i = Some (key, worker) ∧
    is_available worker = true ∧
    _job_scheduler_tick r now s
      = update_job job (job_assigned now worker)
          (update_worker i (worker_assigned job) (with_job_queue rest s)).
Proof.
  intros Hq Hav. unfold _job_scheduler_tick.
  destruct (job_queue s) as [|l q] eqn:Hqueue; [done|].
  change (available_workers (with_job_queue _ s)) with (available_workers s).
  destruct (available_workers s) as [|first others] eqn:Havail; [done|].
  cbn [job_queue with_job_queue].
  destruct (sort_desc (priority_key (store s)) (l :: q)) as [|job rest] eqn:Hsort.
  { by apply sort_desc_nil_inv in Hsort. }
  pose proof (random_choice_cons r first others) as Hin.
  destruct (default first (random_choice r (first :: others))) as [i worker].
  rewrite <- Havail in Hin. apply elem_of_available_workers in Hin as (key & Hi & Hw).
  by exists job, rest, i, key, worker.
Qed.
End SchedulerFacts.

(** ** Consistency of the object graph *)
Section ConsistencyFacts.
Implicit Types (s : AutonomousClusterSimulator) (l i : nat) (job : JobTypes.Job).

Lemma alter_as_insert {A : Type} (f : A → A) (xs : list A) (n : nat) (x : A) :
  xs !! n = Some x → alter f n xs = <[n := f x]> xs.
Proof.
  intros Hx. apply list_eq. intros m. destruct (decide (n = m)) as [<-|Hne].
  - rewrite list_lookup_alter_eq, Hx, list_lookup_insert_eq; [done|].
    by eapply lookup_lt_Some.
  - by rewrite list_lookup_alter_ne, list_lookup_insert_ne.
Qed.

Lemma holds_update_worker_inv s i (g : WorkerInfo → WorkerInfo) i' l :
  holds (update_worker i g s) i' l →
  (i' ≠ i ∧ holds s i' l) ∨
  (i' = i ∧ ∃ key w, workers s !! i = Some (key, w) ∧ current_job (g w) = Some l).
Proof.
  intros (key & w & Hlook & Hjob). sim_simpl.
  destruct (decide (i = i')) as [<-|Hne].
  - right. split; [done|]. rewrite list_lookup_alter_eq in Hlook.
    destruct (workers s !! i) as [[key0 w0]|]; [|done].
    simpl in Hlook. injection Hlook as <- <-. by exists key0, w0.
  - left. split; [done|]. rewrite list_lookup_alter_ne in Hlook by done.
    by exists key, w.
Qed.

Lemma holds_update_worker_keep s i (g : WorkerInfo → WorkerInfo) i' l :
  (∀ w, current_job (g w) = current_job w) →
  holds (update_worker i g s) i' l → holds s i' l.
Proof.
  intros Hg Hh. apply holds_update_worker_inv in Hh as [[_ Hh]|[-> Hh]]; [done|].
  destruct Hh as (key & w & Hlook & Hjob). exists key, w. by rewrite <- Hg.
Qed.

Lemma holds_update_worker_clear s i (g : WorkerInfo → WorkerInfo) i' l :
  (∀ w, current_job (g w) = None) →
  holds (update_worker i g s) i' l → i' ≠ i ∧ holds s i' l.
Proof.
  intros Hg Hh. apply holds_update_worker_inv in Hh as [Hh|[-> Hh]]; [done|].
  destruct Hh as (key & w & Hlook & Hjob). by rewrite Hg in Hjob.
Qed.

Lemma holds_dict_set s wid (w : WorkerInfo) i l :
  current_job w = None →
  holds (with_workers (dict_set wid w (workers s)) s) i l → holds s i l.
Proof.
  intros Hw (key & w' & Hlook & Hjob). sim_simpl. unfold dict_set in Hlook.
  destruct (dict_index wid (workers s)) as [i0|].
  - apply list_lookup_insert_Some in Hlook as [(-> & [= <- <-] & _)|[_ Hlook]].
    + congruence.
    + by exists key, w'.
  - apply lookup_app_Some in Hlook as [Hlook|[_ Hlook]].
    + by exists key, w'.
    + apply list_lookup_singleton_Some in Hlook as [_ [= <- <-]]. congruence.
Qed.

Lemma consistent_init now : consistent (init now).
Proof.
  split; simpl.
  - intros l [Hl|(i & key & w & Hlook & _)]; [by apply elem_of_nil in Hl|done].
  - constructor.
  - intros i l _. apply not_elem_of_nil.
  - by intros i i' l (key & w & Hlook & _).
  - by intros i l job (key & w & Hlook & _).
  - intros l job Hl. by apply elem_of_nil in Hl.
  - done.
Qed.

(** Changes that keep the store, permute the queue and add no reference. *)
Lemma consistent_frame s s' :
  store s' = store s →
  job_queue s' ≡ₚ job_queue s →
  (∀ i l, holds s' i l → holds s i l) →
  consistent s → consistent s'.
Proof.
  intros Hstore Hqueue Hholds [Hrefs Hnodup Hnq Honce Hrun Hpend Hok]. split.
  - intros l [Hl|[i Hi]]; rewrite Hstore; apply Hrefs.
    + left. by rewrite <- Hqueue.
    + right. eauto.
  - by rewrite Hqueue.
  - intros i l Hi. rewrite Hqueue. eauto.
  - eauto.
  - intros i l job Hi. rewrite Hstore. eauto.
  - intros l job Hl. rewrite Hstore. rewrite Hqueue in Hl. eauto.
  - by rewrite Hstore.
Qed.

(** A job that is queued or held has retries left. *)
Lemma live_retries_left s l job :
  consistent s → live s l → store s !! l = Some job →
  JobTypes.retry_count job ≤ JobTypes.max_retries job.
Proof.
  intros Hs Hlive Hl. pose proof (jobs_ok s Hs l job Hl) as Hok.
  destruct (Z.le_gt_cases (JobTypes.retry_count job) (JobTypes.max_retries job))
    as [Hle|Hgt]; [done|].
  apply (retry_exceeded_failed job Hok) in Hgt.
  destruct Hlive as [Hq|[i Hi]].
  - destruct (queued_pending s Hs l job Hq Hl) as [Hp _]. congruence.
  - pose proof (held_running s Hs i l job Hi Hl). congruence.
Qed.

Lemma live_allocated s l :
  consistent s → live s l → ∃ job, store s !! l = Some job.
Proof.
  intros Hs Hlive. apply lookup_lt_is_Some_2. by apply (refs_allocated s Hs).
Qed.
End ConsistencyFacts.

Section ConsistencySteps.
Implicit Types (s : AutonomousClusterSimulator) (l i : nat) (job : JobTypes.Job).

(** A worker gives up the job it held; the job object is rewritten and
    may go back to the end of the queue. *)
Lemma consistent_release s s' i l job job' (requeued : bool) :
  consistent s → holds s i l → store s !! l = Some job →
  store s' = <[l := job']> (store s) →
  job_queue s' = (if requeued then job_queue s ++ [l] else job_queue s) →
  (∀ i' l', holds s' i' l' → i' ≠ i ∧ holds s i' l') →
  job_ok job' →
  (requeued = true →
   JobTypes.status job' = JobTypes.PENDING ∧ JobTypes.worker_id job' = None ∧
   JobTypes.started_at job' = None) →
  consistent s'.
Proof.
  intros Hs Hi Hl Hstore Hqueue Hholds Hok' Hpending.
  pose proof Hs as [Hrefs Hnodup Hnq Honce Hrun Hpend Hok].
  assert (Hlq : l ∉ job_queue s) by eauto.
  assert (Hothers : ∀ i' l', holds s' i' l' → l' ≠ l ∧ holds s i' l').
  { intros i' l' Hh. destruct (Hholds i' l' Hh) as [Hne Hh']. split; [|done].
    intros ->. by specialize (Honce i' i l Hh' Hi). }
  assert (Hqueued : ∀ l', l' ∈ job_queue s' →
                          l' ∈ job_queue s ∨ (l' = l ∧ requeued = true)).
  { intros l'. rewrite Hqueue. destruct requeued; [|by left].
    rewrite elem_of_app, list_elem_of_singleton. intros [?| ->]; [by left|by right]. }
  split.
  - intros l' Hlive. rewrite Hstore, length_insert.
    destruct Hlive as [Hq|[i' Hh]].
    + destruct (Hqueued l' Hq) as [Hq'|[-> _]]; apply Hrefs; [by left|].
      right. by exists i.
    + apply Hrefs. right. exists i'. by apply Hothers.
  - rewrite Hqueue. destruct requeued; [|done].
    apply NoDup_app. split; [done|]. split; [|apply NoDup_singleton].
    intros x Hx. rewrite list_elem_of_singleton. by intros ->.
  - intros i' l' Hh Hq. destruct (Hothers i' l' Hh) as [Hne Hh'].
    destruct (Hqueued l' Hq) as [Hq'|[-> _]]; [by eapply Hnq|done].
  - intros i1 i2 l' H1 H2. apply (Honce i1 i2 l'); by apply Hothers.
  - intros i' l' j Hh Hj. destruct (Hothers i' l' Hh) as [Hne Hh'].
    rewrite Hstore, list_lookup_insert_ne in Hj by done. eauto.
  - intros l' j Hq Hj. rewrite Hstore in Hj.
    apply list_lookup_insert_Some in Hj as [(<- & <- & _)|[Hne Hj]].
    + destruct (Hqueued l Hq) as [Hq'|[_ Hre]]; [done|by apply Hpending].
    + destruct (Hqueued l' Hq) as [Hq'|[-> _]]; [eauto|done].
  - intros l' j Hj. rewrite Hstore in Hj.
    apply list_lookup_insert_Some in Hj as [(<- & <- & _)|[Hne Hj]]; eauto.
Qed.

(** A queued job leaves the queue and is given to the worker at [i]. *)
Lemma consistent_assign s s' i l job job' :
  consistent s →
  job_queue s ≡ₚ l :: job_queue s' →
  store s !! l = Some job →
  store s' = <[l := job']> (store s) →
  (∀ i' l', holds s' i' l' → (i' = i ∧ l' = l) ∨ (i' ≠ i ∧ holds s i' l')) →
  JobTypes.status job' = JobTypes.RUNNING →
  JobTypes.retry_count job' = JobTypes.retry_count job →
  JobTypes.max_retries job' = JobTypes.max_retries job →
  consistent s'.
Proof.
  intros Hs Hperm Hl Hstore Hholds Hstatus Hrc Hmr.
  pose proof Hs as [Hrefs Hnodup Hnq Honce Hrun Hpend Hok].
  assert (Hlq : l ∈ job_queue s) by (rewrite Hperm; by left).
  assert (Hsub : ∀ l', l' ∈ job_queue s' → l' ∈ job_queue s).
  { intros l' Hl'. rewrite Hperm. by right. }
  rewrite Hperm in Hnodup. apply NoDup_cons in Hnodup as [Hlq' Hnodup'].
  assert (Hfree : ∀ i', ¬ holds s i' l) by (intros i' Hh; by eapply Hnq).
  assert (Hleft : JobTypes.retry_count job ≤ JobTypes.max_retries job).
  { apply (live_retries_left s l); [done|by left|done]. }
  split.
  - intros l' Hlive. rewrite Hstore, length_insert. apply Hrefs.
    destruct Hlive as [Hq|[i' Hh]]; [left; eauto|].
    destruct (Hholds i' l' Hh) as [[-> ->]|[_ Hh']]; [by left|right; eauto].
  - done.
  - intros i' l' Hh Hq.
    destruct (Hholds i' l' Hh) as [[-> ->]|[_ Hh']]; [done|].
    eapply Hnq; eauto.
  - intros i1 i2 l' H1 H2.
    destruct (Hholds i1 l' H1) as [[Hi1 Hl1]|[Hne1 H1']],
             (Hholds i2 l' H2) as [[Hi2 Hl2]|[Hne2 H2']]; subst.
    + done.
    + by destruct (Hfree i2).
    + by destruct (Hfree i1).
    + eauto.
  - intros i' l' j Hh Hj. rewrite Hstore in Hj.
    apply list_lookup_insert_Some in Hj as [(<- & <- & _)|[Hne Hj]]; [done|].
    destruct (Hholds i' l' Hh) as [[-> ->]|[_ Hh']]; [done|eauto].
  - intros l' j Hq Hj. rewrite Hstore in Hj.
    apply list_lookup_insert_Some in Hj as [(<- & <- & _)|[Hne Hj]]; [done|eauto].
  - intros l' j Hj. rewrite Hstore in Hj.
    apply list_lookup_insert_Some in Hj as [(<- & <- & _)|[Hne Hj]]; [|eauto].
    split; rewrite ?Hrc, ?Hmr, ?Hstatus; try done; lia.
Qed.

(** A new job object is allocated and queued. *)
Lemma consistent_allocate s s' job :
  consistent s →
  store s' = store s ++ [job] →
  job_queue s' = job_queue s ++ [length (store s)] →
  (∀ i l, holds s' i l → holds s i l) →
  JobTypes.status job = JobTypes.PENDING →
  JobTypes.worker_id job = None → JobTypes.started_at job = None →
  JobTypes.retry_count job ≤ JobTypes.max_retries job →
  consistent s'.
Proof.
  intros Hs Hstore Hqueue Hholds Hstatus Hwid Hstart Hretry.
  pose proof Hs as [Hrefs Hnodup Hnq Honce Hrun Hpend Hok].
  assert (Hold : ∀ l, live s l → l ≠ length (store s)).
  { intros l Hl%Hrefs. lia. }
  split.
  - intros l Hlive. rewrite Hstore, length_app. simpl.
    destruct Hlive as [Hq|[i Hh]].
    + rewrite Hqueue, elem_of_app, list_elem_of_singleton in Hq.
      destruct Hq as [Hq| ->]; [|lia].
      assert (l < length (store s))%nat by (apply Hrefs; by left). lia.
    + assert (l < length (store s))%nat by (apply Hrefs; right; eauto). lia.
  - rewrite Hqueue. apply NoDup_app. split; [done|]. split; [|apply NoDup_singleton].
    intros x Hx. rewrite list_elem_of_singleton. apply Hold. by left.
  - intros i l Hh. rewrite Hqueue, elem_of_app, list_elem_of_singleton.
    intros [Hq|Heq]; [by eapply Hnq; eauto|].
    apply (Hold l); [right; eauto|done].
  - eauto.
  - intros i l j Hh Hj. rewrite Hstore in Hj.
    apply lookup_app_Some in Hj as [Hj|[Hlen _]]; [eauto|].
    assert (l < length (store s))%nat by (apply Hrefs; right; eauto). lia.
  - intros l j Hq Hj. rewrite Hstore in Hj.
    rewrite Hqueue, elem_of_app, list_elem_of_singleton in Hq.
    apply lookup_app_Some in Hj as [Hj|[Hlen Hj]].
    + destruct Hq as [Hq| ->]; [eauto|]. apply lookup_lt_Some in Hj. lia.
    + apply list_lookup_singleton_Some in Hj as [_ <-]. done.
  - intros l j Hj. rewrite Hstore in Hj.
    apply lookup_app_Some in Hj as [Hj|[Hlen Hj]]; [eauto|].
    apply list_lookup_singleton_Some in Hj as [_ <-].
    split; rewrite ?Hstatus; try done; lia.
Qed.
End ConsistencySteps.

Section ConsistencyEvents.
Implicit Types (s : AutonomousClusterSimulator) (l i : nat) (job : JobTypes.Job).

Lemma consistent_add_worker wid p now s :
  consistent s → consistent (add_worker wid p now s).
Proof.
  apply consistent_frame; [done|done|]. intros i l. by apply holds_dict_set.
Qed.

Lemma consistent_recover wid now s :
  consistent s → consistent (_recover_worker wid now s).
Proof.
  unfold _recover_worker. destruct (dict_index wid (workers s)) as [i0|]; [|done].
  apply consistent_frame; [done|done|]. intros i l.
  by apply holds_update_worker_keep.
Qed.

Lemma consistent_generator fire d now s :
  consistent s → consistent (_job_generator_tick fire d now s).
Proof.
  intros Hs. unfold _job_generator_tick, _job_generator_emit.
  destruct fire; [|done].
  destruct (random_choice (draw_type d) job_types) as [[jt ranges]|]; [|done].
  destruct (random_choice (draw_priority d) priorities) as [prio|]; [|done].
  eapply consistent_allocate; [exact Hs|reflexivity|reflexivity|done|..]; done.
Qed.

Lemma consistent_scheduler r now s :
  consistent s → consistent (_job_scheduler_tick r now s).
Proof.
  intros Hs. destruct (job_queue s) as [|l0 q] eqn:Hqueue.
  { by rewrite _job_scheduler_tick_empty. }
  assert (Hq : job_queue s ≠ []) by (by rewrite Hqueue).
  clear Hqueue. destruct (available_workers s) as [|first others] eqn:Hav.
  { rewrite _job_scheduler_tick_no_worker by done.
    revert Hs. apply consistent_frame; [done| |done]. apply sort_desc_perm. }
  assert (Hav' : available_workers s ≠ []) by (by rewrite Hav).
  destruct (_job_scheduler_tick_dispatch r now s Hq Hav')
    as (job & rest & i & key & worker & Hsort & Hi & Hw & ->).
  assert (Hperm : job_queue s ≡ₚ job :: rest).
  { rewrite <- Hsort. symmetry. apply sort_desc_perm. }
  destruct (live_allocated s job Hs) as [j Hj].
  { left. rewrite Hperm. by left. }
  eapply (consistent_assign s _ i job j (job_assigned now worker j));
    [done|done|done|by apply alter_as_insert| |done|done|done].
  intros i' l' Hh. apply holds_update_worker_inv in Hh as [Hh|[-> Hh]]; [by right|].
  left. split; [done|]. destruct Hh as (key' & w & _ & Hjob).
  simpl in Hjob. congruence.
Qed.

Lemma job_ok_completed now v job :
  job_ok job → JobTypes.retry_count job ≤ JobTypes.max_retries job →
  job_ok (job_completed now v job).
Proof. intros [Hb _ _ _] Hle. split; simpl; intros; try done; lia. Qed.

Lemma job_ok_failed now r job :
  job_ok job → job_ok (job_failed now r job).
Proof. intros [Hb _ _ _]. split; simpl; intros; try done; by left. Qed.

Lemma job_ok_reset job :
  JobTypes.retry_count job + 1 ≤ JobTypes.max_retries job →
  job_ok (failure_reset job).
Proof. intros Hle. split; simpl; intros; try done; lia. Qed.

Lemma job_ok_exhausted job :
  JobTypes.retry_count job ≤ JobTypes.max_retries job →
  JobTypes.max_retries job < JobTypes.retry_count job + 1 →
  job_ok (failure_exhausted (failure_reset job)).
Proof. intros Hle Hlt. split; simpl; intros; try done; try lia; by right. Qed.

Lemma consistent_executor_step {World : Type}
    (reg : JobTypes.JobExecutorRegistry World) now
    (sw : AutonomousClusterSimulator * World) i :
  consistent sw.1 → consistent (_job_executor_step reg now sw i).1.
Proof.
  destruct sw as [s w]. simpl. intros Hs.
  destruct (workers s !! i) as [[key worker]|] eqn:Hi; [|done].
  destruct (current_job worker) as [l|] eqn:Hl; [|done].
  destruct (store s !! l) as [job|] eqn:Hjob; [|done].
  case_bool_decide as Hrunning; [|done].
  destruct (JobTypes.execute_job reg job w) as [r w'].
  assert (Hh : holds s i l) by (by exists key, worker).
  assert (Hleft : JobTypes.retry_count job ≤ JobTypes.max_retries job).
  { apply (live_retries_left s l); [done|right; eauto|done]. }
  pose proof (jobs_ok s Hs l job Hjob) as Hok.
  assert (Hclear : ∀ s0 i' l',
    holds (update_worker i worker_freed s0) i' l' → i' ≠ i ∧ holds s0 i' l').
  { intros s0 i' l'. by apply holds_update_worker_clear. }
  destruct r as [v|m|jt]; cbn [fst].
  - eapply (consistent_release s _ i l job (job_completed now v job) false);
      [done|done|done|by apply alter_as_insert|done|intros i' l' Hh'; exact (Hclear s i' l' Hh')| |done].
    by apply job_ok_completed.
  - eapply (consistent_release s _ i l job
              (job_failed now (JobTypes.ExecRaised m) job) false);
      [done|done|done|by apply alter_as_insert|done|intros i' l' Hh'; exact (Hclear s i' l' Hh')| |done].
    by apply job_ok_failed.
  - eapply (consistent_release s _ i l job
              (job_failed now (JobTypes.NoExecutorFound jt) job) false);
      [done|done|done|by apply alter_as_insert|done|intros i' l' Hh'; exact (Hclear s i' l' Hh')| |done].
    by apply job_ok_failed.
Qed.

Lemma consistent_foldl {A : Type}
    (step : AutonomousClusterSimulator → A → AutonomousClusterSimulator)
    (xs : list A) s :
  (∀ s0 x, consistent s0 → consistent (step s0 x)) →
  consistent s → consistent (foldl step s xs).
Proof.
  intros Hstep. revert s. induction xs as [|x xs IH]; intros s Hs; simpl; [done|].
  apply IH. by apply Hstep.
Qed.

Lemma consistent_executor {World : Type}
    (reg : JobTypes.JobExecutorRegistry World) now (w : World) s :
  consistent s → consistent (_job_executor_tick reg now w s).1.
Proof.
  intros Hs. unfold _job_executor_tick.
  generalize (seq 0 (length (workers s))). intros xs.
  change s with (s, w).1 in Hs. revert Hs. generalize (s, w).
  induction xs as [|x xs IH]; intros sw Hsw; simpl; [done|].
  apply IH. by apply consistent_executor_step.
Qed.

Lemma consistent_failure wid s s' :
  _simulate_worker_failure wid s = Some s' → consistent s → consistent s'.
Proof.
  unfold _simulate_worker_failure. intros Hfail Hs.
  destruct (dict_index wid (workers s)) as [i|]; [|done]. simpl in Hfail.
  destruct (workers s !! i) as [[key worker]|] eqn:Hi; [|done]. simpl in Hfail.
  injection Hfail as <-.
  set (s1 := update_stats _ (update_worker i (set_wstatus "failed") s)).
  assert (Hs1 : consistent s1).
  { revert Hs. apply consistent_frame; [done|done|]. intros i' l'.
    by apply holds_update_worker_keep. }
  destruct (current_job worker) as [l|] eqn:Hl; [|done].
  assert (Hh : holds s1 i l).
  { exists key, (set_wstatus "failed" worker). split; [|done].
    apply (workers_update_worker_eq s i _ key worker Hi). }
  destruct (live_allocated s1 l Hs1) as [job Hjob]; [right; eauto|].
  assert (Hleft : JobTypes.retry_count job ≤ JobTypes.max_retries job).
  { apply (live_retries_left s1 l); [done|right; eauto|done]. }
  assert (Hclear : ∀ s0 i' l',
    holds (update_worker i (set_current_job None) s0) i' l' → i' ≠ i ∧ holds s0 i' l').
  { intros s0 i' l'. by apply holds_update_worker_clear. }
  destruct (Z.le_gt_cases (JobTypes.retry_count job + 1) (JobTypes.max_retries job))
    as [Hle|Hgt].
  - rewrite (requeue_or_fail_requeue s1 l job Hjob Hle).
    eapply (consistent_release s1 _ i l job (failure_reset job) true);
      [done|done|done|by apply alter_as_insert|done|intros i' l' Hh'; exact (Hclear s1 i' l' Hh')| |done].
    by apply job_ok_reset.
  - rewrite (requeue_or_fail_exhausted s1 l job Hjob Hgt).
    eapply (consistent_release s1 _ i l job
              (failure_exhausted (failure_reset job)) false);
      [done|done|done| |done|intros i' l' Hh'; exact (Hclear s1 i' l' Hh')| |done].
    + sim_simpl. rewrite list_alter_alter_eq.
      exact (alter_as_insert (failure_exhausted ∘ failure_reset) _ l job Hjob).
    + by apply job_ok_exhausted.
Qed.

Lemma consistent_failure_default wid s :
  consistent s → consistent (default s (_simulate_worker_failure wid s)).
Proof.
  intros Hs. destruct (_simulate_worker_failure wid s) as [s'|] eqn:Hfail; [|done].
  by eapply consistent_failure.
Qed.

Lemma consistent_fault_injector fires s :
  consistent s → consistent (_fault_injector_tick fires s).
Proof.
  apply consistent_foldl. intros s0 i Hs0. unfold _fault_injector_step.
  destruct (workers s0 !! i) as [[wid worker]|]; [|done].
  destruct (String.eqb (status worker) "online" && fires i); [|done].
  by apply consistent_failure_default.
Qed.

Lemma consistent_worker_monitor fires now s :
  consistent s → consistent (_worker_monitor_tick fires now s).
Proof.
  apply consistent_foldl. intros s0 i Hs0. unfold _worker_monitor_step.
  destruct (workers s0 !! i) as [[wid worker]|]; [|done].
  destruct (String.eqb (status worker) "online"); [|done].
  destruct (fires i); [by apply consistent_failure_default|].
  revert Hs0. apply consistent_frame; [done|done|]. intros i' l'.
  by apply holds_update_worker_keep.
Qed.

Lemma consistent_update_job_rate float_of_str request_json s :
  consistent s → consistent (update_job_rate float_of_str request_json s).2.
Proof.
  intros Hs. unfold update_job_rate.
  destruct request_json as [data|e]; [|done].
  destruct (get_rate data) as [v|e]; [|done].
  destruct (py_float float_of_str v) as [f|e]; [|done].
  revert Hs. by apply consistent_frame.
Qed.

Lemma consistent_apply_event s ev :
  consistent s → consistent (apply_event s ev).
Proof.
  destruct ev; simpl.
  - apply consistent_add_worker.
  - apply consistent_generator.
  - apply consistent_scheduler.
  - apply consistent_executor.
  - apply consistent_fault_injector.
  - apply consistent_worker_monitor.
  - apply consistent_failure_default.
  - apply consistent_recover.
  - apply consistent_update_job_rate.
Qed.

Lemma consistent_run events s :
  consistent s → consistent (run events s).
Proof. apply consistent_foldl, consistent_apply_event. Qed.

Lemma consistent_reachable s : reachable s → consistent s.
Proof. intros (now & events & ->). apply consistent_run, consistent_init. Qed.
End ConsistencyEvents.

(** * The claims *)

(** ** Executor registry *)

(** C9. The registry resolves a job by a linear scan in registration order:
    [get_executor] returns the first executor whose [can_execute] accepts the
    job (every executor before it refuses), and [None] exactly when all
    refuse.  The default registrations are, in order, sleep, compute, matrix
    and fault_injection, each accepting by exact equality of [job_type].
    Hence [execute_job] on the default registry raises the no-executor error
    if and only if the job's type is none of those four names. *)
Theorem registry_first_match_and_no_executor {World : Type}
    (bodies : JobTypes.ExecutorBodies World)
    (reg : JobTypes.JobExecutorRegistry World) (job : JobTypes.Job) (w : World) :
  (∀ e, JobTypes.get_executor reg job = Some e ↔
        ∃ before after,
          reg = before ++ e :: after ∧
          JobTypes.any_can_execute e job = true ∧
          Forall (λ e', JobTypes.any_can_execute e' job = false) before) ∧
  (JobTypes.get_executor reg job = None ↔
   Forall (λ e, JobTypes.any_can_execute e job = false) reg) ∧
  map (λ e, JobTypes.any_can_execute e job) (JobTypes.job_executor_registry bodies) =
    [ String.eqb (JobTypes.job_type job) "sleep";
      String.eqb (JobTypes.job_type job) "compute";
      String.eqb (JobTypes.job_type job) "matrix";
      String.eqb (JobTypes.job_type job) "fault_injection" ] ∧
  ((∃ jt, (JobTypes.execute_job (JobTypes.job_executor_registry bodies) job w).1
          = JobTypes.NoExecutorFound jt) ↔
   JobTypes.job_type job ∉ ["sleep"; "compute"; "matrix"; "fault_injection"]) ∧
  (JobTypes.execute_job (JobTypes.job_executor_registry bodies) job w
     = (JobTypes.NoExecutorFound (JobTypes.job_type job), w) ↔
   JobTypes.job_type job ∉ ["sleep"; "compute"; "matrix"; "fault_injection"]).
Proof.
  split; [intros e; apply get_executor_some|].
  split; [apply get_executor_none|].
  split; [apply default_registry_can_execute|].
  rewrite <- (default_registry_none bodies). unfold JobTypes.execute_job.
  destruct (JobTypes.get_executor _ job) as [e|] eqn:Hget.
  - destruct (JobTypes.any_execute e job w) as [[v|m] w'] eqn:Hrun; simpl.
    all: split; (split; [|done]); [intros [jt ?]|]; done.
  - simpl. split; (split; [done|intros _]); [by eexists|done].
Qed.

(** ** Rate updates over HTTP *)

(** C8, counterexample.  Two numeric rates that are not clamped into
    [0.1, 50.0] with [success] true: the integer 2^1024, for which [float]
    raises OverflowError, is answered with HTTP 400 and changes nothing; the
    float NaN passes both comparisons and is applied as it is, with HTTP 200
    and a [new_rate] that does not lie between 0.1 and 50.0. *)
Lemma numeric_rate_rejected_or_applied_unclamped :
  let post v := update_job_rate (λ _, None) (Ok (PyDict [("rate", v)])) (init 0) in
  http_status (post (PyInt (2 ^ 1024))).1 = 400 ∧
  success (post (PyInt (2 ^ 1024))).1 = false ∧
  new_rate (post (PyInt (2 ^ 1024))).1 = None ∧
  error (post (PyInt (2 ^ 1024))).1 = Some OverflowError ∧
  (post (PyInt (2 ^ 1024))).2 = init 0 ∧
  http_status (post (PyFloatV FNan)).1 = 200 ∧
  success (post (PyFloatV FNan)).1 = true ∧
  new_rate (post (PyFloatV FNan)).1 = Some FNan ∧
  job_generation_rate (post (PyFloatV FNan)).2 = FNan ∧
  float_le float_0_1 FNan = false ∧ float_le FNan float_50_0 = false.
Proof. cbv zeta. repeat split; vm_compute; reflexivity. Qed.

(** C8, as the code has it.  A POST to /api/update-job-rate whose body is an
    object with a [rate]: when [float(rate)] succeeds the answer is HTTP 200
    with [success] true and [new_rate] the clamped rate, which is also the
    generation rate from then on; the clamped rate of a number (not NaN) lies
    in [0.1, 50.0], is 0.1 below the interval, 50.0 above it and the rate
    itself inside it.  In particular 999 gives 50.0 and 0 gives 0.1.  When
    [float(rate)] raises, as for the string "abc" and for an integer beyond
    the range of a float, the answer is HTTP 400 with [success] false and
    the generation rate is left as it was. *)
Theorem update_job_rate_clamps_or_rejects
    (float_of_str : string → option PyFloat) (s : AutonomousClusterSimulator)
    (d : list (string * PyVal)) (v : PyVal) :
  dict_get "rate" d = Some v →
  let '(resp, s') := update_job_rate float_of_str (Ok (PyDict d)) s in
  match py_float float_of_str v with
  | Ok f =>
      resp = mkResponse 200 true (Some (clamp_rate f)) (Some (clamp_rate f)) None ∧
      s' = set_job_generation_rate (clamp_rate f) s ∧
      job_generation_rate s' = clamp_rate f ∧
      (is_nan f = false →
       float_le float_0_1 (clamp_rate f) = true ∧
       float_le (clamp_rate f) float_50_0 = true) ∧
      (float_lt f float_0_1 = true → clamp_rate f = float_0_1) ∧
      (float_gt f float_50_0 = true → clamp_rate f = float_50_0) ∧
      (float_le float_0_1 f = true → float_le f float_50_0 = true → clamp_rate f = f)
  | Raise e =>
      resp = mkResponse 400 false None None (Some e) ∧ s' = s
  end ∧
  (v = PyInt 999 → http_status resp = 200 ∧ new_rate resp = Some float_50_0) ∧
  (v = PyInt 0 → http_status resp = 200 ∧ new_rate resp = Some float_0_1) ∧
  (v = PyStr "abc" → float_of_str "abc" = None →
   http_status resp = 400 ∧ success resp = false ∧
   job_generation_rate s' = job_generation_rate s) ∧
  (∀ n, v = PyInt n → 2 ^ 1024 ≤ Z.abs (round_to_binary64 n) →
        http_status resp = 400 ∧ success resp = false ∧
        error resp = Some OverflowError ∧ s' = s) ∧
  (∀ n, v = PyInt n → Z.abs (round_to_binary64 n) < 2 ^ 1024 →
        http_status resp = 200 ∧ success resp = true ∧
        new_rate resp = Some (clamp_rate (FNum (inject_Z (round_to_binary64 n)))) ∧
        float_le float_0_1 (clamp_rate (FNum (inject_Z (round_to_binary64 n)))) = true ∧
        float_le (clamp_rate (FNum (inject_Z (round_to_binary64 n)))) float_50_0 = true).
Proof.
  intros Hrate. unfold update_job_rate, get_rate. rewrite Hrate. simpl.
  assert (Hint : ∀ n, py_float float_of_str (PyInt n)
                      = if 2 ^ 1024 <=? Z.abs (round_to_binary64 n)
                        then Raise OverflowError
                        else Ok (FNum (inject_Z (round_to_binary64 n)))) by done.
  destruct (py_float float_of_str v) as [f|e] eqn:Hpf; simpl.
  - split.
    { split; [done|]. split; [done|]. split; [done|].
      split; [apply clamp_rate_range|].
      split; [apply clamp_rate_below|].
      split; [apply clamp_rate_above|apply clamp_rate_inside]. }
    split; [|split; [|split; [|split]]].
    + intros ->. vm_compute in Hpf. by injection Hpf as <-.
    + intros ->. vm_compute in Hpf. by injection Hpf as <-.
    + intros -> Habc. simpl in Hpf. by rewrite Habc in Hpf.
    + intros n -> Hbig. rewrite Hint in Hpf.
      destruct (Z.leb_spec (2 ^ 1024) (Z.abs (round_to_binary64 n))); [done|lia].
    + intros n -> Hsmall. rewrite Hint in Hpf.
      destruct (Z.leb_spec (2 ^ 1024) (Z.abs (round_to_binary64 n))); [lia|].
      injection Hpf as <-. split; [done|]. split; [done|]. split; [done|].
      by apply clamp_rate_range.
  - split; [done|]. split; [|split; [|split; [|split]]].
    + intros ->. by vm_compute in Hpf.
    + intros ->. by vm_compute in Hpf.
    + done.
    + intros n -> Hbig. rewrite Hint in Hpf.
      destruct (Z.leb_spec (2 ^ 1024) (Z.abs (round_to_binary64 n))); [|lia].
      by injection Hpf as <-.
    + intros n -> Hsmall. rewrite Hint in Hpf.
      destruct (Z.leb_spec (2 ^ 1024) (Z.abs (round_to_binary64 n))); [lia|done].
Qed.

Lemma update_job_rate_clamps_or_rejects_witness :
  dict_get "rate" [("rate", PyInt 999)] = Some (PyInt 999) ∧
  (update_job_rate (λ _, None) (Ok (PyDict [("rate", PyInt 999)])) (init 0)).1
    = mkResponse 200 true (Some float_50_0) (Some float_50_0) None.
Proof.
  split; [reflexivity|].
  pose proof (update_job_rate_clamps_or_rejects (λ _, None) (init 0)
                [("rate", PyInt 999)] (PyInt 999) eq_refl) as H.
  destruct (update_job_rate _ _ _) as [resp s'].
  destruct H as [H _]. vm_compute in H. apply H.
Defined.

(** C10. A POST to /api/update-job-rate whose body is an object without the
    key [rate] (the empty object, for one) is accepted: HTTP 200, [success]
    true, and the generation rate becomes the default 2.0. *)
Theorem update_job_rate_missing_rate_defaults
    (float_of_str : string → option PyFloat) (s : AutonomousClusterSimulator)
    (d : list (string * PyVal)) :
  dict_get "rate" d = None →
  let '(resp, s') := update_job_rate float_of_str (Ok (PyDict d)) s in
  http_status resp = 200 ∧ success resp = true ∧ error resp = None ∧
  new_rate resp = Some float_2_0 ∧
  s' = set_job_generation_rate float_2_0 s ∧
  job_generation_rate s' = float_2_0.
Proof.
  intros Hrate. unfold update_job_rate, get_rate. rewrite Hrate. done.
Qed.

Lemma update_job_rate_missing_rate_defaults_witness :
  dict_get "rate" ([] : list (string * PyVal)) = None ∧
  job_generation_rate
    (update_job_rate (λ _, None) (Ok (PyDict []))
       (set_job_generation_rate float_50_0 (init 0))).2 = float_2_0.
Proof.
  split; [reflexivity|].
  pose proof (update_job_rate_missing_rate_defaults (λ _, None)
                (set_job_generation_rate float_50_0 (init 0)) [] eq_refl) as H.
  destruct (update_job_rate _ _ _) as [resp s']. apply H.
Defined.

(** ** Worker failure *)

(** C4. When a worker that holds a job with retry count k fails: if k is
    below [max_retries], exactly one reference to the job is appended to the
    queue and the job has retry count k+1, status PENDING and neither worker
    nor start time, while [failed_jobs] stays; if k equals [max_retries], the
    job becomes FAILED with the message "Max retries exceeded due to worker
    failures", [failed_jobs] goes up by one and the queue is unchanged.  In
    both cases the worker ends failed with no current job. *)
Theorem worker_failure_requeues_or_fails
    (s : AutonomousClusterSimulator) (wid key : string) (i : nat)
    (worker : WorkerInfo) (l : nat) (job : JobTypes.Job) :
  dict_index wid (workers s) = Some i →
  workers s !! i = Some (key, worker) →
  current_job worker = Some l →
  store s !! l = Some job →
  ∃ s',
    _simulate_worker_failure wid s = Some s' ∧
    workers s' !! i = Some (key, set_current_job None (set_wstatus "failed" worker)) ∧
    (JobTypes.retry_count job < JobTypes.max_retries job →
     job_queue s' = job_queue s ++ [l] ∧
     failed_jobs (stats s') = failed_jobs (stats s) ∧
     ∃ job',
       store s' !! l = Some job' ∧
       JobTypes.retry_count job' = JobTypes.retry_count job + 1 ∧
       JobTypes.status job' = JobTypes.PENDING ∧
       JobTypes.worker_id job' = None ∧
       JobTypes.started_at job' = None) ∧
    (JobTypes.retry_count job = JobTypes.max_retries job →
     job_queue s' = job_queue s ∧
     failed_jobs (stats s') = failed_jobs (stats s) + 1 ∧
     ∃ job',
       store s' !! l = Some job' ∧
       JobTypes.status job' = JobTypes.FAILED ∧
       JobTypes.error_message job' =
         Some "Max retries exceeded due to worker failures").
Proof.
  intros Hidx Hw Hcj Hl. unfold _simulate_worker_failure.
  rewrite Hidx. simpl. rewrite Hw. simpl. rewrite Hcj.
  set (s1 := update_stats _ (update_worker i (set_wstatus "failed") s)).
  assert (Hl1 : store s1 !! l = Some job) by done.
  assert (Hw1 : workers s1 !! i = Some (key, set_wstatus "failed" worker)).
  { apply (workers_update_worker_eq s i _ key worker Hw). }
  eexists. split; [done|]. split; [|split].
  - apply workers_update_worker_eq. by rewrite workers_requeue_or_fail.
  - intros Hlt. rewrite (requeue_or_fail_requeue s1 l job Hl1) by lia.
    split; [done|]. split; [done|].
    exists (failure_reset job). split; [|done].
    simpl. by rewrite list_lookup_alter_eq, Hl.
  - intros Heq. rewrite (requeue_or_fail_exhausted s1 l job Hl1) by lia.
    split; [done|]. split; [done|].
    exists (failure_exhausted (failure_reset job)). split; [|done].
    simpl. by rewrite !list_lookup_alter_eq, Hl.
Qed.

Lemma worker_failure_requeues_or_fails_witness :
  ∃ s', _simulate_worker_failure "w1" Scenarios.busy_worker = Some s' ∧
        job_queue s' = job_queue Scenarios.busy_worker ++ [0%nat].
Proof.
  destruct (worker_failure_requeues_or_fails Scenarios.busy_worker "w1" "w1" 0
              (mkWorkerInfo "w1" "busy" (Some 0%nat) 0 (FNum 0) 30) 0
              (JobTypes.mkJob "io-standard-1000" "sleep" JobTypes.NORMAL JobTypes.RUNNING
                 1 (Some 2) None (Some "w1") [("duration", PyInt 1)] None None 0 3)
              eq_refl eq_refl eq_refl eq_refl) as (s' & Hs' & _ & Hrequeue & _).
  exists s'. split; [exact Hs'|]. apply Hrequeue. simpl. lia.
Defined.

(** ** Worker recovery *)

(** C5, counterexample.  A worker fails while idle; running the recovery
    once leaves [worker_recoveries] and [active_workers] at 1, running it
    twice for that one failure leaves both at 2, with a single worker in the
    cluster: the two final states differ. *)
Lemma recovery_twice_counts_twice :
  let once := _recover_worker "w1" 5 Scenarios.failed_worker in
  let twice := _recover_worker "w1" 5 once in
  length (workers Scenarios.failed_worker) = 1%nat ∧
  worker_recoveries (stats once) = 1 ∧ active_workers (stats once) = 1 ∧
  worker_recoveries (stats twice) = 2 ∧ active_workers (stats twice) = 2 ∧
  twice ≠ once.
Proof.
  simpl. repeat split; try reflexivity.
  intros Heq. apply (f_equal (λ s, worker_recoveries (stats s))) in Heq.
  vm_compute in Heq. discriminate.
Qed.

(** C5, as the code has it.  Running the recovery of a known worker twice
    leaves that worker as running it once does: online, with the last call's
    time as heartbeat and the current job it had; every other worker, the
    jobs, the queue and the configuration (running flag, generation rate,
    failure rate, recovery time) are the same as well.  The counters
    [worker_recoveries] and [active_workers] are incremented by every call,
    so they end one higher than after a single recovery.  The other counters
    agree. *)
Theorem recovery_twice_same_worker_counters_bumped
    (s : AutonomousClusterSimulator) (wid : string) (i : nat) (now1 now2 : Z) :
  dict_index wid (workers s) = Some i →
  let once := _recover_worker wid now2 s in
  let twice := _recover_worker wid now2 (_recover_worker wid now1 s) in
  (∃ w,
     workers s !! i = Some (wid, w) ∧
     workers once !! i
       = Some (wid, mkWorkerInfo (worker_id w) "online" (current_job w) now2
                      (failure_probability w) (recovery_time w)) ∧
     workers twice !! i
       = Some (wid, mkWorkerInfo (worker_id w) "online" (current_job w) now2
                      (failure_probability w) (recovery_time w)) ∧
     ∀ j, j ≠ i →
          workers once !! j = workers s !! j ∧ workers twice !! j = workers s !! j) ∧
  workers twice = workers once ∧
  store twice = store once ∧ jobs twice = jobs once ∧
  job_queue twice = job_queue once ∧
  running twice = running once ∧
  job_generation_rate twice = job_generation_rate once ∧
  failure_rate twice = failure_rate once ∧
  sim_recovery_time twice = sim_recovery_time once ∧
  worker_recoveries (stats twice) = worker_recoveries (stats once) + 1 ∧
  active_workers (stats twice) = active_workers (stats once) + 1 ∧
  worker_recoveries (stats once) = worker_recoveries (stats s) + 1 ∧
  active_workers (stats once) = active_workers (stats s) + 1 ∧
  total_jobs (stats twice) = total_jobs (stats once) ∧
  completed_jobs (stats twice) = completed_jobs (stats once) ∧
  failed_jobs (stats twice) = failed_jobs (stats once) ∧
  worker_failures (stats twice) = worker_failures (stats once) ∧
  simulation_start (stats twice) = simulation_start (stats once).
Proof.
  intros Hidx once twice. subst once twice.
  destruct (dict_index_lookup wid (workers s) i Hidx) as [w Hw].
  rewrite !(_recover_worker_known s wid i _ Hidx).
  rewrite (_recover_worker_known _ wid i now2).
  2:{ by rewrite dict_index_update_stats_worker. }
  sim_simpl. split; [|split; [|repeat split; simpl; lia]].
  - exists w. split; [done|]. split; [|split].
    + by rewrite list_lookup_alter_eq, Hw.
    + by rewrite !list_lookup_alter_eq, Hw.
    + intros j Hne. by rewrite !list_lookup_alter_ne.
  - rewrite list_alter_alter_eq. by apply list_alter_ext.
Qed.

Lemma recovery_twice_same_worker_counters_bumped_witness :
  dict_index "w1" (workers Scenarios.failed_worker) = Some 0%nat ∧
  workers (_recover_worker "w1" 7 (_recover_worker "w1" 5 Scenarios.failed_worker))
    = workers (_recover_worker "w1" 7 Scenarios.failed_worker) ∧
  workers (_recover_worker "w1" 7 (_recover_worker "w1" 5 Scenarios.failed_worker))
    = [("w1", mkWorkerInfo "w1" "online" None 7 (FNum 0) 30)].
Proof.
  split; [reflexivity|].
  split; [|vm_compute; reflexivity].
  apply (recovery_twice_same_worker_counters_bumped
           Scenarios.failed_worker "w1" 0 5 7 eq_refl).
Defined.

(** ** Job generation *)

(** An emission allocates one job, queues it, counts it and stores it in
    [jobs] under its id: the count and the size of [jobs] stay equal when the
    id is new, and drift apart when it is already a key. *)
Lemma generator_emit_counts_and_stores (d : GeneratorDraws) (now : Z)
    (s : AutonomousClusterSimulator) :
  let s' := _job_generator_emit d now s in
  ∃ job,
    store s' = store s ++ [job] ∧
    job_queue s' = job_queue s ++ [length (store s)] ∧
    jobs s' = <[JobTypes.job_id job := length (store s)]> (jobs s) ∧
    total_jobs (stats s') = total_jobs (stats s) + 1 ∧
    (jobs s !! JobTypes.job_id job = None →
     size (jobs s') = S (size (jobs s))) ∧
    (is_Some (jobs s !! JobTypes.job_id job) →
     size (jobs s') = size (jobs s)).
Proof.
  unfold _job_generator_emit.
  destruct (random_choice (draw_type d) job_types) as [[jt ranges]|] eqn:Htype.
  2:{ apply lookup_ge_None_1 in Htype. simpl in Htype.
      pose proof (Nat.mod_upper_bound (draw_type d) 4). lia. }
  destruct (random_choice (draw_priority d) priorities) as [prio|] eqn:Hprio.
  2:{ apply lookup_ge_None_1 in Hprio. simpl in Hprio.
      pose proof (Nat.mod_upper_bound (draw_priority d) 4). lia. }
  eexists. split; [reflexivity|]. split; [reflexivity|]. split; [reflexivity|].
  split; [reflexivity|]. sim_simpl. split.
  - apply map_size_insert_None.
  - apply map_size_insert_Some.
Qed.

(** C6, the failing run.  Two emissions whose draws agree produce the same
    job id twice: both jobs are created, queued and counted, but the second
    takes the first one's entry in [jobs], so [total_jobs] is 2 while [jobs]
    has one entry. *)
Theorem generator_emissions_can_collide :
  let s := Scenarios.colliding_emissions in
  total_jobs (stats s) = 2 ∧ size (jobs s) = 1%nat ∧
  map JobTypes.job_id (store s) = ["io-standard-1000"; "io-standard-1000"] ∧
  job_queue s = [0; 1]%nat ∧
  jobs s = {[ "io-standard-1000" := 1%nat ]}.
Proof. cbv zeta. repeat split; vm_compute; reflexivity. Qed.

(** ** Scheduling *)

(** C1, counterexample.  Two jobs are queued and two workers are available;
    one tick assigns one job, not two: afterwards the queue still has a head
    and a worker is still available. *)
Lemma scheduler_tick_leaves_job_and_worker :
  let s := Scenarios.two_jobs_two_workers in
  let s' := _job_scheduler_tick 0 3 s in
  length (job_queue s) = 2%nat ∧ length (available_workers s) = 2%nat ∧
  job_queue s' = [1%nat] ∧ length (available_workers s') = 1%nat ∧
  (length (job_queue s) - length (job_queue s'))%nat
    ≠ Nat.min (length (job_queue s)) (length (available_workers s)).
Proof. vm_compute. repeat split; try reflexivity. discriminate. Qed.

(** C1, as the code has it.  A scheduler tick with a non-empty queue sorts
    the queue and, when a worker is available, makes exactly one assignment:
    the head of the sorted queue leaves the queue and goes to one available
    worker, and nothing else changes.  The assignment sets
    [worker.current_job] to the job, [worker.status] to busy, [job.status] to
    RUNNING, [job.started_at] to now and [job.worker_id] to the worker's id.
    With no available worker the tick only sorts the queue. *)
Theorem scheduler_tick_assigns_one_job
    (r : nat) (now : Z) (s : AutonomousClusterSimulator) :
  job_queue s ≠ [] →
  let s' := _job_scheduler_tick r now s in
  let sorted := sort_desc (priority_key (store s)) (job_queue s) in
  (available_workers s = [] → s' = with_job_queue sorted s) ∧
  (available_workers s ≠ [] →
   ∃ job rest i key worker,
     sorted = job :: rest ∧
     workers s !! i = Some (key, worker) ∧ is_available worker = true ∧
     job_queue s' = rest ∧
     length (job_queue s) = S (length (job_queue s')) ∧
     workers s' = alter (λ kv, (kv.1, worker_assigned job kv.2)) i (workers s) ∧
     workers s' !! i
       = Some (key, mkWorkerInfo (worker_id worker) "busy" (Some job)
                      (last_heartbeat worker) (failure_probability worker)
                      (recovery_time worker)) ∧
     store s' = alter (job_assigned now worker) job (store s) ∧
     (∀ j, store s !! job = Some j →
           ∃ j', store s' !! job = Some j' ∧
                 JobTypes.status j' = JobTypes.RUNNING ∧
                 JobTypes.started_at j' = Some now ∧
                 JobTypes.worker_id j' = Some (worker_id worker)) ∧
     jobs s' = jobs s ∧ stats s' = stats s).
Proof.
  intros Hq s' sorted. split.
  - intros Hav. by apply _job_scheduler_tick_no_worker.
  - intros Hav.
    destruct (_job_scheduler_tick_dispatch r now s Hq Hav)
      as (job & rest & i & key & worker & Hsort & Hi & Hw & Htick).
    exists job, rest, i, key, worker. subst s'. rewrite Htick. sim_simpl.
    split; [done|]. split; [done|]. split; [done|]. split; [done|].
    split.
    { rewrite <- (sort_desc_length (priority_key (store s)) (job_queue s)).
      by rewrite Hsort. }
    split; [done|].
    split; [by rewrite list_lookup_alter_eq, Hi|].
    split; [done|].
    split; [|done].
    intros j Hj. exists (job_assigned now worker j).
    by rewrite list_lookup_alter_eq, Hj.
Qed.

Lemma scheduler_tick_assigns_one_job_witness :
  job_queue Scenarios.two_jobs_two_workers ≠ [] ∧
  ∃ job rest,
    sort_desc (priority_key (store Scenarios.two_jobs_two_workers))
      (job_queue Scenarios.two_jobs_two_workers) = job :: rest ∧
    job_queue (_job_scheduler_tick 0 3 Scenarios.two_jobs_two_workers) = rest.
Proof.
  assert (Hq : job_queue Scenarios.two_jobs_two_workers ≠ []) by discriminate.
  split; [exact Hq|].
  destruct (scheduler_tick_assigns_one_job 0 3 Scenarios.two_jobs_two_workers Hq)
    as [_ Hdispatch].
  destruct Hdispatch as (job & rest & i & key & worker & Hsort & _ & _ & Hrest & _).
  { discriminate. }
  by exists job, rest.
Defined.



(** ** Retry accounting and terminal jobs *)

(** C2, counterexample.  A job is dispatched, its worker fails and recovers
    three times, and the job runs again with [retry_count] 3, its
    [max_retries]; the next failure of the worker leaves the job FAILED with
    [retry_count] 4: the bound is exceeded in a state the simulator reaches. *)
Lemma retry_count_exceeds_max_retries :
  reachable Scenarios.retries_used_up ∧ reachable Scenarios.retries_exceeded ∧
  (∃ job, store Scenarios.retries_used_up !! 0%nat = Some job ∧
          holds Scenarios.retries_used_up 0 0 ∧
          JobTypes.retry_count job = 3 ∧ JobTypes.max_retries job = 3) ∧
  _simulate_worker_failure "w1" Scenarios.retries_used_up
    = Some Scenarios.retries_exceeded ∧
  (∃ job, store Scenarios.retries_exceeded !! 0%nat = Some job ∧
          JobTypes.status job = JobTypes.FAILED ∧
          JobTypes.retry_count job = 4 ∧ JobTypes.max_retries job = 3 ∧
          ¬ JobTypes.retry_count job ≤ JobTypes.max_retries job).
Proof.
  split; [by exists 0, Scenarios.retries_used_up_events|].
  split; [by exists 0, (Scenarios.retries_used_up_events ++ [Failure "w1"])|].
  split.
  { eexists. split; [vm_compute; reflexivity|]. split; [|done].
    eexists _, _. split; vm_compute; reflexivity. }
  split; [vm_compute; reflexivity|].
  eexists. split; [vm_compute; reflexivity|]. simpl. repeat split; lia.
Qed.

(** C2, as the code has it.  In every state the simulator reaches, every job
    has [retry_count ≤ max_retries + 1]; a job that the queue or a worker
    refers to has [retry_count ≤ max_retries], and a job above the limit is
    FAILED.  When a worker fails while it holds a job whose [retry_count]
    equals [max_retries], the job is moved to FAILED with [retry_count] one
    above [max_retries] and is not queued. *)
Theorem retry_count_at_most_one_above_limit
    (s : AutonomousClusterSimulator) (l : nat) (job : JobTypes.Job) :
  reachable s →
  store s !! l = Some job →
  JobTypes.retry_count job ≤ JobTypes.max_retries job + 1 ∧
  (live s l → JobTypes.retry_count job ≤ JobTypes.max_retries job) ∧
  (JobTypes.max_retries job < JobTypes.retry_count job →
   JobTypes.status job = JobTypes.FAILED) ∧
  (∀ wid i key worker,
     dict_index wid (workers s) = Some i →
     workers s !! i = Some (key, worker) →
     current_job worker = Some l →
     JobTypes.retry_count job = JobTypes.max_retries job →
     ∃ s' job',
       _simulate_worker_failure wid s = Some s' ∧
       store s' !! l = Some job' ∧
       JobTypes.status job' = JobTypes.FAILED ∧
       JobTypes.retry_count job' = JobTypes.max_retries job' + 1 ∧
       ¬ live s' l).
Proof.
  intros Hreach Hl. pose proof (consistent_reachable s Hreach) as Hs.
  pose proof (jobs_ok s Hs l job Hl) as Hok.
  split; [apply Hok|]. split; [intros Hlive; by eapply live_retries_left|].
  split; [apply Hok|].
  intros wid i key worker Hidx Hi Hjob Heq.
  destruct (_simulate_worker_failure wid s) as [s'|] eqn:Hfail.
  2:{ unfold _simulate_worker_failure in Hfail. rewrite Hidx in Hfail. simpl in Hfail.
      by rewrite Hi in Hfail. }
  pose proof (consistent_failure wid s s' Hfail Hs) as Hs'.
  unfold _simulate_worker_failure in Hfail. rewrite Hidx in Hfail. simpl in Hfail.
  rewrite Hi in Hfail. simpl in Hfail. rewrite Hjob in Hfail.
  injection Hfail as <-.
  rewrite requeue_or_fail_exhausted with (job := job) in * by (done || lia).
  eexists. exists (failure_exhausted (failure_reset job)).
  split; [done|].
  assert (Hl' : alter failure_exhausted l (alter failure_reset l (store s)) !! l
                = Some (failure_exhausted (failure_reset job))).
  { by rewrite !list_lookup_alter_eq, Hl. }
  split; [exact Hl'|]. split; [done|]. split; [simpl; lia|].
  intros Hlive.
  pose proof (live_retries_left _ l _ Hs' Hlive Hl') as Hle. simpl in Hle. lia.
Qed.

Lemma retry_count_at_most_one_above_limit_witness :
  reachable Scenarios.retries_exceeded ∧
  ∃ job, store Scenarios.retries_exceeded !! 0%nat = Some job ∧
         JobTypes.retry_count job ≤ JobTypes.max_retries job + 1.
Proof.
  assert (Hreach : reachable Scenarios.retries_exceeded).
  { by exists 0, (Scenarios.retries_used_up_events ++ [Failure "w1"]). }
  split; [exact Hreach|]. eexists. split; [vm_compute; reflexivity|].
  eapply (retry_count_at_most_one_above_limit Scenarios.retries_exceeded 0);
    [exact Hreach|vm_compute; reflexivity].
Defined.

(** C3, the failing run.  A worker holds a running job whose retries are
    used up; when the worker fails, the job becomes FAILED and no worker (and
    not the queue) refers to it any more, but its [completed_at] is still
    unset: the failure handler, unlike the executor runner, does not assign
    it. *)
Theorem retry_exhaustion_leaves_completed_at_unset :
  let s := Scenarios.retries_used_up in
  reachable s ∧
  ∃ s' job,
    _simulate_worker_failure "w1" s = Some s' ∧
    store s' !! 0%nat = Some job ∧
    JobTypes.status job = JobTypes.FAILED ∧
    JobTypes.completed_at job = None ∧
    ¬ live s' 0.
Proof.
  split; [by exists 0, Scenarios.retries_used_up_events|].
  eexists _, _. split; [vm_compute; reflexivity|]. split; [vm_compute; reflexivity|].
  split; [done|]. split; [done|].
  intros [Hq|(i & key & w & Hlook & Hjob)].
  - vm_compute in Hq. by apply elem_of_nil in Hq.
  - vm_compute in Hlook. destruct i as [|i]; simpl in Hlook; [|done].
    injection Hlook as <- <-. done.
Qed.

(** What does hold of terminal jobs in every state the simulator reaches:
    neither the queue nor a worker refers to them, a COMPLETED job has its
    completion time, and a FAILED job has it unless it ran out of retries. *)
Theorem terminal_jobs_unreferenced
    (s : AutonomousClusterSimulator) (l : nat) (job : JobTypes.Job) :
  reachable s →
  store s !! l = Some job →
  JobTypes.status job = JobTypes.COMPLETED ∨ JobTypes.status job = JobTypes.FAILED →
  ¬ live s l ∧
  (JobTypes.status job = JobTypes.COMPLETED → is_Some (JobTypes.completed_at job)) ∧
  (JobTypes.status job = JobTypes.FAILED →
   is_Some (JobTypes.completed_at job) ∨
   JobTypes.retry_count job = JobTypes.max_retries job + 1).
Proof.
  intros Hreach Hl Hterminal. pose proof (consistent_reachable s Hreach) as Hs.
  pose proof (jobs_ok s Hs l job Hl) as Hok.
  split; [|split].
  - intros [Hq|[i Hi]].
    + destruct (queued_pending s Hs l job Hq Hl) as [Hp _].
      destruct Hterminal; congruence.
    + pose proof (held_running s Hs i l job Hi Hl).
      destruct Hterminal; congruence.
  - apply Hok.
  - intros Hfailed.
    destruct (failed_has_time_or_exhausted job Hok Hfailed) as [?|Hgt]; [by left|].
    right. pose proof (retry_bounded job Hok). lia.
Qed.

(** * Bookkeeping invariants *)

(** ** Counting jobs by status *)
Section CountingFacts.
Implicit Types (st : JobTypes.JobStatus) (xs : list JobTypes.Job).

Lemma status_indicator_bounds st job : 0 ≤ status_indicator st job ≤ 1.
Proof. unfold status_indicator. case_bool_decide; lia. Qed.

Lemma status_indicator_eq st job :
  JobTypes.status job = st → status_indicator st job = 1.
Proof. intros Hst. unfold status_indicator. by rewrite bool_decide_eq_true_2. Qed.

Lemma status_indicator_ne st job :
  JobTypes.status job ≠ st → status_indicator st job = 0.
Proof. intros Hst. unfold status_indicator. by rewrite bool_decide_eq_false_2. Qed.

Lemma count_status_app st xs ys :
  count_status st (xs ++ ys) = count_status st xs + count_status st ys.
Proof. induction xs as [|x xs IH]; simpl; [done|]. rewrite IH. lia. Qed.

Lemma count_status_insert st xs (l : nat) x y :
  xs !! l = Some x →
  count_status st (<[l := y]> xs)
    = count_status st xs - status_indicator st x + status_indicator st y.
Proof.
  revert l. induction xs as [|x0 xs IH]; intros [|l] Hl; simplify_eq/=; [lia|].
  rewrite (IH l Hl). lia.
Qed.

Lemma count_status_terminal_le xs :
  count_status JobTypes.COMPLETED xs + count_status JobTypes.FAILED xs
    ≤ Z.of_nat (length xs).
Proof.
  induction xs as [|x xs IH]; simpl; [done|].
  unfold status_indicator. repeat case_bool_decide; try congruence; lia.
Qed.

Lemma count_status_nonneg st xs : 0 ≤ count_status st xs.
Proof.
  induction xs as [|x xs IH]; simpl; [done|].
  pose proof (status_indicator_bounds st x). lia.
Qed.
End CountingFacts.

(** ** The counters follow the store *)
Section CountedSteps.
Implicit Types (s : AutonomousClusterSimulator) (l i : nat) (job : JobTypes.Job).

Lemma counted_init now : counted (init now).
Proof. split; done. Qed.

Lemma counted_same s s' :
  store s' = store s → jobs s' = jobs s →
  total_jobs (stats s') = total_jobs (stats s) →
  completed_jobs (stats s') = completed_jobs (stats s) →
  failed_jobs (stats s') = failed_jobs (stats s) →
  counted s → counted s'.
Proof.
  intros Hstore Hjobs Ht Hc Hf [H1 H2 H3 H4 H5 H6].
  split; rewrite ?Hstore, ?Hjobs, ?Ht, ?Hc, ?Hf; done.
Qed.

Lemma counted_job_update s s' l job job' :
  counted s → store s !! l = Some job →
  store s' = <[l := job']> (store s) → jobs s' = jobs s →
  JobTypes.job_id job' = JobTypes.job_id job →
  job_timed job' →
  total_jobs (stats s') = total_jobs (stats s) →
  completed_jobs (stats s')
    = completed_jobs (stats s) + status_indicator JobTypes.COMPLETED job'
      - status_indicator JobTypes.COMPLETED job →
  failed_jobs (stats s')
    = failed_jobs (stats s) + status_indicator JobTypes.FAILED job'
      - status_indicator JobTypes.FAILED job →
  counted s'.
Proof.
  intros [H1 H2 H3 H4 H5 H6] Hl Hstore Hjobs Hid Htimed Ht Hc Hf. split.
  - by rewrite Ht, Hstore, length_insert.
  - rewrite Hc, Hstore, (count_status_insert _ _ _ _ _ Hl), H2. lia.
  - rewrite Hf, Hstore, (count_status_insert _ _ _ _ _ Hl), H3. lia.
  - intros id l' Hid'. rewrite Hjobs in Hid'.
    destruct (H4 id l' Hid') as (j & Hj & Hjid). rewrite Hstore.
    destruct (decide (l = l')) as [<-|Hne].
    + exists job'. rewrite list_lookup_insert_eq by (by eapply lookup_lt_Some).
      split; [done|]. congruence.
    + exists j. by rewrite list_lookup_insert_ne.
  - by rewrite Hjobs, Hstore, length_insert.
  - intros l' j. rewrite Hstore.
    intros [(<- & <- & _)|[_ Hj]]%list_lookup_insert_Some; eauto.
Qed.

Lemma counted_allocate s s' job :
  counted s →
  store s' = store s ++ [job] →
  jobs s' = <[JobTypes.job_id job := length (store s)]> (jobs s) →
  JobTypes.status job = JobTypes.PENDING →
  total_jobs (stats s') = total_jobs (stats s) + 1 →
  completed_jobs (stats s') = completed_jobs (stats s) →
  failed_jobs (stats s') = failed_jobs (stats s) →
  counted s'.
Proof.
  intros [H1 H2 H3 H4 H5 H6] Hstore Hjobs Hst Ht Hc Hf.
  assert (Hlen : length (store s') = S (length (store s))).
  { rewrite Hstore, length_app. simpl. lia. }
  split.
  - rewrite Ht, Hlen, H1. lia.
  - rewrite Hc, Hstore, count_status_app, H2. simpl.
    rewrite status_indicator_ne by congruence. lia.
  - rewrite Hf, Hstore, count_status_app, H3. simpl.
    rewrite status_indicator_ne by congruence. lia.
  - intros id l. rewrite Hjobs, Hstore.
    intros [[<- <-]|[_ Hl]]%lookup_insert_Some.
    + exists job. split; [|done]. by rewrite lookup_app_r, Nat.sub_diag.
    + destruct (H4 id l Hl) as (j & Hj & Hid). exists j. split; [|done].
      by apply lookup_app_l_Some.
  - rewrite Hjobs, Hlen, map_size_insert.
    destruct (jobs s !! JobTypes.job_id job); unfold id; lia.
  - intros l j. rewrite Hstore.
    intros [Hj|[_ Hj]]%lookup_app_Some; [eauto|].
    apply list_lookup_singleton_Some in Hj as [_ <-].
    split; intros Hs; congruence.
Qed.
End CountedSteps.

Section CountedEvents.
Implicit Types (s : AutonomousClusterSimulator) (l i : nat) (job : JobTypes.Job).

Lemma counted_add_worker wid p now s :
  counted s → counted (add_worker wid p now s).
Proof. by apply counted_same. Qed.

Lemma counted_recover wid now s :
  counted s → counted (_recover_worker wid now s).
Proof.
  unfold _recover_worker. destruct (dict_index wid (workers s)); [|done].
  by apply counted_same.
Qed.

Lemma counted_generator fire d now s :
  counted s → counted (_job_generator_tick fire d now s).
Proof.
  intros Hs. unfold _job_generator_tick, _job_generator_emit.
  destruct fire; [|done].
  destruct (random_choice (draw_type d) job_types) as [[jt ranges]|]; [|done].
  destruct (random_choice (draw_priority d) priorities) as [prio|]; [|done].
  eapply (counted_allocate s _ _ Hs); [reflexivity|reflexivity|done..].
Qed.

Lemma job_timed_assigned now worker job : job_timed (job_assigned now worker job).
Proof. split; simpl; intros; done. Qed.

Lemma counted_scheduler r now s :
  consistent s → counted s → counted (_job_scheduler_tick r now s).
Proof.
  intros Hs Hc. destruct (job_queue s) as [|l0 q] eqn:Hqueue.
  { by rewrite _job_scheduler_tick_empty. }
  assert (Hq : job_queue s ≠ []) by (by rewrite Hqueue).
  clear Hqueue. destruct (available_workers s) as [|first others] eqn:Hav.
  { rewrite _job_scheduler_tick_no_worker by done. revert Hc. by apply counted_same. }
  assert (Hav' : available_workers s ≠ []) by (by rewrite Hav).
  destruct (_job_scheduler_tick_dispatch r now s Hq Hav')
    as (job & rest & i & key & worker & Hsort & Hi & Hw & ->).
  assert (Hin : job ∈ job_queue s).
  { rewrite <- (sort_desc_perm (priority_key (store s))), Hsort. by left. }
  destruct (live_allocated s job Hs) as [j Hj]; [by left|].
  destruct (queued_pending s Hs job j Hin Hj) as [Hpending _].
  eapply (counted_job_update s _ job j (job_assigned now worker j));
    [done|done|by apply alter_as_insert|done|done|apply job_timed_assigned|done|..].
  - rewrite !status_indicator_ne by (simpl; congruence). sim_simpl. lia.
  - rewrite !status_indicator_ne by (simpl; congruence). sim_simpl. lia.
Qed.

Lemma job_timed_completed now v job :
  job_timed job → JobTypes.status job = JobTypes.RUNNING →
  job_timed (job_completed now v job).
Proof.
  intros [Hrun _ _] Hst. destruct (Hrun Hst) as [[t Ht] _].
  split; simpl; intros; try done.
  split; [|by eexists]. unfold JobTypes.duration. simpl. rewrite Ht. by eexists.
Qed.

Lemma job_timed_failed now r job :
  is_Some (JobTypes.exec_error_text r) → job_timed (job_failed now r job).
Proof. intros Hr. split; simpl; intros; done. Qed.

Lemma counted_executor_step {World : Type}
    (reg : JobTypes.JobExecutorRegistry World) now
    (sw : AutonomousClusterSimulator * World) i :
  consistent sw.1 → counted sw.1 → counted (_job_executor_step reg now sw i).1.
Proof.
  destruct sw as [s w]. simpl. intros Hs Hc.
  destruct (workers s !! i) as [[key worker]|] eqn:Hi; [|done].
  destruct (current_job worker) as [l|] eqn:Hl; [|done].
  destruct (store s !! l) as [job|] eqn:Hjob; [|done].
  case_bool_decide as Hrunning; [|done].
  destruct (JobTypes.execute_job reg job w) as [r w'].
  pose proof (jobs_timed s Hc l job Hjob) as Htimed.
  destruct r as [v|m|jt]; cbn [fst].
  - eapply (counted_job_update s _ l job (job_completed now v job));
      [done|done|by apply alter_as_insert|done|done|
       by apply job_timed_completed|done|..].
    + rewrite status_indicator_eq by done.
      rewrite status_indicator_ne by congruence. simpl. lia.
    + rewrite !status_indicator_ne by (simpl; congruence). simpl. lia.
  - eapply (counted_job_update s _ l job
              (job_failed now (JobTypes.ExecRaised m) job));
      [done|done|by apply alter_as_insert|done|done|
       by apply job_timed_failed|done|..].
    + rewrite !status_indicator_ne by (simpl; congruence). simpl. lia.
    + rewrite status_indicator_eq by done.
      rewrite status_indicator_ne by congruence. simpl. lia.
  - eapply (counted_job_update s _ l job
              (job_failed now (JobTypes.NoExecutorFound jt) job));
      [done|done|by apply alter_as_insert|done|done|
       by apply job_timed_failed|done|..].
    + rewrite !status_indicator_ne by (simpl; congruence). simpl. lia.
    + rewrite status_indicator_eq by done.
      rewrite status_indicator_ne by congruence. simpl. lia.
Qed.

Lemma job_timed_reset job : job_timed (failure_reset job).
Proof. split; simpl; intros; done. Qed.

Lemma job_timed_exhausted job : job_timed (failure_exhausted (failure_reset job)).
Proof. split; simpl; intros; done. Qed.

Lemma counted_failure wid s s' :
  _simulate_worker_failure wid s = Some s' →
  consistent s → counted s → counted s'.
Proof.
  unfold _simulate_worker_failure. intros Hfail Hs Hc.
  destruct (dict_index wid (workers s)) as [i|]; [|done]. simpl in Hfail.
  destruct (workers s !! i) as [[key worker]|] eqn:Hi; [|done]. simpl in Hfail.
  injection Hfail as <-.
  set (s1 := update_stats _ (update_worker i (set_wstatus "failed") s)).
  assert (Hc1 : counted s1) by (revert Hc; by apply counted_same).
  destruct (current_job worker) as [l|] eqn:Hl; [|done].
  assert (Hh : holds s i l) by (by exists key, worker).
  destruct (live_allocated s l Hs) as [job Hjob]; [right; eauto|].
  pose proof (held_running s Hs i l job Hh Hjob) as Hrunning.
  destruct (Z.le_gt_cases (JobTypes.retry_count job + 1) (JobTypes.max_retries job))
    as [Hle|Hgt].
  - rewrite (requeue_or_fail_requeue s1 l job Hjob Hle).
    eapply (counted_job_update s1 _ l job (failure_reset job));
      [done|done|by apply alter_as_insert|done|done|apply job_timed_reset|done|..].
    + rewrite !status_indicator_ne by (simpl; congruence). simpl. lia.
    + rewrite !status_indicator_ne by (simpl; congruence). simpl. lia.
  - rewrite (requeue_or_fail_exhausted s1 l job Hjob Hgt).
    eapply (counted_job_update s1 _ l job (failure_exhausted (failure_reset job)));
      [done|done| |done|done|apply job_timed_exhausted|done|..].
    + sim_simpl. rewrite list_alter_alter_eq.
      exact (alter_as_insert (failure_exhausted ∘ failure_reset) _ l job Hjob).
    + rewrite !status_indicator_ne by (simpl; congruence). simpl. lia.
    + rewrite status_indicator_eq by done.
      rewrite status_indicator_ne by congruence. simpl. lia.
Qed.

Lemma counted_heartbeat i now s :
  counted s → counted (update_worker i (set_last_heartbeat now) s).
Proof. by apply counted_same. Qed.

Lemma counted_update_job_rate float_of_str request_json s :
  counted s → counted (update_job_rate float_of_str request_json s).2.
Proof.
  intros Hs. unfold update_job_rate.
  destruct request_json as [data|e]; [|done].
  destruct (get_rate data) as [v|e]; [|done].
  destruct (py_float float_of_str v) as [f|e]; [|done].
  revert Hs. by apply counted_same.
Qed.
End CountedEvents.

(** ** The workers stay well formed *)
Section StaffedSteps.
Implicit Types (s : AutonomousClusterSimulator) (l i : nat) (job : JobTypes.Job).

Lemma keys_alter_value {V : Type} (g : V → V) (n : nat) (d : list (string * V)) :
  (alter (λ kv, (kv.1, g kv.2)) n d).*1 = d.*1.
Proof.
  revert n. induction d as [|[k v] d IH]; intros [|n]; simpl; try done.
  f_equal. apply IH.
Qed.

Lemma dict_index_None {V : Type} (k : string) (d : list (string * V)) :
  dict_index k d = None → k ∉ d.*1.
Proof.
  induction d as [|[k' v] d IH]; simpl; [intros _; apply not_elem_of_nil|].
  destruct (String.eqb k' k) eqn:Hk; [done|].
  destruct (dict_index k d); [done|]. intros _.
  apply not_elem_of_cons. split; [|by apply IH].
  apply String.eqb_neq in Hk. congruence.
Qed.

Lemma keys_dict_set {V : Type} (k : string) (v : V) (d : list (string * V)) :
  NoDup d.*1 → NoDup (dict_set k v d).*1.
Proof.
  intros Hnodup. unfold dict_set.
  destruct (dict_index k d) as [n|] eqn:Hidx.
  - destruct (dict_index_lookup k d n Hidx) as [v0 Hv0].
    rewrite list_fmap_insert. simpl.
    rewrite list_insert_id; [done|]. by rewrite list_lookup_fmap, Hv0.
  - rewrite fmap_app. simpl. apply NoDup_app. split; [done|].
    split; [|apply NoDup_singleton].
    intros x Hx. rewrite list_elem_of_singleton. intros ->.
    by apply (dict_index_None k d).
Qed.

Lemma staffed_init now : staffed (init now).
Proof. split; simpl; try done. constructor. Qed.

(** A worker object changes, keeping or dropping its job; the store stays. *)
Lemma staffed_worker_update s s' i (g : WorkerInfo → WorkerInfo) :
  staffed s →
  workers s' = alter (λ kv, (kv.1, g kv.2)) i (workers s) →
  store s' = store s →
  (∀ key w, workers s !! i = Some (key, w) →
            worker_ok key (g w) ∧ worker_id (g w) = worker_id w ∧
            (current_job (g w) = current_job w ∨ current_job (g w) = None)) →
  staffed s'.
Proof.
  intros [Hok Hkeys Hnames] Hworkers Hstore Hg. split.
  - intros i' key w. rewrite Hworkers.
    destruct (decide (i = i')) as [<-|Hne].
    + rewrite list_lookup_alter_eq.
      destruct (workers s !! i) as [[key0 w0]|] eqn:Hi; [|done].
      simpl. intros [= <- <-]. by apply Hg.
    + rewrite list_lookup_alter_ne by done. eauto.
  - by rewrite Hworkers, keys_alter_value.
  - intros i' key w l job. rewrite Hworkers, Hstore.
    destruct (decide (i = i')) as [<-|Hne].
    + rewrite list_lookup_alter_eq.
      destruct (workers s !! i) as [[key0 w0]|] eqn:Hi; [|done].
      simpl. intros [= <- <-] Hjob Hl.
      destruct (Hg key0 w0 eq_refl) as (_ & Hid & [Hsame|Hnone]); [|congruence].
      rewrite Hid. rewrite Hsame in Hjob. eauto.
    + rewrite list_lookup_alter_ne by done. eauto.
Qed.

(** A worker object changes together with the one job object that only it
    may refer to. *)
Lemma staffed_job_update s s' i (g : WorkerInfo → WorkerInfo) l job' :
  staffed s →
  workers s' = alter (λ kv, (kv.1, g kv.2)) i (workers s) →
  store s' = <[l := job']> (store s) →
  (∀ i', i' ≠ i → ¬ holds s i' l) →
  (∀ key w, workers s !! i = Some (key, w) →
            worker_ok key (g w) ∧ worker_id (g w) = worker_id w ∧
            (current_job (g w) = None ∨
             (current_job (g w) = Some l ∧
              JobTypes.worker_id job' = Some (worker_id w)))) →
  staffed s'.
Proof.
  intros [Hok Hkeys Hnames] Hworkers Hstore Hothers Hg. split.
  - intros i' key w. rewrite Hworkers.
    destruct (decide (i = i')) as [<-|Hne].
    + rewrite list_lookup_alter_eq.
      destruct (workers s !! i) as [[key0 w0]|] eqn:Hi; [|done].
      simpl. intros [= <- <-]. by apply Hg.
    + rewrite list_lookup_alter_ne by done. eauto.
  - by rewrite Hworkers, keys_alter_value.
  - intros i' key w l' job. rewrite Hworkers, Hstore.
    destruct (decide (i = i')) as [<-|Hne].
    + rewrite list_lookup_alter_eq.
      destruct (workers s !! i) as [[key0 w0]|] eqn:Hi; [|done].
      simpl. intros [= <- <-] Hjob Hl.
      destruct (Hg key0 w0 eq_refl) as (_ & Hid & [Hnone|[Hsome Hname]]);
        [congruence|].
      rewrite Hsome in Hjob. injection Hjob as <-.
      apply list_lookup_insert_Some in Hl as [(_ & <- & _)|[? _]]; [|done].
      by rewrite Hid.
    + rewrite list_lookup_alter_ne by done. intros Hw Hjob Hl.
      assert (l ≠ l').
      { intros ->. apply (Hothers i'); [done|]. by exists key, w. }
      rewrite list_lookup_insert_ne in Hl by done. eauto.
Qed.

Lemma staffed_allocate s s' job :
  consistent s → staffed s →
  workers s' = workers s → store s' = store s ++ [job] → staffed s'.
Proof.
  intros Hs [Hok Hkeys Hnames] Hworkers Hstore. split.
  - by rewrite Hworkers.
  - by rewrite Hworkers.
  - intros i key w l j. rewrite Hworkers, Hstore. intros Hw Hjob Hl.
    assert (l < length (store s))%nat.
    { apply (refs_allocated s Hs). right. exists i, key, w. done. }
    rewrite lookup_app_l in Hl by done. eauto.
Qed.

Lemma staffed_same s s' :
  workers s' = workers s → store s' = store s → staffed s → staffed s'.
Proof. intros Hw Hst [Hok Hkeys Hnames]. split; rewrite ?Hw, ?Hst; done. Qed.

Lemma staffed_add_worker wid p now s :
  staffed s → staffed (add_worker wid p now s).
Proof.
  intros [Hok Hkeys Hnames]. unfold add_worker. split; sim_simpl.
  - intros i key w Hlook. unfold dict_set in Hlook.
    destruct (dict_index wid (workers s)) as [i0|].
    + apply list_lookup_insert_Some in Hlook as [(_ & [= <- <-] & _)|[_ Hlook]];
        [|eauto].
      split; simpl; try done. by left.
    + apply lookup_app_Some in Hlook as [Hlook|[_ Hlook]]; [eauto|].
      apply list_lookup_singleton_Some in Hlook as [_ [= <- <-]].
      split; simpl; try done. by left.
  - by apply keys_dict_set.
  - intros i key w l job Hlook Hjob. unfold dict_set in Hlook.
    destruct (dict_index wid (workers s)) as [i0|].
    + apply list_lookup_insert_Some in Hlook as [(_ & [= <- <-] & _)|[_ Hlook]];
        [done|eauto].
    + apply lookup_app_Some in Hlook as [Hlook|[_ Hlook]]; [eauto|].
      by apply list_lookup_singleton_Some in Hlook as [_ [= <- <-]].
Qed.
End StaffedSteps.

Section StaffedEvents.
Implicit Types (s : AutonomousClusterSimulator) (l i : nat) (job : JobTypes.Job).

Lemma worker_ok_online key w (g : WorkerInfo → WorkerInfo) :
  worker_ok key w → worker_id (g w) = worker_id w → status (g w) = "online" →
  worker_ok key (g w).
Proof.
  intros [Hkey _ _ _] Hid Hst. split; rewrite ?Hid, ?Hst; try done. by left.
Qed.

Lemma worker_ok_failed key w (g : WorkerInfo → WorkerInfo) :
  worker_ok key w → worker_id (g w) = worker_id w → status (g w) = "failed" →
  current_job (g w) = None → worker_ok key (g w).
Proof.
  intros [Hkey _ _ _] Hid Hst Hjob. split; rewrite ?Hid, ?Hst, ?Hjob; try done.
  by right; right.
Qed.

Lemma worker_ok_assigned key w l : worker_ok key w → worker_ok key (worker_assigned l w).
Proof. intros [Hkey _ _ _]. split; simpl; try done. by right; left. Qed.

Lemma worker_ok_heartbeat key w now :
  worker_ok key w → worker_ok key (set_last_heartbeat now w).
Proof. by intros [? ? ? ?]. Qed.

Lemma staffed_recover wid now s :
  staffed s → staffed (_recover_worker wid now s).
Proof.
  intros Hs. unfold _recover_worker.
  destruct (dict_index wid (workers s)) as [i|]; [|done].
  eapply (staffed_worker_update s _ i
            (λ w, set_last_heartbeat now (set_wstatus "online" w)));
    [done|reflexivity|done|].
  intros key w Hw. split; [|by split; [|left]].
  apply (worker_ok_online key w
           (λ w, set_last_heartbeat now (set_wstatus "online" w))); [|done..].
  by eapply (workers_ok s Hs).
Qed.

Lemma staffed_heartbeat i now s :
  staffed s → staffed (update_worker i (set_last_heartbeat now) s).
Proof.
  intros Hs.
  eapply (staffed_worker_update s _ i (set_last_heartbeat now));
    [done|reflexivity|done|].
  intros key w Hw. split; [|by split; [|left]].
  apply worker_ok_heartbeat. by eapply (workers_ok s Hs).
Qed.

Lemma staffed_generator fire d now s :
  consistent s → staffed s → staffed (_job_generator_tick fire d now s).
Proof.
  intros Hs Hst. unfold _job_generator_tick, _job_generator_emit.
  destruct fire; [|done].
  destruct (random_choice (draw_type d) job_types) as [[jt ranges]|]; [|done].
  destruct (random_choice (draw_priority d) priorities) as [prio|]; [|done].
  by eapply (staffed_allocate s _ _ Hs Hst).
Qed.

Lemma staffed_scheduler r now s :
  consistent s → staffed s → staffed (_job_scheduler_tick r now s).
Proof.
  intros Hs Hst. destruct (job_queue s) as [|l0 q] eqn:Hqueue.
  { by rewrite _job_scheduler_tick_empty. }
  assert (Hq : job_queue s ≠ []) by (by rewrite Hqueue).
  clear Hqueue. destruct (available_workers s) as [|first others] eqn:Hav.
  { rewrite _job_scheduler_tick_no_worker by done. revert Hst. by apply staffed_same. }
  assert (Hav' : available_workers s ≠ []) by (by rewrite Hav).
  destruct (_job_scheduler_tick_dispatch r now s Hq Hav')
    as (job & rest & i & key & worker & Hsort & Hi & Hw & ->).
  assert (Hin : job ∈ job_queue s).
  { rewrite <- (sort_desc_perm (priority_key (store s))), Hsort. by left. }
  destruct (live_allocated s job Hs) as [j Hj]; [by left|].
  eapply (staffed_job_update s _ i (worker_assigned job) job
            (job_assigned now worker j));
    [done|done|by apply alter_as_insert| |].
  - intros i' _ Hh. by apply (held_not_queued s Hs i' job).
  - intros key0 w0 Hw0. rewrite Hi in Hw0. injection Hw0 as <- <-.
    split; [|by split; [|right]].
    apply worker_ok_assigned. by eapply (workers_ok s Hst).
Qed.

Lemma staffed_executor_step {World : Type}
    (reg : JobTypes.JobExecutorRegistry World) now
    (sw : AutonomousClusterSimulator * World) i :
  consistent sw.1 → staffed sw.1 → staffed (_job_executor_step reg now sw i).1.
Proof.
  destruct sw as [s w]. simpl. intros Hs Hst.
  destruct (workers s !! i) as [[key worker]|] eqn:Hi; [|done].
  destruct (current_job worker) as [l|] eqn:Hl; [|done].
  destruct (store s !! l) as [job|] eqn:Hjob; [|done].
  case_bool_decide as Hrunning; [|done].
  destruct (JobTypes.execute_job reg job w) as [r w'].
  assert (Hh : holds s i l) by (by exists key, worker).
  assert (Hothers : ∀ i', i' ≠ i → ¬ holds s i' l).
  { intros i' Hne Hh'. by apply Hne, (held_once s Hs i' i l). }
  assert (Hfreed : ∀ key0 w0 job',
    workers s !! i = Some (key0, w0) →
    worker_ok key0 (worker_freed w0) ∧ worker_id (worker_freed w0) = worker_id w0 ∧
    (current_job (worker_freed w0) = None ∨
     (current_job (worker_freed w0) = Some l ∧
      JobTypes.worker_id job' = Some (worker_id w0)))).
  { intros key0 w0 job' Hw0. split; [|by split; [|left]].
    apply worker_ok_online; [|done..]. by eapply (workers_ok s Hst). }
  destruct r as [v|m|jt]; cbn [fst].
  - eapply (staffed_job_update s _ i worker_freed l (job_completed now v job));
      [done|done|by apply alter_as_insert|done|]. intros. by apply Hfreed.
  - eapply (staffed_job_update s _ i worker_freed l
              (job_failed now (JobTypes.ExecRaised m) job));
      [done|done|by apply alter_as_insert|done|]. intros. by apply Hfreed.
  - eapply (staffed_job_update s _ i worker_freed l
              (job_failed now (JobTypes.NoExecutorFound jt) job));
      [done|done|by apply alter_as_insert|done|]. intros. by apply Hfreed.
Qed.

Lemma staffed_failure wid s s' :
  _simulate_worker_failure wid s = Some s' →
  consistent s → staffed s → staffed s'.
Proof.
  unfold _simulate_worker_failure. intros Hfail Hs Hst.
  destruct (dict_index wid (workers s)) as [i|]; [|done]. simpl in Hfail.
  destruct (workers s !! i) as [[key worker]|] eqn:Hi; [|done]. simpl in Hfail.
  injection Hfail as <-.
  pose proof (workers_ok s Hst i key worker Hi) as Hok.
  destruct (current_job worker) as [l|] eqn:Hl.
  - assert (Hh : holds s i l) by (by exists key, worker).
    assert (Hothers : ∀ i', i' ≠ i → ¬ holds s i' l).
    { intros i' Hne Hh'. by apply Hne, (held_once s Hs i' i l). }
    destruct (live_allocated s l Hs) as [job Hjob]; [right; eauto|].
    set (g := λ w, set_current_job None (set_wstatus "failed" w)).
    set (s1 := update_stats _ (update_worker i (set_wstatus "failed") s)).
    assert (Hjob1 : store s1 !! l = Some job) by done.
    assert (Hg : ∀ key0 w0 job',
      workers s !! i = Some (key0, w0) →
      worker_ok key0 (g w0) ∧ worker_id (g w0) = worker_id w0 ∧
      (current_job (g w0) = None ∨
       (current_job (g w0) = Some l ∧
        JobTypes.worker_id job' = Some (worker_id w0)))).
    { intros key0 w0 job' Hw0. split; [|by split; [|left]].
      apply worker_ok_failed; [|done..]. by eapply (workers_ok s Hst). }
    destruct (Z.le_gt_cases (JobTypes.retry_count job + 1)
                (JobTypes.max_retries job)) as [Hle|Hgt].
    + rewrite (requeue_or_fail_requeue s1 l job Hjob1 Hle).
      eapply (staffed_job_update s _ i g l (failure_reset job));
        [done| |by apply alter_as_insert|done|].
      * subst s1. sim_simpl. rewrite list_alter_alter_eq. by apply list_alter_ext.
      * intros. by apply Hg.
    + rewrite (requeue_or_fail_exhausted s1 l job Hjob1 Hgt).
      eapply (staffed_job_update s _ i g l (failure_exhausted (failure_reset job)));
        [done| | |done|].
      * subst s1. sim_simpl. rewrite list_alter_alter_eq. by apply list_alter_ext.
      * subst s1. sim_simpl. rewrite list_alter_alter_eq.
        exact (alter_as_insert (failure_exhausted ∘ failure_reset) _ l job Hjob).
      * intros. by apply Hg.
  - eapply (staffed_worker_update s _ i (set_wstatus "failed"));
      [done|reflexivity|done|].
    intros key0 w0 Hw0. rewrite Hi in Hw0. injection Hw0 as <- <-.
    split; [|by split; [|left]]. by apply worker_ok_failed.
Qed.

Lemma staffed_update_job_rate float_of_str request_json s :
  staffed s → staffed (update_job_rate float_of_str request_json s).2.
Proof.
  intros Hs. unfold update_job_rate.
  destruct request_json as [data|e]; [|done].
  destruct (get_rate data) as [v|e]; [|done].
  destruct (py_float float_of_str v) as [f|e]; [|done].
  revert Hs. by apply staffed_same.
Qed.
End StaffedEvents.

(** ** The invariants along a run *)
Section Bookkeeping.
Implicit Types (s : AutonomousClusterSimulator).

Lemma foldl_invariant {A S : Type} (P : S → Prop) (step : S → A → S)
    (xs : list A) (a : S) :
  (∀ (b : S) (x : A), P b → P (step b x)) → P a → P (foldl step a xs).
Proof.
  intros Hstep. revert a. induction xs as [|x xs IH]; intros a Ha; simpl; [done|].
  apply IH. by apply Hstep.
Qed.

Lemma bookkeeping_failure_default wid s :
  consistent s ∧ counted s ∧ staffed s →
  consistent (default s (_simulate_worker_failure wid s)) ∧
  counted (default s (_simulate_worker_failure wid s)) ∧
  staffed (default s (_simulate_worker_failure wid s)).
Proof.
  intros (Hs & Hc & Hst).
  destruct (_simulate_worker_failure wid s) as [s'|] eqn:Hfail; [|done].
  simpl. split; [by eapply consistent_failure|].
  split; [by eapply counted_failure|by eapply staffed_failure].
Qed.

Lemma bookkeeping_apply_event s ev :
  consistent s ∧ counted s ∧ staffed s →
  consistent (apply_event s ev) ∧ counted (apply_event s ev) ∧
  staffed (apply_event s ev).
Proof.
  destruct ev as [wid p now|fire d now|r now|World bodies w now|fires|fires now
                 |wid|wid now|float_of_str request_json]; simpl.
  - intros (Hs & Hc & Hst). split; [by apply consistent_add_worker|].
    split; [by apply counted_add_worker|by apply staffed_add_worker].
  - intros (Hs & Hc & Hst). split; [by apply consistent_generator|].
    split; [by apply counted_generator|by apply staffed_generator].
  - intros (Hs & Hc & Hst). split; [by apply consistent_scheduler|].
    split; [by apply counted_scheduler|by apply staffed_scheduler].
  - intros H. unfold _job_executor_tick.
    apply (foldl_invariant
             (λ sw : AutonomousClusterSimulator * World,
                consistent sw.1 ∧ counted sw.1 ∧ staffed sw.1)); [|done].
    intros sw i (Hs & Hc & Hst). split; [by apply consistent_executor_step|].
    split; [by apply counted_executor_step|by apply staffed_executor_step].
  - apply (foldl_invariant (λ s0, consistent s0 ∧ counted s0 ∧ staffed s0)).
    intros s0 i H. unfold _fault_injector_step.
    destruct (workers s0 !! i) as [[wid worker]|]; [|done].
    destruct (String.eqb (status worker) "online" && fires i); [|done].
    by apply bookkeeping_failure_default.
  - apply (foldl_invariant (λ s0, consistent s0 ∧ counted s0 ∧ staffed s0)).
    intros s0 i H. unfold _worker_monitor_step.
    destruct (workers s0 !! i) as [[wid worker]|]; [|done].
    destruct (String.eqb (status worker) "online"); [|done].
    destruct (fires i); [by apply bookkeeping_failure_default|].
    destruct H as (Hs & Hc & Hst). split; [|split].
    + revert Hs. apply consistent_frame; [done|done|]. intros i' l'.
      by apply holds_update_worker_keep.
    + by apply counted_heartbeat.
    + by apply staffed_heartbeat.
  - apply bookkeeping_failure_default.
  - intros (Hs & Hc & Hst). split; [by apply consistent_recover|].
    split; [by apply counted_recover|by apply staffed_recover].
  - intros (Hs & Hc & Hst). split; [by apply consistent_update_job_rate|].
    split; [by apply counted_update_job_rate|by apply staffed_update_job_rate].
Qed.

Lemma bookkeeping_run events s :
  consistent s ∧ counted s ∧ staffed s →
  consistent (run events s) ∧ counted (run events s) ∧ staffed (run events s).
Proof.
  apply (foldl_invariant (λ s0, consistent s0 ∧ counted s0 ∧ staffed s0)).
  intros s0 ev. apply bookkeeping_apply_event.
Qed.

Lemma bookkeeping_reachable s :
  reachable s → consistent s ∧ counted s ∧ staffed s.
Proof.
  intros (now & events & ->). apply bookkeeping_run.
  split; [apply consistent_init|]. split; [apply counted_init|apply staffed_init].
Qed.
End Bookkeeping.

(** ** Jobs that nothing refers to are never touched *)
Section QuietJobs.
Implicit Types (s : AutonomousClusterSimulator) (l i : nat) (job : JobTypes.Job).

Lemma quiet_frame s s' l :
  store s' = store s → job_queue s' ≡ₚ job_queue s →
  (∀ i l', holds s' i l' → holds s i l') →
  ¬ live s l → store s' !! l = store s !! l ∧ ¬ live s' l.
Proof.
  intros Hstore Hqueue Hholds Hl. split; [by rewrite Hstore|].
  intros [Hq|[i Hi]]; apply Hl; [left; by rewrite <- Hqueue|right; eauto].
Qed.

Lemma quiet_release s s' i l0 job' (requeued : bool) l :
  holds s i l0 →
  store s' = <[l0 := job']> (store s) →
  job_queue s' = (if requeued then job_queue s ++ [l0] else job_queue s) →
  (∀ i' l', holds s' i' l' → i' ≠ i ∧ holds s i' l') →
  ¬ live s l → store s' !! l = store s !! l ∧ ¬ live s' l.
Proof.
  intros Hi Hstore Hqueue Hholds Hl.
  assert (Hne : l0 ≠ l) by (intros ->; apply Hl; right; eauto).
  split; [by rewrite Hstore, list_lookup_insert_ne|].
  intros [Hq|[i' Hi']]; apply Hl.
  - left. rewrite Hqueue in Hq. destruct requeued; [|done].
    apply elem_of_app in Hq as [Hq|Hq]; [done|].
    apply list_elem_of_singleton in Hq. congruence.
  - right. exists i'. by apply Hholds.
Qed.

Lemma quiet_assign s s' i l0 job' l :
  job_queue s ≡ₚ l0 :: job_queue s' →
  store s' = <[l0 := job']> (store s) →
  (∀ i' l', holds s' i' l' → (i' = i ∧ l' = l0) ∨ (i' ≠ i ∧ holds s i' l')) →
  ¬ live s l → store s' !! l = store s !! l ∧ ¬ live s' l.
Proof.
  intros Hperm Hstore Hholds Hl.
  assert (Hne : l0 ≠ l).
  { intros ->. apply Hl. left. rewrite Hperm. by left. }
  split; [by rewrite Hstore, list_lookup_insert_ne|].
  intros [Hq|[i' Hi']]; apply Hl.
  - left. rewrite Hperm. by right.
  - destruct (Hholds i' l Hi') as [[_ ?]|[_ Hh]]; [congruence|]. right. eauto.
Qed.

Lemma quiet_allocate s s' job' l job :
  store s' = store s ++ [job'] →
  job_queue s' = job_queue s ++ [length (store s)] →
  (∀ i l', holds s' i l' → holds s i l') →
  store s !! l = Some job →
  ¬ live s l → store s' !! l = store s !! l ∧ ¬ live s' l.
Proof.
  intros Hstore Hqueue Hholds Hjob Hl.
  split; [rewrite Hstore, Hjob; by apply lookup_app_l_Some|].
  intros [Hq|[i' Hi']]; apply Hl.
  - left. rewrite Hqueue in Hq. apply elem_of_app in Hq as [Hq|Hq]; [done|].
    apply list_elem_of_singleton in Hq. apply lookup_lt_Some in Hjob. lia.
  - right. eauto.
Qed.

Lemma quiet_add_worker wid p now s l :
  ¬ live s l →
  store (add_worker wid p now s) !! l = store s !! l ∧
  ¬ live (add_worker wid p now s) l.
Proof. apply quiet_frame; [done|done|]. intros i l'. by apply holds_dict_set. Qed.

Lemma quiet_recover wid now s l :
  ¬ live s l →
  store (_recover_worker wid now s) !! l = store s !! l ∧
  ¬ live (_recover_worker wid now s) l.
Proof.
  unfold _recover_worker. destruct (dict_index wid (workers s)) as [i0|]; [|done].
  apply quiet_frame; [done|done|]. intros i l'. by apply holds_update_worker_keep.
Qed.

Lemma quiet_heartbeat i now s l :
  ¬ live s l →
  store (update_worker i (set_last_heartbeat now) s) !! l = store s !! l ∧
  ¬ live (update_worker i (set_last_heartbeat now) s) l.
Proof.
  apply quiet_frame; [done|done|]. intros i' l'. by apply holds_update_worker_keep.
Qed.

Lemma quiet_generator fire d now s l job :
  store s !! l = Some job → ¬ live s l →
  store (_job_generator_tick fire d now s) !! l = store s !! l ∧
  ¬ live (_job_generator_tick fire d now s) l.
Proof.
  intros Hjob Hl. unfold _job_generator_tick, _job_generator_emit.
  destruct fire; [|done].
  destruct (random_choice (draw_type d) job_types) as [[jt ranges]|]; [|done].
  destruct (random_choice (draw_priority d) priorities) as [prio|]; [|done].
  by eapply quiet_allocate.
Qed.

Lemma quiet_scheduler r now s l :
  ¬ live s l →
  store (_job_scheduler_tick r now s) !! l = store s !! l ∧
  ¬ live (_job_scheduler_tick r now s) l.
Proof.
  intros Hl. destruct (job_queue s) as [|l0 q] eqn:Hqueue.
  { by rewrite _job_scheduler_tick_empty. }
  assert (Hq : job_queue s ≠ []) by (by rewrite Hqueue).
  clear Hqueue. destruct (available_workers s) as [|first others] eqn:Hav.
  { rewrite _job_scheduler_tick_no_worker by done.
    revert Hl. apply quiet_frame; [done| |done]. apply sort_desc_perm. }
  assert (Hav' : available_workers s ≠ []) by (by rewrite Hav).
  destruct (_job_scheduler_tick_dispatch r now s Hq Hav')
    as (job & rest & i & key & worker & Hsort & Hi & Hw & ->).
  assert (Hperm : job_queue s ≡ₚ job :: rest).
  { rewrite <- Hsort. symmetry. apply sort_desc_perm. }
  destruct (store s !! job) as [j|] eqn:Hj.
  - eapply (quiet_assign s _ i job (job_assigned now worker j));
      [done|by apply alter_as_insert| |done].
    intros i' l' Hh. apply holds_update_worker_inv in Hh as [Hh|[-> Hh]]; [by right|].
    left. split; [done|]. destruct Hh as (key' & w & _ & Hjob).
    simpl in Hjob. congruence.
  - split.
    + sim_simpl. destruct (decide (job = l)) as [->|Hne].
      * by rewrite list_lookup_alter_eq, Hj.
      * by rewrite list_lookup_alter_ne.
    + intros [Hq'|[i' Hi']]; apply Hl.
      * left. rewrite Hperm. by right.
      * apply holds_update_worker_inv in Hi' as [[_ Hh]|[-> Hh]]; [right; eauto|].
        destruct Hh as (key' & w & _ & Hjob). simpl in Hjob.
        injection Hjob as <-. left. rewrite Hperm. by left.
Qed.

Lemma quiet_executor_step {World : Type}
    (reg : JobTypes.JobExecutorRegistry World) now
    (sw : AutonomousClusterSimulator * World) i l :
  ¬ live sw.1 l →
  store (_job_executor_step reg now sw i).1 !! l = store sw.1 !! l ∧
  ¬ live (_job_executor_step reg now sw i).1 l.
Proof.
  destruct sw as [s w]. simpl. intros Hl.
  destruct (workers s !! i) as [[key worker]|] eqn:Hi; [|done].
  destruct (current_job worker) as [l0|] eqn:Hl0; [|done].
  destruct (store s !! l0) as [job|] eqn:Hjob; [|done].
  case_bool_decide as Hrunning; [|done].
  destruct (JobTypes.execute_job reg job w) as [r w'].
  assert (Hh : holds s i l0) by (by exists key, worker).
  assert (Hclear : ∀ s0 i' l',
    holds (update_worker i worker_freed s0) i' l' → i' ≠ i ∧ holds s0 i' l').
  { intros s0 i' l'. by apply holds_update_worker_clear. }
  destruct r as [v|m|jt]; cbn [fst].
  - eapply (quiet_release s _ i l0 (job_completed now v job) false);
      [done|by apply alter_as_insert|done| |done].
    intros i' l' Hh'. exact (Hclear s i' l' Hh').
  - eapply (quiet_release s _ i l0 (job_failed now (JobTypes.ExecRaised m) job) false);
      [done|by apply alter_as_insert|done| |done].
    intros i' l' Hh'. exact (Hclear s i' l' Hh').
  - eapply (quiet_release s _ i l0
              (job_failed now (JobTypes.NoExecutorFound jt) job) false);
      [done|by apply alter_as_insert|done| |done].
    intros i' l' Hh'. exact (Hclear s i' l' Hh').
Qed.

Lemma quiet_failure_default wid s l :
  ¬ live s l →
  store (default s (_simulate_worker_failure wid s)) !! l = store s !! l ∧
  ¬ live (default s (_simulate_worker_failure wid s)) l.
Proof.
  intros Hl. unfold _simulate_worker_failure.
  destruct (dict_index wid (workers s)) as [i|]; [|done]. simpl.
  destruct (workers s !! i) as [[key worker]|] eqn:Hi; [|done]. simpl.
  set (s1 := update_stats _ (update_worker i (set_wstatus "failed") s)).
  assert (Hkeep : ∀ i' l', holds s1 i' l' → holds s i' l').
  { intros i' l'. by apply holds_update_worker_keep. }
  destruct (current_job worker) as [l0|] eqn:Hl0.
  2:{ revert Hl. by apply quiet_frame. }
  assert (Hh : holds s i l0) by (by exists key, worker).
  assert (Hclear : ∀ s0 i' l',
    holds (update_worker i (set_current_job None) s0) i' l' →
    i' ≠ i ∧ holds s0 i' l').
  { intros s0 i' l'. by apply holds_update_worker_clear. }
  destruct (store s !! l0) as [job|] eqn:Hjob.
  2:{ rewrite requeue_or_fail_dangling by done. revert Hl.
      apply quiet_frame; [done|done|]. intros i' l' Hh'.
      apply Hkeep. by apply (Hclear s1). }
  assert (Hjob1 : store s1 !! l0 = Some job) by done.
  destruct (Z.le_gt_cases (JobTypes.retry_count job + 1) (JobTypes.max_retries job))
    as [Hle|Hgt].
  - rewrite (requeue_or_fail_requeue s1 l0 job Hjob1 Hle).
    eapply (quiet_release s _ i l0 (failure_reset job) true);
      [done|by apply alter_as_insert|done| |done].
    intros i' l' Hh'. destruct (Hclear s1 i' l' Hh') as [? ?]. eauto.
  - rewrite (requeue_or_fail_exhausted s1 l0 job Hjob1 Hgt).
    eapply (quiet_release s _ i l0 (failure_exhausted (failure_reset job)) false);
      [done| |done| |done].
    + subst s1. sim_simpl. rewrite list_alter_alter_eq.
      exact (alter_as_insert (failure_exhausted ∘ failure_reset) _ l0 job Hjob).
    + intros i' l' Hh'. destruct (Hclear s1 i' l' Hh') as [? ?]. eauto.
Qed.

Lemma quiet_update_job_rate float_of_str request_json s l :
  ¬ live s l →
  store (update_job_rate float_of_str request_json s).2 !! l = store s !! l ∧
  ¬ live (update_job_rate float_of_str request_json s).2 l.
Proof.
  intros Hl. unfold update_job_rate.
  destruct request_json as [data|e]; [|done].
  destruct (get_rate data) as [v|e]; [|done].
  destruct (py_float float_of_str v) as [f|e]; [|done].
  revert Hl. by apply quiet_frame.
Qed.

Lemma quiet_apply_event s ev l job :
  store s !! l = Some job → ¬ live s l →
  store (apply_event s ev) !! l = Some job ∧ ¬ live (apply_event s ev) l.
Proof.
  intros Hjob Hl.
  pose (P := λ s0 : AutonomousClusterSimulator, store s0 !! l = Some job ∧ ¬ live s0 l).
  assert (Hlift : ∀ s0 s1,
    (¬ live s0 l → store s1 !! l = store s0 !! l ∧ ¬ live s1 l) → P s0 → P s1).
  { intros s0 s1 Hstep [Hj0 Hl0]. destruct (Hstep Hl0) as [Heq ?].
    split; [by rewrite Heq|done]. }
  assert (HP : P s) by done. change (P (apply_event s ev)). clear Hjob Hl.
  destruct ev as [wid p now|fire d now|r now|World bodies w now|fires|fires now
                 |wid|wid now|float_of_str request_json]; cbn [apply_event].
  - refine (Hlift _ _ _ HP); apply quiet_add_worker.
  - destruct HP as [Hj0 Hl0].
    destruct (quiet_generator fire d now s l job Hj0 Hl0) as [Heq ?].
    split; [by rewrite Heq|done].
  - refine (Hlift _ _ _ HP); apply quiet_scheduler.
  - unfold _job_executor_tick.
    apply (foldl_invariant (λ sw : AutonomousClusterSimulator * World, P sw.1));
      [|done].
    intros sw i HP0. refine (Hlift _ _ _ HP0); apply quiet_executor_step.
  - apply (foldl_invariant P); [|done]. intros s0 i HP0.
    unfold _fault_injector_step.
    destruct (workers s0 !! i) as [[wid worker]|]; [|done].
    destruct (String.eqb (status worker) "online" && fires i); [|done].
    refine (Hlift _ _ _ HP0); apply quiet_failure_default.
  - apply (foldl_invariant P); [|done]. intros s0 i HP0.
    unfold _worker_monitor_step.
    destruct (workers s0 !! i) as [[wid worker]|]; [|done].
    destruct (String.eqb (status worker) "online"); [|done].
    destruct (fires i); refine (Hlift _ _ _ HP0);
      [apply quiet_failure_default|apply quiet_heartbeat].
  - refine (Hlift _ _ _ HP); apply quiet_failure_default.
  - refine (Hlift _ _ _ HP); apply quiet_recover.
  - refine (Hlift _ _ _ HP); apply quiet_update_job_rate.
Qed.

Lemma quiet_run events s l job :
  store s !! l = Some job → ¬ live s l →
  store (run events s) !! l = Some job ∧ ¬ live (run events s) l.
Proof.
  intros Hjob Hl.
  apply (foldl_invariant (λ s0, store s0 !! l = Some job ∧ ¬ live s0 l)); [|done].
  intros s0 ev [? ?]. by apply quiet_apply_event.
Qed.
End QuietJobs.

(** ** One round of the executor runner *)
Section ExecutorRound.
Context {World : Type}.
Variable reg : JobTypes.JobExecutorRegistry World.
Implicit Types (s : AutonomousClusterSimulator) (l i k : nat) (job : JobTypes.Job)
               (w : World).

Lemma executor_step_held now s w k l0 :
  consistent s → holds s k l0 →
  ∃ job job',
    store s !! l0 = Some job ∧ finished_at now job job' ∧
    store (_job_executor_step reg now (s, w) k).1 = <[l0 := job']> (store s) ∧
    job_queue (_job_executor_step reg now (s, w) k).1 = job_queue s ∧
    workers (_job_executor_step reg now (s, w) k).1 =
      alter (λ kv, (kv.1, worker_freed kv.2)) k (workers s).
Proof.
  intros Hs Hh. pose proof Hh as (key & worker & Hi & Hl0).
  destruct (lookup_lt_is_Some_2 (store s) l0) as [job Hjob].
  { apply (refs_allocated s Hs). right. eauto. }
  pose proof (held_running s Hs k l0 job Hh Hjob) as Hrunning.
  exists job. unfold _job_executor_step. rewrite Hi, Hl0, Hjob.
  rewrite bool_decide_eq_true_2 by done.
  destruct (JobTypes.execute_job reg job w) as [r w'].
  destruct r as [v|m|jt]; cbn [fst].
  - exists (job_completed now v job). split; [done|]. split; [split; simpl; auto|].
    sim_simpl. split; [by apply alter_as_insert|done].
  - exists (job_failed now (JobTypes.ExecRaised m) job).
    split; [done|]. split; [split; simpl; auto|].
    sim_simpl. split; [by apply alter_as_insert|done].
  - exists (job_failed now (JobTypes.NoExecutorFound jt) job).
    split; [done|]. split; [split; simpl; auto|].
    sim_simpl. split; [by apply alter_as_insert|done].
Qed.

Lemma executor_step_idle now s w k :
  (∀ l, ¬ holds s k l) → _job_executor_step reg now (s, w) k = (s, w).
Proof.
  intros Hidle. unfold _job_executor_step.
  destruct (workers s !! k) as [[key worker]|] eqn:Hi; [|done].
  destruct (current_job worker) as [l|] eqn:Hl; [|done].
  destruct (Hidle l). by exists key, worker.
Qed.

Lemma holds_dec s k : (∃ l, holds s k l) ∨ (∀ l, ¬ holds s k l).
Proof.
  destruct (workers s !! k) as [[key worker]|] eqn:Hi.
  - destruct (current_job worker) as [l|] eqn:Hl.
    + left. exists l. by exists key, worker.
    + right. intros l (key' & w' & Hi' & Hl'). congruence.
  - right. intros l (key' & w' & Hi' & Hl'). congruence.
Qed.

(** What one step does to the references: the worker it visits holds
    nothing afterwards, every other worker holds what it held. *)
Lemma executor_step_holds now s w k i l :
  consistent s →
  holds (_job_executor_step reg now (s, w) k).1 i l ↔ i ≠ k ∧ holds s i l.
Proof.
  intros Hs. destruct (holds_dec s k) as [[l0 Hh]|Hidle].
  - destruct (executor_step_held now s w k l0 Hs Hh)
      as (job & job' & _ & _ & _ & _ & Hworkers).
    unfold holds. rewrite Hworkers. split.
    + intros (key & worker & Hi & Hl). destruct (decide (i = k)) as [->|Hne].
      * rewrite list_lookup_alter_eq in Hi.
        destruct (workers s !! k) as [[key0 w0]|]; [|done].
        simpl in Hi. injection Hi as <- <-. done.
      * rewrite list_lookup_alter_ne in Hi by done. eauto.
    + intros [Hne (key & worker & Hi & Hl)]. exists key, worker.
      by rewrite list_lookup_alter_ne.
  - rewrite executor_step_idle by done. simpl. split; [|by intros [_ ?]].
    intros Hh. split; [|done]. intros ->. by apply (Hidle l).
Qed.

(** The state after the first [k] workers have been visited; [now i] is
    the clock reading for the worker at position [i]. *)
Lemma executor_prefix (now : nat → Z) s w k :
  consistent s →
  let s' := (foldl (λ sw i, _job_executor_step reg (now i) sw i) (s, w) (seq 0 k)).1 in
  consistent s' ∧ job_queue s' = job_queue s ∧
  (∀ i l, holds s' i l ↔ (k ≤ i)%nat ∧ holds s i l) ∧
  (∀ i l, holds s i l → (k ≤ i)%nat → store s' !! l = store s !! l) ∧
  (∀ i l job, holds s i l → (i < k)%nat → store s !! l = Some job →
     ¬ live s' l ∧
     ∃ job', store s' !! l = Some job' ∧ finished_at (now i) job job').
Proof.
  intros Hs. cbv zeta. induction k as [|k IH].
  { simpl. split; [done|]. split; [done|]. split; [|split; [done|intros; lia]].
    intros i l. split; [intros; split; [lia|done]|by intros [_ ?]]. }
  rewrite seq_S, foldl_snoc. cbn [Nat.add].
  destruct (foldl (λ sw i, _job_executor_step reg (now i) sw i) (s, w) (seq 0 k))
    as [s1 w1].
  cbn [fst] in IH. destruct IH as (Hs1 & Hq1 & Hholds1 & Hlater1 & Hdone1).
  pose proof (consistent_executor_step reg (now k) (s1, w1) k Hs1) as Hs2.
  pose proof (executor_step_holds (now k) s1 w1 k) as Hholds2.
  set (s2 := (_job_executor_step reg (now k) (s1, w1) k).1) in *.
  assert (Hq2 : job_queue s2 = job_queue s1).
  { subst s2. destruct (holds_dec s1 k) as [[l0 Hh]|Hidle].
    - by destruct (executor_step_held (now k) s1 w1 k l0 Hs1 Hh)
        as (job & job' & _ & _ & _ & -> & _).
    - by rewrite executor_step_idle. }
  split; [done|]. split; [congruence|]. split; [|split].
  - intros i l. rewrite Hholds2, Hholds1 by done. split.
    + intros (Hne & Hle & Hh). split; [lia|done].
    + intros (Hle & Hh). split; [lia|]. split; [lia|done].
  - intros i l Hh Hle. rewrite <- (Hlater1 i l Hh) by lia.
    assert (Hh1 : holds s1 i l) by (apply Hholds1; split; [lia|done]).
    subst s2. destruct (holds_dec s1 k) as [[l0 Hh0]|Hidle].
    + destruct (executor_step_held (now k) s1 w1 k l0 Hs1 Hh0)
        as (job & job' & _ & _ & -> & _ & _).
      rewrite list_lookup_insert_ne; [done|]. intros ->.
      pose proof (held_once s1 Hs1 k i l Hh0 Hh1). lia.
    + by rewrite executor_step_idle.
  - intros i l job Hh Hlt Hjob. destruct (decide (i = k)) as [->|Hne].
    + assert (Hh1 : holds s1 k l) by (apply Hholds1; split; [lia|done]).
      destruct (executor_step_held (now k) s1 w1 k l Hs1 Hh1)
        as (job0 & job' & Hjob0 & Hfin & Hstore & _ & _).
      rewrite (Hlater1 k l Hh) in Hjob0 by lia.
      assert (job0 = job) as -> by congruence. split.
      * intros [Hq|[i' Hi']].
        -- rewrite Hq2 in Hq. by apply (held_not_queued s1 Hs1 k l).
        -- apply Hholds2 in Hi' as [Hne Hi']; [|done].
           by apply Hne, (held_once s1 Hs1 i' k l).
      * exists job'. split; [|done]. unfold s2. rewrite Hstore.
        apply list_lookup_insert_eq. apply lookup_lt_Some with job.
        by rewrite (Hlater1 k l Hh) by lia.
    + destruct (Hdone1 i l job Hh ltac:(lia) Hjob) as (Hquiet & job' & Hjob' & Hfin).
      destruct (quiet_executor_step reg (now k) (s1, w1) k l Hquiet) as [Heq Hquiet2].
      split; [done|]. exists job'. split; [|done]. unfold s2. by rewrite Heq.
Qed.

Lemma executor_tick_drains (now : nat → Z) s w :
  consistent s →
  let s' := (_job_executor_tick reg now w s).1 in
  job_queue s' = job_queue s ∧
  (∀ i l, ¬ holds s' i l) ∧
  (∀ i l job, holds s i l → store s !! l = Some job →
     ∃ job', store s' !! l = Some job' ∧ finished_at (now i) job job').
Proof.
  intros Hs. unfold _job_executor_tick.
  destruct (executor_prefix now s w (length (workers s)) Hs)
    as (_ & Hq & Hholds & _ & Hdone).
  assert (Hbound : ∀ i l, holds s i l → (i < length (workers s))%nat).
  { intros i l (key & worker & Hi & _). by eapply lookup_lt_Some. }
  split; [done|]. split.
  - intros i l Hh. apply Hholds in Hh as [Hle Hh]. apply Hbound in Hh. lia.
  - intros i l job Hh Hjob. eapply Hdone; eauto.
Qed.

Lemma staffed_executor_tick (now : nat → Z) s w :
  consistent s → staffed s → staffed (_job_executor_tick reg now w s).1.
Proof.
  intros Hs Hst. unfold _job_executor_tick.
  apply (foldl_invariant
           (λ sw : AutonomousClusterSimulator * World, consistent sw.1 ∧ staffed sw.1));
    [|done].
  intros sw i [? ?]. split; [by apply consistent_executor_step|].
  by apply staffed_executor_step.
Qed.
End ExecutorRound.

(** ** What every job keeps from its creation *)
Section JobsMade.
Implicit Types (s : AutonomousClusterSimulator) (l i : nat) (job : JobTypes.Job).

Lemma job_made_created jt ranges prio draws now r1 r2 r3 :
  (jt, ranges) ∈ job_types →
  job_made (JobTypes.create_job jt prio (Some (gen_params ranges draws)) now r1 r2 r3).
Proof. intros Hin. split; simpl; [eauto|eauto|done|done|done]. Qed.

Lemma job_made_assigned now worker job :
  job_made job → job_made (job_assigned now worker job).
Proof. intros [H1 H2 H3 H4 H5]. by split. Qed.

Lemma job_made_completed now v job : job_made job → job_made (job_completed now v job).
Proof. intros [H1 H2 H3 H4 H5]. by split. Qed.

Lemma job_made_failed now r job : job_made job → job_made (job_failed now r job).
Proof. intros [H1 H2 H3 H4 H5]. by split. Qed.

Lemma job_made_reset job : job_made job → job_made (failure_reset job).
Proof. intros [H1 H2 H3 H4 H5]. split; simpl; [done|done|done|lia|done]. Qed.

Lemma job_made_exhausted job : job_made job → job_made (failure_exhausted job).
Proof. intros [H1 H2 H3 H4 H5]. by split. Qed.

Lemma made_update_job (f : JobTypes.Job → JobTypes.Job) l s :
  (∀ job, job_made job → job_made (f job)) →
  Forall job_made (store s) → Forall job_made (store (update_job l f s)).
Proof. intros Hf Hs. sim_simpl. apply Forall_alter; [done|]. intros job _. apply Hf. Qed.

Lemma made_generator fire d now s :
  Forall job_made (store s) → Forall job_made (store (_job_generator_tick fire d now s)).
Proof.
  intros Hs. unfold _job_generator_tick, _job_generator_emit.
  destruct fire; [|done].
  destruct (random_choice (draw_type d) job_types) as [[jt ranges]|] eqn:Hjt; [|done].
  destruct (random_choice (draw_priority d) priorities) as [prio|]; [|done].
  sim_simpl. apply Forall_app. split; [done|]. apply Forall_singleton.
  apply job_made_created. by eapply list_elem_of_lookup_2.
Qed.

Lemma made_scheduler r now s :
  Forall job_made (store s) → Forall job_made (store (_job_scheduler_tick r now s)).
Proof.
  intros Hs. unfold _job_scheduler_tick. destruct (job_queue s) as [|l0 q]; [done|].
  set (s1 := with_job_queue _ s).
  destruct (available_workers s1) as [|first others]; [done|].
  destruct (job_queue s1) as [|job rest]; [done|].
  destruct (default first (random_choice r (first :: others))) as [i worker].
  apply made_update_job; [|done]. intros j. apply job_made_assigned.
Qed.

Lemma made_executor_step {World : Type}
    (reg : JobTypes.JobExecutorRegistry World) now
    (sw : AutonomousClusterSimulator * World) i :
  Forall job_made (store sw.1) →
  Forall job_made (store (_job_executor_step reg now sw i).1).
Proof.
  destruct sw as [s w]. simpl. intros Hs.
  destruct (workers s !! i) as [[key worker]|]; [|done].
  destruct (current_job worker) as [l|]; [|done].
  destruct (store s !! l) as [job|]; [|done].
  case_bool_decide; [|done].
  destruct (JobTypes.execute_job reg job w) as [r w'].
  destruct r as [v|m|jt]; cbn [fst].
  - apply (made_update_job (job_completed now v) l s); [|done].
    intros j. apply job_made_completed.
  - apply (made_update_job (job_failed now (JobTypes.ExecRaised m)) l s); [|done].
    intros j. apply job_made_failed.
  - apply (made_update_job (job_failed now (JobTypes.NoExecutorFound jt)) l s); [|done].
    intros j. apply job_made_failed.
Qed.

Lemma made_requeue_or_fail l s :
  Forall job_made (store s) → Forall job_made (store (requeue_or_fail l s)).
Proof.
  intros Hs. unfold requeue_or_fail.
  assert (H1 : Forall job_made (store (update_job l failure_reset s))).
  { apply made_update_job; [|done]. intros j. apply job_made_reset. }
  destruct (store (update_job l failure_reset s) !! l) as [job|]; [|done].
  destruct (JobTypes.retry_count job <=? JobTypes.max_retries job); [done|].
  apply (made_update_job failure_exhausted l (update_job l failure_reset s)); [|done].
  intros j. apply job_made_exhausted.
Qed.

Lemma made_failure_default wid s :
  Forall job_made (store s) →
  Forall job_made (store (default s (_simulate_worker_failure wid s))).
Proof.
  intros Hs. unfold _simulate_worker_failure.
  destruct (dict_index wid (workers s)) as [i|]; [|done]. simpl.
  destruct (workers s !! i) as [[key worker]|]; [|done]. simpl.
  destruct (current_job worker) as [l|]; [|done].
  by apply (made_requeue_or_fail l
              (update_stats _ (update_worker i (set_wstatus "failed") s))).
Qed.

Lemma made_apply_event s ev :
  Forall job_made (store s) → Forall job_made (store (apply_event s ev)).
Proof.
  intros Hs.
  destruct ev as [wid p now|fire d now|r now|World bodies w now|fires|fires now
                 |wid|wid now|float_of_str request_json]; cbn [apply_event].
  - done.
  - by apply made_generator.
  - by apply made_scheduler.
  - unfold _job_executor_tick.
    apply (foldl_invariant
             (λ sw : AutonomousClusterSimulator * World, Forall job_made (store sw.1)));
      [|done].
    intros sw i. apply made_executor_step.
  - apply (foldl_invariant (λ s0, Forall job_made (store s0))); [|done].
    intros s0 i Hs0. unfold _fault_injector_step.
    destruct (workers s0 !! i) as [[wid worker]|]; [|done].
    destruct (String.eqb (status worker) "online" && fires i); [|done].
    by apply made_failure_default.
  - apply (foldl_invariant (λ s0, Forall job_made (store s0))); [|done].
    intros s0 i Hs0. unfold _worker_monitor_step.
    destruct (workers s0 !! i) as [[wid worker]|]; [|done].
    destruct (String.eqb (status worker) "online"); [|done].
    destruct (fires i); [by apply made_failure_default|done].
  - by apply made_failure_default.
  - unfold _recover_worker. by destruct (dict_index wid (workers s)).
  - unfold update_job_rate. destruct request_json as [data|e]; [|done].
    destruct (get_rate data) as [v|e]; [|done].
    by destruct (py_float float_of_str v).
Qed.

Lemma made_reachable s : reachable s → Forall job_made (store s).
Proof.
  intros (now & events & ->).
  apply (foldl_invariant (λ s0, Forall job_made (store s0))); [|by constructor].
  intros s0 ev. apply made_apply_event.
Qed.
End JobsMade.

(** ** The default registry, the generator's table and dictionaries *)
Section TableFacts.
Context {World : Type}.
Implicit Types (job : JobTypes.Job) (w : World).

(** [execute_job] on the default registry, by the job's type. *)
Lemma execute_job_default (bodies : JobTypes.ExecutorBodies World) job w :
  JobTypes.execute_job (JobTypes.job_executor_registry bodies) job w =
    if String.eqb (JobTypes.job_type job) "sleep" then
      let '(r, w') := JobTypes.run_sleep bodies job w in (JobTypes.lift_body r, w')
    else if String.eqb (JobTypes.job_type job) "compute" then
      let '(r, w') := JobTypes.run_compute bodies job w in (JobTypes.lift_body r, w')
    else if String.eqb (JobTypes.job_type job) "matrix" then
      let '(r, w') := JobTypes.run_matrix bodies job w in (JobTypes.lift_body r, w')
    else if String.eqb (JobTypes.job_type job) "fault_injection" then
      let '(r, w') := JobTypes.run_fault_injection bodies job w in
      (JobTypes.lift_body r, w')
    else (JobTypes.NoExecutorFound (JobTypes.job_type job), w).
Proof.
  unfold JobTypes.execute_job, JobTypes.job_executor_registry,
    JobTypes._register_default_executors, JobTypes.register; simpl.
  unfold JobTypes.any_can_execute; simpl.
  by repeat destruct (String.eqb (JobTypes.job_type job) _).
Qed.

Lemma execute_job_found (reg : JobTypes.JobExecutorRegistry World) job w :
  is_Some (JobTypes.get_executor reg job) →
  ∀ jt, (JobTypes.execute_job reg job w).1 ≠ JobTypes.NoExecutorFound jt.
Proof.
  intros [e He] jt. unfold JobTypes.execute_job. rewrite He.
  destruct (JobTypes.any_execute e job w) as [[v|m] w']; simpl; congruence.
Qed.

Lemma get_executor_register (reg : JobTypes.JobExecutorRegistry World)
    (e : JobTypes.AnyExecutor World) job :
  JobTypes.get_executor (JobTypes.register e reg) job =
    match JobTypes.get_executor reg job with
    | Some e' => Some e'
    | None => if JobTypes.any_can_execute e job then Some e else None
    end.
Proof.
  unfold JobTypes.register. induction reg as [|e0 reg IH]; simpl; [done|].
  by destruct (JobTypes.any_can_execute e0 job).
Qed.
End TableFacts.

Section DictFacts.
Implicit Types (s : AutonomousClusterSimulator).

Lemma job_types_elem_of jt ranges :
  (jt, ranges) ∈ job_types →
  jt ∈ ["sleep"; "compute"; "matrix"; "fault_injection"].
Proof.
  unfold job_types. rewrite !elem_of_cons, elem_of_nil.
  intros [H|[H|[H|[H|[]]]]]; injection H as -> _; set_solver.
Qed.

Lemma random_randint_range r lo hi :
  lo ≤ hi → lo ≤ random_randint r lo hi ≤ hi.
Proof.
  intros Hle. unfold random_randint.
  pose proof (Z.mod_pos_bound r (hi - lo + 1)). lia.
Qed.

Lemma dict_index_nodup {V : Type} (d : list (string * V)) i k v :
  NoDup d.*1 → d !! i = Some (k, v) → dict_index k d = Some i.
Proof.
  revert i. induction d as [|[k' v'] d IH]; intros i Hnodup Hi; [done|].
  simpl in Hnodup. apply NoDup_cons in Hnodup as [Hnotin Hnodup].
  destruct i as [|i]; simpl in *.
  - injection Hi as -> ->. by rewrite String.eqb_refl.
  - destruct (String.eqb k' k) eqn:Hk.
    + apply String.eqb_eq in Hk as ->. destruct Hnotin.
      apply list_elem_of_fmap. exists (k, v). split; [done|].
      by eapply list_elem_of_lookup_2.
    + by rewrite (IH i Hnodup Hi).
Qed.

Lemma dict_index_Some_elem_of {V : Type} (d : list (string * V)) k :
  k ∈ d.*1 → is_Some (dict_index k d).
Proof.
  induction d as [|[k' v'] d IH]; simpl; [by intros ?%elem_of_nil|].
  intros [->|Hin]%elem_of_cons.
  - rewrite String.eqb_refl. by eexists.
  - destruct (String.eqb k' k); [by eexists|].
    destruct (IH Hin) as [i ->]. by eexists.
Qed.

(** A job that is RUNNING or PENDING but referred to by nothing is not
    live; ended jobs are never live in a consistent state. *)
Lemma ended_not_live s l job :
  consistent s → store s !! l = Some job →
  JobTypes.status job = JobTypes.COMPLETED ∨ JobTypes.status job = JobTypes.FAILED →
  ¬ live s l.
Proof.
  intros Hs Hjob Hst [Hq|[i Hi]].
  - destruct (queued_pending s Hs l job Hq Hjob) as [Hp _].
    destruct Hst; congruence.
  - pose proof (held_running s Hs i l job Hi Hjob). destruct Hst; congruence.
Qed.
End DictFacts.

(** ** Rounds that change nothing twice *)
Section RoundFacts.
Implicit Types (s : AutonomousClusterSimulator).

Lemma insert_desc_head {A : Type} (key : A → Z) (x : A) (l : list A) :
  Forall (λ y, key y ≤ key x) l → insert_desc key x l = x :: l.
Proof.
  destruct l as [|y l]; [done|]. intros Hall. simpl.
  apply Forall_cons in Hall as [Hy _].
  destruct (Z.ltb_spec (key x) (key y)); [lia|done].
Qed.

Lemma sort_desc_fixed {A : Type} (key : A → Z) (l : list A) :
  StronglySorted (desc_order key) l → sort_desc key l = l.
Proof.
  induction 1 as [|x l Hsorted IH Hall]; [done|].
  unfold sort_desc in *. simpl. rewrite IH. by apply insert_desc_head.
Qed.

Lemma sort_desc_idemp {A : Type} (key : A → Z) (l : list A) :
  sort_desc key (sort_desc key l) = sort_desc key l.
Proof. apply sort_desc_fixed, sort_desc_sorted. Qed.

Lemma clamp_rate_idemp (f : PyFloat) : clamp_rate (clamp_rate f) = clamp_rate f.
Proof.
  unfold clamp_rate.
  destruct (float_lt f float_0_1) eqn:Hlt; [done|].
  destruct (float_gt f float_50_0) eqn:Hgt; [done|].
  by rewrite Hlt, Hgt.
Qed.

Lemma lookup_take_drop {A : Type} (xs ys : list A) (k j : nat) :
  (k ≤ length xs)%nat →
  (take k xs ++ drop k ys) !! j = if decide (j < k)%nat then xs !! j else ys !! j.
Proof.
  intros Hk. destruct (decide (j < k)%nat) as [Hlt|Hge].
  - rewrite lookup_app_l by (rewrite length_take; lia). by apply lookup_take_lt.
  - rewrite lookup_app_r by (rewrite length_take; lia).
    rewrite length_take, lookup_drop. f_equal. lia.
Qed.
End RoundFacts.

(** ** Runs in which only the threads call the failure handler *)
Section ThreadRuns.
Implicit Types (s : AutonomousClusterSimulator) (l i : nat) (job : JobTypes.Job).

Lemma tidy_same_workers s s' : workers s' = workers s → tidy s → tidy s'.
Proof. intros Hw Hs i key w. rewrite Hw. apply Hs. Qed.

Lemma tidy_update_worker s i (g : WorkerInfo → WorkerInfo) :
  tidy s →
  (∀ key w, workers s !! i = Some (key, w) →
            is_Some (current_job (g w)) → status (g w) = "busy") →
  tidy (update_worker i g s).
Proof.
  intros Hs Hg i' key w Hi'. sim_simpl. destruct (decide (i = i')) as [<-|Hne].
  - rewrite list_lookup_alter_eq in Hi'.
    destruct (workers s !! i) as [[key0 w0]|] eqn:Hi; [|done].
    simpl in Hi'. injection Hi' as <- <-. by apply (Hg key0).
  - rewrite list_lookup_alter_ne in Hi' by done. by apply (Hs i' key).
Qed.

Lemma tidy_idle s i key w :
  tidy s → workers s !! i = Some (key, w) → status w ≠ "busy" →
  current_job w = None.
Proof.
  intros Hs Hi Hst. destruct (current_job w) as [l|] eqn:Hl; [|done].
  destruct Hst. apply (Hs i key w Hi). by eexists.
Qed.

Lemma never_requeued_update_job (f : JobTypes.Job → JobTypes.Job) l s :
  (∀ job, never_requeued job → never_requeued (f job)) →
  Forall never_requeued (store s) → Forall never_requeued (store (update_job l f s)).
Proof. intros Hf Hs. sim_simpl. apply Forall_alter; [done|]. intros job _. apply Hf. Qed.

(** The failure of a worker that is online, in a tidy state: the worker
    holds no job, so only its status and the two counters change. *)
Lemma failure_of_online_worker s i wid w :
  staffed s → tidy s →
  workers s !! i = Some (wid, w) → status w = "online" →
  _simulate_worker_failure wid s =
    Some (update_stats (λ st, add_active_workers (-1) (add_worker_failures 1 st))
            (update_worker i (set_wstatus "failed") s)).
Proof.
  intros Hstaff Htidy Hi Honline. unfold _simulate_worker_failure.
  rewrite (dict_index_nodup (workers s) i wid w (worker_keys_nodup s Hstaff) Hi).
  simpl. rewrite Hi. simpl.
  rewrite (tidy_idle s i wid w Htidy Hi); [done|]. by rewrite Honline.
Qed.

Lemma thread_failure_default s i wid w :
  staffed s → workers s !! i = Some (wid, w) → status w = "online" →
  tidy s ∧ Forall never_requeued (store s) →
  tidy (default s (_simulate_worker_failure wid s)) ∧
  Forall never_requeued (store (default s (_simulate_worker_failure wid s))).
Proof.
  intros Hstaff Hi Honline [Htidy Hnr].
  rewrite (failure_of_online_worker s i wid w Hstaff Htidy Hi Honline). simpl.
  split; [|done].
  apply (tidy_same_workers (update_worker i (set_wstatus "failed") s)); [done|].
  apply tidy_update_worker; [done|]. intros key w0 Hw0 [l Hl]. simpl in Hl.
  assert (w0 = w) as -> by congruence.
  rewrite (tidy_idle s i wid w Htidy Hi) in Hl; [done|]. by rewrite Honline.
Qed.

Lemma thread_scheduler r now s :
  tidy s ∧ Forall never_requeued (store s) →
  tidy (_job_scheduler_tick r now s) ∧
  Forall never_requeued (store (_job_scheduler_tick r now s)).
Proof.
  intros [Htidy Hnr]. unfold _job_scheduler_tick.
  destruct (job_queue s) as [|l0 q]; [done|].
  set (s1 := with_job_queue _ s).
  destruct (available_workers s1) as [|first others]; [done|].
  destruct (job_queue s1) as [|job rest]; [done|].
  destruct (default first (random_choice r (first :: others))) as [i worker].
  split.
  - apply (tidy_same_workers (update_worker i (worker_assigned job) s)); [done|].
    by apply tidy_update_worker.
  - apply never_requeued_update_job; [|done].
    intros j [Hr Hf]. by split.
Qed.

Lemma thread_executor_step {World : Type}
    (reg : JobTypes.JobExecutorRegistry World) now
    (sw : AutonomousClusterSimulator * World) i :
  tidy sw.1 ∧ Forall never_requeued (store sw.1) →
  tidy (_job_executor_step reg now sw i).1 ∧
  Forall never_requeued (store (_job_executor_step reg now sw i).1).
Proof.
  destruct sw as [s w]. simpl. intros [Htidy Hnr].
  destruct (workers s !! i) as [[key worker]|]; [|done].
  destruct (current_job worker) as [l|]; [|done].
  destruct (store s !! l) as [job|]; [|done].
  case_bool_decide; [|done].
  destruct (JobTypes.execute_job reg job w) as [r w'].
  assert (Hfreed : ∀ s0, workers s0 = workers s →
            tidy (update_worker i worker_freed s0)).
  { intros s0 Hw. apply tidy_update_worker; [by apply (tidy_same_workers s)|].
    by intros key0 w0 _ [l0 Hl0]. }
  destruct r as [v|m|jt]; cbn [fst].
  - split; [by apply Hfreed|].
    apply (never_requeued_update_job (job_completed now v) l s); [|done].
    intros j [Hr Hf]. by split.
  - split; [by apply Hfreed|].
    apply (never_requeued_update_job (job_failed now (JobTypes.ExecRaised m)) l s);
      [|done].
    intros j [Hr Hf]. split; [done|]. by eexists.
  - split; [by apply Hfreed|].
    apply (never_requeued_update_job
             (job_failed now (JobTypes.NoExecutorFound jt)) l s); [|done].
    intros j [Hr Hf]. split; [done|]. by eexists.
Qed.

Lemma thread_generator fire d now s :
  tidy s ∧ Forall never_requeued (store s) →
  tidy (_job_generator_tick fire d now s) ∧
  Forall never_requeued (store (_job_generator_tick fire d now s)).
Proof.
  intros [Htidy Hnr]. unfold _job_generator_tick, _job_generator_emit.
  destruct fire; [|done].
  destruct (random_choice (draw_type d) job_types) as [[jt ranges]|]; [|done].
  destruct (random_choice (draw_priority d) priorities) as [prio|]; [|done].
  split; [done|]. sim_simpl. apply Forall_app. split; [done|].
  apply Forall_singleton. by split.
Qed.

Lemma thread_add_worker wid p now s :
  tidy s ∧ Forall never_requeued (store s) →
  tidy (add_worker wid p now s) ∧ Forall never_requeued (store (add_worker wid p now s)).
Proof.
  intros [Htidy Hnr]. split; [|done].
  intros i key w Hi [l Hl]. unfold add_worker, dict_set in Hi. sim_simpl.
  destruct (dict_index wid (workers s)) as [i0|].
  - apply list_lookup_insert_Some in Hi as [(-> & [= <- <-] & _)|[_ Hi]]; [done|].
    apply (Htidy i key w Hi). by eexists.
  - apply lookup_app_Some in Hi as [Hi|[_ Hi]].
    + apply (Htidy i key w Hi). by eexists.
    + apply list_lookup_singleton_Some in Hi as [_ [= <- <-]]. done.
Qed.

Lemma thread_recover wid now s :
  guarded s (Recover wid now) →
  tidy s ∧ Forall never_requeued (store s) →
  tidy (_recover_worker wid now s) ∧
  Forall never_requeued (store (_recover_worker wid now s)).
Proof.
  intros Hguard [Htidy Hnr]. unfold _recover_worker.
  destruct (dict_index wid (workers s)) as [i|] eqn:Hidx; [|done].
  split; [|done].
  apply (tidy_same_workers
           (update_worker i (λ w, set_last_heartbeat now (set_wstatus "online" w)) s));
    [done|].
  apply tidy_update_worker; [done|]. intros key w Hi [l Hl]. simpl in Hl.
  destruct (dict_index_lookup wid (workers s) i Hidx) as [w0 Hw0].
  assert (key = wid ∧ w0 = w) as [-> ->] by (split; congruence).
  rewrite (tidy_idle s i wid w Htidy Hi) in Hl; [done|].
  by rewrite (Hguard i w Hi).
Qed.

Lemma thread_update_job_rate float_of_str request_json s :
  tidy s ∧ Forall never_requeued (store s) →
  tidy (update_job_rate float_of_str request_json s).2 ∧
  Forall never_requeued (store (update_job_rate float_of_str request_json s).2).
Proof.
  unfold update_job_rate. destruct request_json as [data|e]; [|done].
  destruct (get_rate data) as [v|e]; [|done].
  by destruct (py_float float_of_str v).
Qed.

Lemma thread_apply_event s ev :
  guarded s ev →
  (consistent s ∧ counted s ∧ staffed s) ∧ tidy s ∧ Forall never_requeued (store s) →
  (consistent (apply_event s ev) ∧ counted (apply_event s ev) ∧
   staffed (apply_event s ev)) ∧
  tidy (apply_event s ev) ∧ Forall never_requeued (store (apply_event s ev)).
Proof.
  intros Hguard [Hbook Hthread]. split; [by apply bookkeeping_apply_event|].
  destruct ev as [wid p now|fire d now|r now|World bodies w now|fires|fires now
                 |wid|wid now|float_of_str request_json]; cbn [apply_event].
  - by apply thread_add_worker.
  - by apply thread_generator.
  - by apply thread_scheduler.
  - unfold _job_executor_tick.
    apply (foldl_invariant
             (λ sw : AutonomousClusterSimulator * World,
                tidy sw.1 ∧ Forall never_requeued (store sw.1))); [|done].
    intros sw i. apply thread_executor_step.
  - assert (Hboth : (consistent (_fault_injector_tick fires s) ∧
                     counted (_fault_injector_tick fires s) ∧
                     staffed (_fault_injector_tick fires s)) ∧
                    tidy (_fault_injector_tick fires s) ∧
                    Forall never_requeued (store (_fault_injector_tick fires s)));
      [|by destruct Hboth].
    apply (foldl_invariant
             (λ s0, (consistent s0 ∧ counted s0 ∧ staffed s0) ∧
                    tidy s0 ∧ Forall never_requeued (store s0))); [|done].
    intros s0 i [Hbook0 Hthread0]. unfold _fault_injector_step.
    destruct (workers s0 !! i) as [[wid worker]|] eqn:Hi; [|done].
    destruct (String.eqb (status worker) "online") eqn:Honline; [|done].
    destruct (fires i); [|done]. cbn [andb].
    apply String.eqb_eq in Honline.
    split; [by apply bookkeeping_failure_default|].
    apply (thread_failure_default s0 i wid worker); [apply Hbook0|done..].
  - assert (Hboth : (consistent (_worker_monitor_tick fires now s) ∧
                     counted (_worker_monitor_tick fires now s) ∧
                     staffed (_worker_monitor_tick fires now s)) ∧
                    tidy (_worker_monitor_tick fires now s) ∧
                    Forall never_requeued (store (_worker_monitor_tick fires now s)));
      [|by destruct Hboth].
    apply (foldl_invariant
             (λ s0, (consistent s0 ∧ counted s0 ∧ staffed s0) ∧
                    tidy s0 ∧ Forall never_requeued (store s0))); [|done].
    intros s0 i [Hbook0 Hthread0]. unfold _worker_monitor_step.
    destruct (workers s0 !! i) as [[wid worker]|] eqn:Hi; [|done].
    destruct (String.eqb (status worker) "online") eqn:Honline; [|done].
    apply String.eqb_eq in Honline. destruct (fires i).
    + split; [by apply bookkeeping_failure_default|].
      apply (thread_failure_default s0 i wid worker); [apply Hbook0|done..].
    + destruct Hbook0 as (Hs & Hc & Hst). destruct Hthread0 as [Htidy Hnr].
      split; [split; [|split]|split; [|done]].
      * revert Hs. apply consistent_frame; [done|done|]. intros i' l'.
        by apply holds_update_worker_keep.
      * by apply counted_heartbeat.
      * by apply staffed_heartbeat.
      * apply tidy_update_worker; [done|]. intros key w Hw Hl. simpl in *.
        by apply (Htidy i key w).
  - done.
  - by apply thread_recover.
  - by apply thread_update_job_rate.
Qed.

Lemma thread_run events s :
  guarded_run s events →
  (consistent s ∧ counted s ∧ staffed s) ∧ tidy s ∧ Forall never_requeued (store s) →
  (consistent (run events s) ∧ counted (run events s) ∧ staffed (run events s)) ∧
  tidy (run events s) ∧ Forall never_requeued (store (run events s)).
Proof.
  revert s. induction events as [|ev events IH]; intros s Hrun Hs; [done|].
  destruct Hrun as [Hev Hrest]. simpl. apply IH; [done|].
  by apply thread_apply_event.
Qed.

Lemma thread_init now :
  (consistent (init now) ∧ counted (init now) ∧ staffed (init now)) ∧
  tidy (init now) ∧ Forall never_requeued (store (init now)).
Proof.
  split; [apply bookkeeping_reachable; by exists now, []|].
  split; [by intros i key w Hi|constructor].
Qed.
End ThreadRuns.

(** * Further properties of the code *)

(** ** The counters of [stats] *)

(** X1. In every state the simulator reaches the three job counters agree
    with the job objects: [total_jobs] is the number of jobs created,
    [completed_jobs] the number of them that are COMPLETED and [failed_jobs]
    the number that are FAILED.  So neither counter is negative and
    [completed_jobs + failed_jobs] never exceeds [total_jobs]. *)
Theorem job_counters_match_jobs (s : AutonomousClusterSimulator) :
  reachable s →
  total_jobs (stats s) = Z.of_nat (length (store s)) ∧
  completed_jobs (stats s) = count_status JobTypes.COMPLETED (store s) ∧
  failed_jobs (stats s) = count_status JobTypes.FAILED (store s) ∧
  0 ≤ completed_jobs (stats s) ∧ 0 ≤ failed_jobs (stats s) ∧
  completed_jobs (stats s) + failed_jobs (stats s) ≤ total_jobs (stats s).
Proof.
  intros Hs. destruct (bookkeeping_reachable s Hs) as (_ & [Ht Hc Hf _ _ _] & _).
  pose proof (count_status_nonneg JobTypes.COMPLETED (store s)).
  pose proof (count_status_nonneg JobTypes.FAILED (store s)).
  pose proof (count_status_terminal_le (store s)).
  repeat split; lia.
Qed.

Lemma job_counters_match_jobs_witness :
  reachable Scenarios.retries_exceeded ∧
  failed_jobs (stats Scenarios.retries_exceeded)
    = count_status JobTypes.FAILED (store Scenarios.retries_exceeded) ∧
  failed_jobs (stats Scenarios.retries_exceeded) = 1.
Proof.
  assert (Hreach : reachable Scenarios.retries_exceeded).
  { by exists 0, (Scenarios.retries_used_up_events ++ [Failure "w1"]). }
  split; [exact Hreach|]. split; [|vm_compute; reflexivity].
  apply (job_counters_match_jobs Scenarios.retries_exceeded Hreach).
Defined.

(** X2. In every state the simulator reaches, an entry [jobs[id]] is a job
    whose [job_id] is [id], and [jobs] has at most [total_jobs] entries
    (fewer when two jobs were given the same id). *)
Theorem jobs_dict_keyed_by_job_id (s : AutonomousClusterSimulator) :
  reachable s →
  Z.of_nat (size (jobs s)) ≤ total_jobs (stats s) ∧
  ∀ id l, jobs s !! id = Some l →
          ∃ job, store s !! l = Some job ∧ JobTypes.job_id job = id.
Proof.
  intros Hs. destruct (bookkeeping_reachable s Hs) as (_ & [Ht _ _ Hidx Hsize _] & _).
  split; [lia|done].
Qed.

Lemma jobs_dict_keyed_by_job_id_witness :
  reachable Scenarios.colliding_emissions ∧
  Z.of_nat (size (jobs Scenarios.colliding_emissions))
    ≤ total_jobs (stats Scenarios.colliding_emissions) ∧
  size (jobs Scenarios.colliding_emissions) = 1%nat ∧
  total_jobs (stats Scenarios.colliding_emissions) = 2.
Proof.
  assert (Hreach : reachable Scenarios.colliding_emissions).
  { by exists 0, [Generate true (Scenarios.draws 0) 1; Generate true (Scenarios.draws 0) 2]. }
  split; [exact Hreach|].
  split; [apply (jobs_dict_keyed_by_job_id Scenarios.colliding_emissions Hreach)|].
  split; vm_compute; reflexivity.
Defined.

(** ** Workers *)

(** X3. In every state the simulator reaches, a worker is stored under its
    own [worker_id]; its status is online, busy or failed (offline is never
    assigned); a busy worker has a current job; a failed worker has none, so
    that a failed worker is never available. *)
Theorem workers_well_formed
    (s : AutonomousClusterSimulator) (i : nat) (key : string) (w : WorkerInfo) :
  reachable s →
  workers s !! i = Some (key, w) →
  worker_id w = key ∧
  (status w = "online" ∨ status w = "busy" ∨ status w = "failed") ∧
  (status w = "busy" → is_Some (current_job w)) ∧
  (status w = "failed" → current_job w = None ∧ is_available w = false).
Proof.
  intros Hs Hi. destruct (bookkeeping_reachable s Hs) as (_ & _ & [Hok _ _]).
  destruct (Hok i key w Hi) as [Hkey Hst Hbusy Hfailed].
  split; [done|]. split; [done|]. split; [done|].
  intros Hf. split; [by apply Hfailed|]. unfold is_available. by rewrite Hf.
Qed.

Lemma workers_well_formed_witness :
  reachable Scenarios.retries_exceeded ∧
  ∃ w, workers Scenarios.retries_exceeded !! 0%nat = Some ("w1", w) ∧
       status w = "failed" ∧ worker_id w = "w1".
Proof.
  assert (Hreach : reachable Scenarios.retries_exceeded).
  { by exists 0, (Scenarios.retries_used_up_events ++ [Failure "w1"]). }
  split; [exact Hreach|]. eexists. split; [vm_compute; reflexivity|].
  split; [vm_compute; reflexivity|].
  eapply (workers_well_formed Scenarios.retries_exceeded 0 "w1");
    [exact Hreach|vm_compute; reflexivity].
Defined.

(** X4. In every state the simulator reaches, the job a worker holds is
    RUNNING, records that worker's id and a start time, has retries left, is
    not in the queue and is held by no other worker. *)
Theorem held_job_runs_on_its_worker
    (s : AutonomousClusterSimulator) (i : nat) (key : string) (w : WorkerInfo)
    (l : nat) :
  reachable s →
  workers s !! i = Some (key, w) →
  current_job w = Some l →
  (∃ job, store s !! l = Some job ∧
          JobTypes.status job = JobTypes.RUNNING ∧
          JobTypes.worker_id job = Some (worker_id w) ∧
          is_Some (JobTypes.started_at job) ∧
          JobTypes.retry_count job ≤ JobTypes.max_retries job) ∧
  (l ∉ job_queue s) ∧
  (∀ i' key' w', workers s !! i' = Some (key', w') → current_job w' = Some l → i' = i).
Proof.
  intros Hs Hi Hl.
  destruct (bookkeeping_reachable s Hs) as (Hcons & Hcount & Hstaff).
  assert (Hh : holds s i l) by (by exists key, w).
  assert (Hlive : live s l) by (right; eauto).
  destruct (live_allocated s l Hcons Hlive) as [job Hjob].
  pose proof (held_running s Hcons i l job Hh Hjob) as Hrun.
  split; [|split].
  - exists job. split; [done|]. split; [done|].
    split; [by eapply (held_names_worker s Hstaff)|].
    split; [by apply (jobs_timed s Hcount l job Hjob)|].
    by eapply live_retries_left.
  - by apply (held_not_queued s Hcons i).
  - intros i' key' w' Hi' Hl'. apply (held_once s Hcons i' i l); [|done].
    by exists key', w'.
Qed.

Lemma held_job_runs_on_its_worker_witness :
  reachable Scenarios.retries_used_up ∧
  ∃ job, store Scenarios.retries_used_up !! 0%nat = Some job ∧
         JobTypes.status job = JobTypes.RUNNING ∧
         JobTypes.worker_id job = Some "w1".
Proof.
  assert (Hreach : reachable Scenarios.retries_used_up).
  { by exists 0, Scenarios.retries_used_up_events. }
  split; [exact Hreach|].
  destruct (held_job_runs_on_its_worker Scenarios.retries_used_up 0 "w1"
              (mkWorkerInfo "w1" "busy" (Some 0%nat) 30 (FNum 0) 30) 0 Hreach)
    as [(job & Hjob & Hrun & Hw & _) _];
    [vm_compute; reflexivity|reflexivity|].
  exists job. by repeat split.
Defined.

(** ** The queue *)

(** X5. In every state the simulator reaches, the queue holds no job twice,
    and a queued job is PENDING with no worker, no start time (hence no
    duration) and retries left. *)
Theorem queued_jobs_wait_unassigned (s : AutonomousClusterSimulator) :
  reachable s →
  NoDup (job_queue s) ∧
  ∀ l, l ∈ job_queue s →
       ∃ job, store s !! l = Some job ∧
              JobTypes.status job = JobTypes.PENDING ∧
              JobTypes.worker_id job = None ∧
              JobTypes.started_at job = None ∧
              JobTypes.duration job = None ∧
              JobTypes.retry_count job ≤ JobTypes.max_retries job.
Proof.
  intros Hs. destruct (bookkeeping_reachable s Hs) as (Hcons & _ & _).
  split; [by apply (queue_nodup s)|]. intros l Hl.
  assert (Hlive : live s l) by (by left).
  destruct (live_allocated s l Hcons Hlive) as [job Hjob].
  destruct (queued_pending s Hcons l job Hl Hjob) as (Hp & Hw & Hst).
  exists job. repeat split; try done.
  - unfold JobTypes.duration. by rewrite Hst.
  - by eapply live_retries_left.
Qed.

Lemma queued_jobs_wait_unassigned_witness :
  reachable Scenarios.two_jobs_two_workers ∧
  NoDup (job_queue Scenarios.two_jobs_two_workers) ∧
  job_queue Scenarios.two_jobs_two_workers = [0; 1]%nat.
Proof.
  assert (Hreach : reachable Scenarios.two_jobs_two_workers).
  { by exists 0, [AddWorker "w1" (FNum 0) 0; AddWorker "w2" (FNum 0) 0;
                  Generate true (Scenarios.draws 0) 1;
                  Generate true (Scenarios.draws 1) 2]. }
  split; [exact Hreach|]. split; [|vm_compute; reflexivity].
  apply (queued_jobs_wait_unassigned Scenarios.two_jobs_two_workers Hreach).
Defined.

(** ** Jobs *)

(** X6. In every state the simulator reaches, a RUNNING job has a start
    time and a worker id; a COMPLETED job has a completion time, a
    [duration] and a result; a FAILED job has an error message. *)
Theorem job_fields_follow_status
    (s : AutonomousClusterSimulator) (l : nat) (job : JobTypes.Job) :
  reachable s →
  store s !! l = Some job →
  (JobTypes.status job = JobTypes.RUNNING →
   is_Some (JobTypes.started_at job) ∧ is_Some (JobTypes.worker_id job)) ∧
  (JobTypes.status job = JobTypes.COMPLETED →
   is_Some (JobTypes.completed_at job) ∧ is_Some (JobTypes.duration job) ∧
   is_Some (JobTypes.result job)) ∧
  (JobTypes.status job = JobTypes.FAILED → is_Some (JobTypes.error_message job)).
Proof.
  intros Hs Hjob. destruct (bookkeeping_reachable s Hs) as (Hcons & Hcount & _).
  destruct (jobs_timed s Hcount l job Hjob) as [Hrun Hdone Hfail].
  pose proof (jobs_ok s Hcons l job Hjob) as Hok.
  split; [done|]. split; [|done]. intros Hst.
  split; [by apply (completed_has_time job Hok)|by apply Hdone].
Qed.

Lemma job_fields_follow_status_witness :
  reachable Scenarios.completed_job ∧
  ∃ job, store Scenarios.completed_job !! 0%nat = Some job ∧
         JobTypes.status job = JobTypes.COMPLETED ∧
         JobTypes.duration job = Some 1 ∧
         is_Some (JobTypes.result job).
Proof.
  assert (Hreach : reachable Scenarios.completed_job).
  { by exists 0, (Scenarios.busy_worker_events
                  ++ [Execute unit Scenarios.quick_bodies tt (λ _, 3)]). }
  split; [exact Hreach|]. eexists. split; [vm_compute; reflexivity|].
  split; [vm_compute; reflexivity|]. split; [vm_compute; reflexivity|].
  eapply (job_fields_follow_status Scenarios.completed_job 0);
    [exact Hreach|vm_compute; reflexivity|vm_compute; reflexivity].
Defined.

(** X7. In every state the simulator reaches, no job is CANCELLED, every
    job has the [max_retries] 3 it was created with, and its [retry_count]
    lies between 0 and 4, where 4 is met only in a FAILED job. *)
Theorem jobs_keep_retry_limit
    (s : AutonomousClusterSimulator) (l : nat) (job : JobTypes.Job) :
  reachable s →
  store s !! l = Some job →
  JobTypes.status job ≠ JobTypes.CANCELLED ∧
  JobTypes.max_retries job = 3 ∧
  0 ≤ JobTypes.retry_count job ≤ 4 ∧
  (JobTypes.retry_count job = 4 → JobTypes.status job = JobTypes.FAILED).
Proof.
  intros Hs Hjob. destruct (bookkeeping_reachable s Hs) as (Hcons & _ & _).
  pose proof (made_reachable s Hs) as Hmade.
  rewrite Forall_lookup in Hmade. destruct (Hmade l job Hjob) as [_ _ Hmax Hnn Hnc].
  destruct (jobs_ok s Hcons l job Hjob) as [Hb Hex _ _].
  split; [done|]. split; [done|]. split; [lia|].
  intros H4. apply Hex. lia.
Qed.

Lemma jobs_keep_retry_limit_witness :
  reachable Scenarios.retries_exceeded ∧
  ∃ job, store Scenarios.retries_exceeded !! 0%nat = Some job ∧
         JobTypes.retry_count job = 4 ∧ JobTypes.max_retries job = 3.
Proof.
  assert (Hreach : reachable Scenarios.retries_exceeded).
  { by exists 0, (Scenarios.retries_used_up_events ++ [Failure "w1"]). }
  split; [exact Hreach|]. eexists. split; [vm_compute; reflexivity|].
  split; [vm_compute; reflexivity|].
  eapply (jobs_keep_retry_limit Scenarios.retries_exceeded 0);
    [exact Hreach|vm_compute; reflexivity].
Defined.

(** X8. In every state the simulator reaches, every job has an executor in
    the default registry: executing it never raises the registry's
    "No executor found" error, whatever the executors' bodies do. *)
Theorem stored_jobs_have_an_executor {World : Type}
    (bodies : JobTypes.ExecutorBodies World) (w : World)
    (s : AutonomousClusterSimulator) (l : nat) (job : JobTypes.Job) :
  reachable s →
  store s !! l = Some job →
  is_Some (JobTypes.get_executor (JobTypes.job_executor_registry bodies) job) ∧
  ∀ jt, (JobTypes.execute_job (JobTypes.job_executor_registry bodies) job w).1
        ≠ JobTypes.NoExecutorFound jt.
Proof.
  intros Hs Hjob. pose proof (made_reachable s Hs) as Hmade.
  rewrite Forall_lookup in Hmade.
  destruct (Hmade l job Hjob) as [(ranges & draws & Hin & _) _ _ _ _].
  apply job_types_elem_of in Hin.
  assert (Hsome : is_Some (JobTypes.get_executor
                             (JobTypes.job_executor_registry bodies) job)).
  { destruct (JobTypes.get_executor _ job) eqn:Hget; [by eexists|].
    by apply default_registry_none in Hget. }
  split; [done|]. by apply execute_job_found.
Qed.

Lemma stored_jobs_have_an_executor_witness :
  reachable Scenarios.busy_worker ∧
  ∃ job, store Scenarios.busy_worker !! 0%nat = Some job ∧
         is_Some (JobTypes.get_executor
                    (JobTypes.job_executor_registry Scenarios.quick_bodies) job).
Proof.
  assert (Hreach : reachable Scenarios.busy_worker).
  { by exists 0, Scenarios.busy_worker_events. }
  split; [exact Hreach|]. eexists. split; [vm_compute; reflexivity|].
  eapply (stored_jobs_have_an_executor Scenarios.quick_bodies tt Scenarios.busy_worker 0);
    [exact Hreach|vm_compute; reflexivity].
Defined.



(** X10. A job that is COMPLETED or FAILED in a state the simulator
    reaches is never changed again: after any further events the job object
    is what it was. *)
Theorem ended_jobs_never_change
    (s : AutonomousClusterSimulator) (l : nat) (job : JobTypes.Job)
    (events : list Event) :
  reachable s →
  store s !! l = Some job →
  JobTypes.status job = JobTypes.COMPLETED ∨ JobTypes.status job = JobTypes.FAILED →
  store (run events s) !! l = Some job.
Proof.
  intros Hs Hjob Hst. destruct (bookkeeping_reachable s Hs) as (Hcons & _ & _).
  apply quiet_run; [done|]. by eapply ended_not_live.
Qed.

Lemma ended_jobs_never_change_witness :
  reachable Scenarios.completed_job ∧
  store (run [Failure "w1"; Recover "w1" 9; Schedule 0 10; Generate true (Scenarios.draws 1) 11]
             Scenarios.completed_job) !! 0%nat
    = store Scenarios.completed_job !! 0%nat.
Proof.
  assert (Hreach : reachable Scenarios.completed_job).
  { by exists 0, (Scenarios.busy_worker_events
                  ++ [Execute unit Scenarios.quick_bodies tt (λ _, 3)]). }
  split; [exact Hreach|].
  rewrite (ended_jobs_never_change Scenarios.completed_job 0
             (JobTypes.mkJob "io-standard-1000" "sleep" JobTypes.NORMAL JobTypes.COMPLETED
                1 (Some 2) (Some 3) (Some "w1") [("duration", PyInt 1)]
                (Some (PyStr "slept")) None 0 3)
             _ Hreach);
    [vm_compute; reflexivity|vm_compute; reflexivity|by left].
Defined.

(** X11. One round of the executor runner, from a state the simulator
    reaches, ends every job a worker holds: the job becomes COMPLETED or
    FAILED with the clock reading taken for it as completion time, keeping
    its start time and worker id.  After the round no worker holds a job or
    is busy, and the queue is as before. *)
Theorem executor_round_ends_held_jobs {World : Type}
    (reg : JobTypes.JobExecutorRegistry World) (now : nat → Z) (w : World)
    (s : AutonomousClusterSimulator) :
  reachable s →
  let s' := (_job_executor_tick reg now w s).1 in
  job_queue s' = job_queue s ∧
  (∀ i key worker,
     workers s' !! i = Some (key, worker) →
     current_job worker = None ∧ status worker ≠ "busy") ∧
  (∀ i key worker l job,
     workers s !! i = Some (key, worker) →
     current_job worker = Some l →
     store s !! l = Some job →
     ∃ job',
       store s' !! l = Some job' ∧
       (JobTypes.status job' = JobTypes.COMPLETED ∨
        JobTypes.status job' = JobTypes.FAILED) ∧
       JobTypes.completed_at job' = Some (now i) ∧
       JobTypes.started_at job' = JobTypes.started_at job ∧
       JobTypes.worker_id job' = JobTypes.worker_id job).
Proof.
  intros Hs. destruct (bookkeeping_reachable s Hs) as (Hcons & _ & Hstaff).
  destruct (executor_tick_drains reg now s w Hcons) as (Hq & Hnone & Hdone).
  pose proof (staffed_executor_tick reg now s w Hcons Hstaff) as Hstaff'.
  cbv zeta. split; [done|]. split.
  - intros i key worker Hi.
    assert (Hfree : current_job worker = None).
    { destruct (current_job worker) as [l|] eqn:Hl; [|done].
      destruct (Hnone i l). by exists key, worker. }
    split; [done|]. intros Hbusy.
    destruct (busy_has_job key worker (workers_ok _ Hstaff' i key worker Hi) Hbusy)
      as [l Hl].
    congruence.
  - intros i key worker l job Hi Hl Hjob.
    destruct (Hdone i l job) as (job' & Hjob' & [Hst Htime _ Hstart Hwid _]);
      [by exists key, worker|done|].
    by exists job'.
Qed.

Lemma executor_round_ends_held_jobs_witness :
  reachable Scenarios.two_busy_workers ∧
  ∃ job0 job1,
    store (_job_executor_tick (JobTypes.job_executor_registry Scenarios.quick_bodies)
             (λ i, 6 + Z.of_nat i) tt Scenarios.two_busy_workers).1 !! 0%nat
      = Some job0 ∧
    store (_job_executor_tick (JobTypes.job_executor_registry Scenarios.quick_bodies)
             (λ i, 6 + Z.of_nat i) tt Scenarios.two_busy_workers).1 !! 1%nat
      = Some job1 ∧
    JobTypes.completed_at job0 = Some 6 ∧ JobTypes.completed_at job1 = Some 7.
Proof.
  assert (Hreach : reachable Scenarios.two_busy_workers).
  { by exists 0, Scenarios.two_busy_workers_events. }
  split; [exact Hreach|].
  destruct (executor_round_ends_held_jobs
              (JobTypes.job_executor_registry Scenarios.quick_bodies)
              (λ i, 6 + Z.of_nat i) tt Scenarios.two_busy_workers Hreach)
    as (_ & _ & Hdone).
  edestruct (Hdone 0%nat) as (job0 & Hjob0 & _ & Htime0 & _);
    [vm_compute; reflexivity..|].
  edestruct (Hdone 1%nat) as (job1 & Hjob1 & _ & Htime1 & _);
    [vm_compute; reflexivity..|].
  exists job0, job1. by repeat split.
Defined.

(** ** The executor registry *)

(** X12. [register] appends: the executor found for a job after a
    registration is the one found before, and the new executor is found only
    for jobs that no earlier executor accepts.  So an executor registered
    after the defaults never takes over a sleep, compute, matrix or
    fault_injection job. *)
Theorem register_keeps_earlier_executors {World : Type}
    (bodies : JobTypes.ExecutorBodies World)
    (reg : JobTypes.JobExecutorRegistry World) (e : JobTypes.AnyExecutor World)
    (job : JobTypes.Job) (w : World) :
  JobTypes.get_executor (JobTypes.register e reg) job =
    match JobTypes.get_executor reg job with
    | Some e' => Some e'
    | None => if JobTypes.any_can_execute e job then Some e else None
    end ∧
  (JobTypes.job_type job ∈ ["sleep"; "compute"; "matrix"; "fault_injection"] →
   JobTypes.execute_job
     (JobTypes.register e (JobTypes.job_executor_registry bodies)) job w
   = JobTypes.execute_job (JobTypes.job_executor_registry bodies) job w).
Proof.
  split; [apply get_executor_register|]. intros Hjt.
  unfold JobTypes.execute_job at 1 2. rewrite get_executor_register.
  destruct (JobTypes.get_executor (JobTypes.job_executor_registry bodies) job)
    as [e'|] eqn:Hget; [done|].
  by apply default_registry_none in Hget.
Qed.

(** X13. A job made by one of the four convenience constructors is run by
    the executor of its kind: on the default registry [execute_job] returns
    what the body of that executor returns or raises, and never the
    "No executor found" error. *)
Theorem convenience_jobs_reach_their_executor {World : Type}
    (bodies : JobTypes.ExecutorBodies World) (w : World)
    (v v' : PyVal) (prio : JobTypes.JobPriority) (now : Z) (r1 r2 : nat) (r3 : Z) :
  let reg := JobTypes.job_executor_registry bodies in
  let run body job :=
    let '(r, w') := body job w in (JobTypes.lift_body r, w') in
  JobTypes.execute_job reg (JobTypes.create_sleep_job v prio now r1 r2 r3) w
    = run (JobTypes.run_sleep bodies) (JobTypes.create_sleep_job v prio now r1 r2 r3) ∧
  JobTypes.execute_job reg (JobTypes.create_compute_job v prio now r1 r2 r3) w
    = run (JobTypes.run_compute bodies)
          (JobTypes.create_compute_job v prio now r1 r2 r3) ∧
  JobTypes.execute_job reg (JobTypes.create_matrix_job v prio now r1 r2 r3) w
    = run (JobTypes.run_matrix bodies) (JobTypes.create_matrix_job v prio now r1 r2 r3) ∧
  JobTypes.execute_job reg (JobTypes.create_fault_injection_job v v' prio now r1 r2 r3) w
    = run (JobTypes.run_fault_injection bodies)
          (JobTypes.create_fault_injection_job v v' prio now r1 r2 r3).
Proof. cbv zeta. rewrite !execute_job_default. by repeat split. Qed.

(** ** Workers that are unknown, added twice, failed and recovered *)

(** X14. [_simulate_worker_failure] raises KeyError exactly when the id is
    not a key of [workers]; [_recover_worker] with such an id changes
    nothing. *)
Theorem unknown_worker_fails_with_key_error
    (s : AutonomousClusterSimulator) (wid : string) (now : Z) :
  (_simulate_worker_failure wid s = None ↔ wid ∉ (workers s).*1) ∧
  (wid ∉ (workers s).*1 → _recover_worker wid now s = s).
Proof.
  assert (Hidx : wid ∉ (workers s).*1 → dict_index wid (workers s) = None).
  { intros Hnotin. destruct (dict_index wid (workers s)) as [i|] eqn:Hi; [|done].
    destruct (dict_index_lookup wid (workers s) i Hi) as [v Hv]. destruct Hnotin.
    apply list_elem_of_fmap. exists (wid, v). split; [done|].
    by eapply list_elem_of_lookup_2. }
  split; [split|].
  - unfold _simulate_worker_failure. intros Hnone.
    destruct (dict_index wid (workers s)) as [i|] eqn:Hi.
    + destruct (dict_index_lookup wid (workers s) i Hi) as [v Hv].
      simpl in Hnone. by rewrite Hv in Hnone.
    + by apply dict_index_None.
  - intros Hnotin. unfold _simulate_worker_failure. by rewrite (Hidx Hnotin).
  - intros Hnotin. by apply _recover_worker_unknown, Hidx.
Qed.

(** X15. [add_worker] stores a worker that is online, idle and stamped with
    the current time, and always adds 1 to [active_workers].  With a new id
    the worker goes last; with an id that is already a key it takes the
    place of the old worker, so that the number of workers stays while the
    counter grows. *)
Theorem add_worker_appends_or_replaces
    (s : AutonomousClusterSimulator) (wid : string) (p : PyFloat) (now : Z) :
  let fresh := mkWorkerInfo wid "online" None now p (sim_recovery_time s) in
  let s' := add_worker wid p now s in
  is_available fresh = true ∧
  active_workers (stats s') = active_workers (stats s) + 1 ∧
  store s' = store s ∧ job_queue s' = job_queue s ∧ jobs s' = jobs s ∧
  (wid ∉ (workers s).*1 → workers s' = workers s ++ [(wid, fresh)]) ∧
  (wid ∈ (workers s).*1 →
   ∃ i old, workers s !! i = Some (wid, old) ∧
            workers s' = <[i := (wid, fresh)]> (workers s) ∧
            length (workers s') = length (workers s)).
Proof.
  cbv zeta. unfold add_worker. sim_simpl. repeat split.
  - intros Hnotin. unfold dict_set.
    destruct (dict_index wid (workers s)) as [i|] eqn:Hi; [|done].
    destruct (dict_index_lookup wid (workers s) i Hi) as [v Hv]. destruct Hnotin.
    apply list_elem_of_fmap. exists (wid, v). split; [done|].
    by eapply list_elem_of_lookup_2.
  - intros Hin. destruct (dict_index_Some_elem_of (workers s) wid Hin) as [i Hi].
    destruct (dict_index_lookup wid (workers s) i Hi) as [old Hold].
    exists i, old. unfold dict_set. rewrite Hi. split; [done|]. split; [done|].
    apply length_insert.
Qed.

(** X16. When [add_worker] is called with the id of a worker that holds a
    job, in a state the simulator reaches, the job is left behind: whatever
    happens afterwards, the job object stays as it is, RUNNING, in no queue
    and held by no worker. *)
Theorem readded_worker_abandons_its_job
    (s : AutonomousClusterSimulator) (i : nat) (wid : string) (w : WorkerInfo)
    (l : nat) (job : JobTypes.Job) (p : PyFloat) (now : Z) (events : list Event) :
  reachable s →
  workers s !! i = Some (wid, w) →
  current_job w = Some l →
  store s !! l = Some job →
  let s' := run events (add_worker wid p now s) in
  JobTypes.status job = JobTypes.RUNNING ∧
  store s' !! l = Some job ∧
  (l ∉ job_queue s') ∧
  (∀ i' key' w', workers s' !! i' = Some (key', w') → current_job w' ≠ Some l).
Proof.
  intros Hs Hi Hl Hjob. destruct (bookkeeping_reachable s Hs) as (Hcons & _ & Hstaff).
  assert (Hh : holds s i l) by (by exists wid, w).
  assert (Hquiet : ¬ live (add_worker wid p now s) l).
  { intros [Hq|[i' (key' & w' & Hi' & Hl')]].
    - by apply (held_not_queued s Hcons i l).
    - unfold add_worker, dict_set in Hi'. sim_simpl.
      rewrite (dict_index_nodup (workers s) i wid w (worker_keys_nodup s Hstaff) Hi)
        in Hi'.
      apply list_lookup_insert_Some in Hi' as [(-> & [= <- <-] & _)|[Hne Hi']].
      + done.
      + apply Hne. symmetry. apply (held_once s Hcons i' i l); [|done].
        by exists key', w'. }
  destruct (quiet_run events (add_worker wid p now s) l job Hjob Hquiet)
    as [Hkept Hquiet'].
  cbv zeta. split; [by apply (held_running s Hcons i l)|]. split; [done|].
  split.
  - intros Hq. apply Hquiet'. by left.
  - intros i' key' w' Hi' Hl'. apply Hquiet'. right. exists i'. by exists key', w'.
Qed.

Lemma readded_worker_abandons_its_job_witness :
  reachable Scenarios.busy_worker ∧
  ∃ job,
    store (run [Execute unit Scenarios.quick_bodies tt (λ _, 7); Schedule 0 8]
               (add_worker "w1" (FNum 0) 5 Scenarios.busy_worker)) !! 0%nat = Some job ∧
    JobTypes.status job = JobTypes.RUNNING.
Proof.
  assert (Hreach : reachable Scenarios.busy_worker).
  { by exists 0, Scenarios.busy_worker_events. }
  split; [exact Hreach|].
  destruct (readded_worker_abandons_its_job Scenarios.busy_worker 0 "w1"
              (mkWorkerInfo "w1" "busy" (Some 0%nat) 0 (FNum 0) 30) 0
              (JobTypes.mkJob "io-standard-1000" "sleep" JobTypes.NORMAL JobTypes.RUNNING
                 1 (Some 2) None (Some "w1") [("duration", PyInt 1)] None None 0 3)
              (FNum 0) 5 [Execute unit Scenarios.quick_bodies tt (λ _, 7); Schedule 0 8] Hreach)
    as (Hrun & Hkept & _); [vm_compute; reflexivity..|].
  eexists. split; [exact Hkept|exact Hrun].
Defined.

(** X17. When an idle worker fails and then recovers, it is online again
    with the recovery's time as heartbeat; jobs, queue and [active_workers]
    are as before the failure, and [worker_failures] and
    [worker_recoveries] have each grown by one. *)
Theorem idle_worker_fails_and_recovers
    (s : AutonomousClusterSimulator) (i : nat) (wid : string) (w : WorkerInfo)
    (now : Z) :
  dict_index wid (workers s) = Some i →
  workers s !! i = Some (wid, w) →
  current_job w = None →
  ∃ s1,
    _simulate_worker_failure wid s = Some s1 ∧
    workers s1 = <[i := (wid, set_wstatus "failed" w)]> (workers s) ∧
    let s2 := _recover_worker wid now s1 in
    workers s2
      = <[i := (wid, set_last_heartbeat now (set_wstatus "online" w))]> (workers s) ∧
    store s2 = store s ∧ job_queue s2 = job_queue s ∧ jobs s2 = jobs s ∧
    active_workers (stats s2) = active_workers (stats s) ∧
    worker_failures (stats s2) = worker_failures (stats s) + 1 ∧
    worker_recoveries (stats s2) = worker_recoveries (stats s) + 1.
Proof.
  intros Hidx Hi Hidle. eexists. split.
  { unfold _simulate_worker_failure. rewrite Hidx. simpl. rewrite Hi. simpl.
    rewrite Hidle. reflexivity. }
  split; [sim_simpl; by rewrite (alter_as_insert _ _ i (wid, w) Hi)|].
  cbv zeta. rewrite (_recover_worker_known _ wid i now)
    by (by rewrite dict_index_update_stats_worker).
  sim_simpl. repeat split; try (simpl; lia).
  rewrite list_alter_alter_eq.
  by rewrite (alter_as_insert _ _ i (wid, w) Hi).
Qed.

Lemma idle_worker_fails_and_recovers_witness :
  ∃ s1, _simulate_worker_failure "w1" (add_worker "w1" (FNum 0) 0 (init 0)) = Some s1 ∧
        active_workers (stats (_recover_worker "w1" 9 s1)) = 1.
Proof.
  destruct (idle_worker_fails_and_recovers (add_worker "w1" (FNum 0) 0 (init 0)) 0 "w1"
              (mkWorkerInfo "w1" "online" None 0 (FNum 0) 30) 9)
    as (s1 & Hfail & _ & _ & _ & _ & _ & Hactive & _); [reflexivity..|].
  exists s1. split; [exact Hfail|]. rewrite Hactive. reflexivity.
Defined.

(** ** Rounds and requests that repeat *)

(** X18. A round of the heartbeat monitor in which no failure is drawn
    stamps the round's time on every online worker and changes nothing
    else: workers that are busy or failed keep their heartbeat. *)
Theorem monitor_round_stamps_online_workers
    (fires : nat → bool) (now : Z) (s : AutonomousClusterSimulator) :
  (∀ i, fires i = false) →
  _worker_monitor_tick fires now s =
    with_workers
      ((λ kv, (kv.1, if String.eqb (status kv.2) "online"
                     then set_last_heartbeat now kv.2 else kv.2)) <$> workers s)
      s.
Proof.
  intros Hfires. unfold _worker_monitor_tick.
  set (g := λ kv : string * WorkerInfo,
              (kv.1, if String.eqb (status kv.2) "online"
                     then set_last_heartbeat now kv.2 else kv.2)).
  assert (Hlen : length (g <$> workers s) = length (workers s)) by apply length_fmap.
  assert (Hprefix : ∀ k, (k ≤ length (workers s))%nat →
    foldl (_worker_monitor_step fires now) s (seq 0 k)
      = with_workers (take k (g <$> workers s) ++ drop k (workers s)) s).
  { induction k as [|k IH]; intros Hk.
    { simpl. by destruct s. }
    rewrite seq_S, foldl_snoc, IH by lia. cbn [Nat.add].
    set (Wk := take k (g <$> workers s) ++ drop k (workers s)).
    assert (HWk : ∀ j, Wk !! j
              = if decide (j < k)%nat then (g <$> workers s) !! j else workers s !! j).
    { intros j. apply lookup_take_drop. lia. }
    destruct (lookup_lt_is_Some_2 (workers s) k) as [[key worker] Hw]; [lia|].
    assert (Hk' : Wk !! k = Some (key, worker)).
    { rewrite HWk. destruct (decide (k < k)%nat); [lia|done]. }
    assert (Hg : (g <$> workers s) !! k = Some (g (key, worker))).
    { by rewrite list_lookup_fmap, Hw. }
    unfold _worker_monitor_step. cbn [workers with_workers]. rewrite Hk'.
    destruct (String.eqb (status worker) "online") eqn:Honline.
    - rewrite Hfires. unfold update_worker, with_workers. cbn [workers store jobs
        job_queue running job_generation_rate failure_rate sim_recovery_time stats].
      f_equal. apply list_eq. intros j. rewrite lookup_take_drop by lia.
      destruct (decide (j = k)) as [->|Hne].
      + rewrite list_lookup_alter_eq, Hk'. destruct (decide (k < S k)%nat); [|lia].
        rewrite Hg. unfold g. simpl. by rewrite Honline.
      + rewrite list_lookup_alter_ne, HWk by done.
        destruct (decide (j < k)%nat), (decide (j < S k)%nat); try lia; done.
    - f_equal. apply list_eq. intros j. rewrite lookup_take_drop, HWk by lia.
      destruct (decide (j = k)) as [->|Hne].
      + destruct (decide (k < k)%nat), (decide (k < S k)%nat); try lia.
        rewrite Hg, Hw. unfold g. simpl. by rewrite Honline.
      + destruct (decide (j < k)%nat), (decide (j < S k)%nat); try lia; done. }
  rewrite Hprefix by done. f_equal.
  rewrite take_ge by lia. rewrite drop_ge by lia. apply app_nil_r.
Qed.

Lemma monitor_round_stamps_online_workers_witness :
  (last_heartbeat ∘ snd) <$> workers (_worker_monitor_tick (λ _, false) 9
                                        Scenarios.two_jobs_two_workers)
    = [9; 9].
Proof.
  rewrite (monitor_round_stamps_online_workers (λ _, false) 9
             Scenarios.two_jobs_two_workers); [|reflexivity].
  vm_compute. reflexivity.
Defined.

(** X19. The rate a successful answer of /api/update-job-rate reports is a
    fixed point of the handler: posting that [new_rate] again gives the
    same answer and leaves the simulator as the first request left it. *)
Theorem update_job_rate_accepts_its_answer
    (float_of_str : string → option PyFloat) (request_json : Try PyVal)
    (s : AutonomousClusterSimulator) (r : PyFloat) :
  new_rate (update_job_rate float_of_str request_json s).1 = Some r →
  update_job_rate float_of_str (Ok (PyDict [("rate", PyFloatV r)]))
    (update_job_rate float_of_str request_json s).2
  = update_job_rate float_of_str request_json s.
Proof.
  unfold update_job_rate.
  destruct request_json as [data|e]; [|done].
  destruct (get_rate data) as [v|e]; [|done].
  destruct (py_float float_of_str v) as [f|e]; [|done].
  cbn [fst snd new_rate]. intros [= <-]. simpl.
  by rewrite clamp_rate_idemp.
Qed.

Lemma update_job_rate_accepts_its_answer_witness :
  let first := update_job_rate (λ _, None) (Ok (PyDict [("rate", PyInt 999)])) (init 0) in
  new_rate first.1 = Some float_50_0 ∧
  update_job_rate (λ _, None) (Ok (PyDict [("rate", PyFloatV float_50_0)])) first.2
  = first.
Proof.
  cbv zeta. split; [reflexivity|].
  apply (update_job_rate_accepts_its_answer (λ _, None)
           (Ok (PyDict [("rate", PyInt 999)])) (init 0) float_50_0).
  reflexivity.
Defined.

(** X20. While no worker is available, a scheduler round only reorders the
    queue (jobs, workers and counters stay), and a second round changes
    nothing at all. *)
Theorem scheduler_round_without_worker_is_stable
    (r r' : nat) (now now' : Z) (s : AutonomousClusterSimulator) :
  available_workers s = [] →
  let s1 := _job_scheduler_tick r now s in
  store s1 = store s ∧ workers s1 = workers s ∧ jobs s1 = jobs s ∧
  stats s1 = stats s ∧ job_queue s1 ≡ₚ job_queue s ∧
  _job_scheduler_tick r' now' s1 = s1.
Proof.
  intros Hav. cbv zeta. destruct (job_queue s) as [|l q] eqn:Hqueue.
  { rewrite _job_scheduler_tick_empty by done.
    rewrite _job_scheduler_tick_empty by done. by rewrite Hqueue. }
  assert (Hq : job_queue s ≠ []) by (by rewrite Hqueue).
  rewrite (_job_scheduler_tick_no_worker r now s Hq Hav). rewrite <- Hqueue.
  set (sorted := sort_desc (priority_key (store s)) (job_queue s)).
  assert (Hperm : sorted ≡ₚ job_queue s) by apply sort_desc_perm.
  repeat split; try done.
  rewrite _job_scheduler_tick_no_worker; [|cbn [job_queue with_job_queue]|done].
  - cbn [job_queue store with_job_queue]. unfold sorted.
    by rewrite sort_desc_idemp.
  - intros Hnil. rewrite Hnil in Hperm. symmetry in Hperm.
    apply Permutation_nil_r in Hperm. by apply Hq.
Qed.

Lemma scheduler_round_without_worker_is_stable_witness :
  let s1 := _job_scheduler_tick 0 3 Scenarios.colliding_emissions in
  job_queue s1 ≡ₚ job_queue Scenarios.colliding_emissions ∧
  _job_scheduler_tick 1 4 s1 = s1.
Proof.
  destruct (scheduler_round_without_worker_is_stable 0 1 3 4
              Scenarios.colliding_emissions)
    as (_ & _ & _ & _ & Hperm & Hstable); [vm_compute; reflexivity|].
  cbv zeta. by split.
Defined.

(** ** Job ids *)

(** X21. [generate_job_id] falls back on the prefix job for a type that
    is not in its table and on the suffix normal for a priority that is not:
    the id is then job-normal- followed by the number, which lies between
    1000 and 9999. *)
Theorem job_id_falls_back_on_unknown_names
    (job_type priority : string) (r1 r2 : nat) (r3 : Z) :
  dict_get job_type Utils.type_prefixes = None →
  dict_get (Utils.lower priority) Utils.priority_suffixes = None →
  Utils.generate_job_id job_type priority r1 r2 r3
    = "job-normal-" +:+ pretty (random_randint r3 1000 9999) ∧
  1000 ≤ random_randint r3 1000 9999 ≤ 9999.
Proof.
  intros Htype Hprio. split; [|by apply random_randint_range].
  assert (Hmatrix : String.eqb job_type "matrix" = false).
  { destruct (String.eqb job_type "matrix") eqn:Hm; [|done].
    apply String.eqb_eq in Hm as ->. vm_compute in Htype. discriminate Htype. }
  assert (Hfault : String.eqb job_type "fault_injection" = false).
  { destruct (String.eqb job_type "fault_injection") eqn:Hm; [|done].
    apply String.eqb_eq in Hm as ->. vm_compute in Htype. discriminate Htype. }
  unfold Utils.generate_job_id. rewrite Htype, Hprio, Hmatrix, Hfault.
  cbn [from_option id].
  unfold random_choice. cbn [length]. by rewrite !Nat.mod_1_r.
Qed.

Lemma job_id_falls_back_on_unknown_names_witness :
  Utils.generate_job_id "render" "URGENT" 3 4 5 = "job-normal-1005".
Proof.
  destruct (job_id_falls_back_on_unknown_names "render" "URGENT" 3 4 5)
    as [-> _]; [reflexivity..|].
  vm_compute. reflexivity.
Defined.

(** X22. The id [create_job] gives a job of a type in the table is built
    from that table: every priority's lower-cased name has its suffixes, the
    prefix is one of the type's prefixes, the number lies between 1000 and
    9999; a matrix id is gpu-, prefix, number; a fault_injection id is
    prefix, -test-, number; any other id is prefix, suffix, number. *)
Theorem created_job_ids_follow_tables
    (job_type : string) (prio : JobTypes.JobPriority)
    (parameters : option (list (string * PyVal))) (now : Z) (r1 r2 : nat) (r3 : Z)
    (prefixes : list string) :
  dict_get job_type Utils.type_prefixes = Some prefixes →
  ∃ suffixes prefix suffix n,
    dict_get (Utils.lower (JobTypes.priority_name prio)) Utils.priority_suffixes
      = Some suffixes ∧
    prefix ∈ prefixes ∧ suffix ∈ suffixes ∧ 1000 ≤ n ≤ 9999 ∧
    JobTypes.job_id (JobTypes.create_job job_type prio parameters now r1 r2 r3)
      = if String.eqb job_type "matrix" then "gpu-" +:+ prefix +:+ "-" +:+ pretty n
        else if String.eqb job_type "fault_injection"
             then prefix +:+ "-test-" +:+ pretty n
             else prefix +:+ "-" +:+ suffix +:+ "-" +:+ pretty n.
Proof.
  intros Htype.
  assert (Hchoice : ∀ (r : nat) (l : list string),
            l ≠ [] → ∃ x, random_choice r l = Some x ∧ x ∈ l).
  { intros r l Hl. unfold random_choice.
    destruct (lookup_lt_is_Some_2 l (r mod length l)) as [x Hx].
    - apply Nat.mod_upper_bound. by destruct l.
    - exists x. split; [done|]. by eapply list_elem_of_lookup_2. }
  assert (Hprefixes : prefixes ≠ []).
  { intros ->. unfold dict_get in Htype.
    apply fmap_Some in Htype as ([key prefixes] & Hfind & Heq).
    apply find_some in Hfind as [Hin _]. simpl in Heq. subst prefixes.
    unfold Utils.type_prefixes in Hin. simpl in Hin.
    destruct Hin as [H|[H|[H|[H|[]]]]]; discriminate H. }
  assert (Hsuffixes : ∃ suffixes,
            dict_get (Utils.lower (JobTypes.priority_name prio)) Utils.priority_suffixes
              = Some suffixes ∧ suffixes ≠ []).
  { destruct prio; eexists; (split; [vm_compute; reflexivity|done]). }
  destruct Hsuffixes as (suffixes & Hsuf & Hne).
  destruct (Hchoice r1 prefixes Hprefixes) as (prefix & Hprefix & Hin1).
  destruct (Hchoice r2 suffixes Hne) as (suffix & Hsuffix & Hin2).
  exists suffixes, prefix, suffix, (random_randint r3 1000 9999).
  split; [done|]. split; [done|]. split; [done|].
  split; [by apply random_randint_range|].
  cbn [JobTypes.create_job JobTypes.job_id]. unfold Utils.generate_job_id.
  rewrite Htype. cbn [from_option id]. rewrite Hprefix.
  replace (Utils.lower (Utils.lower (JobTypes.priority_name prio)))
    with (Utils.lower (JobTypes.priority_name prio)) by (by destruct prio).
  rewrite Hsuf. cbn [from_option id]. by rewrite Hsuffix.
Qed.

Lemma created_job_ids_follow_tables_witness :
  ∃ (prefix : string) (n : Z),
    prefix ∈ ["matrix"; "gpu"; "tensor"; "linear"; "algebra"] ∧
    JobTypes.job_id (JobTypes.create_job "matrix" JobTypes.HIGH None 0 1 2 3)
      = "gpu-" +:+ prefix +:+ "-" +:+ pretty n.
Proof.
  destruct (created_job_ids_follow_tables "matrix" JobTypes.HIGH None 0 1 2 3
              ["matrix"; "gpu"; "tensor"; "linear"; "algebra"])
    as (suffixes & prefix & suffix & n & _ & Hin & _ & _ & Hid); [reflexivity|].
  by exists prefix, n.
Defined.

(** ** Terminal jobs *)

Lemma terminal_jobs_unreferenced_witness :
  reachable Scenarios.completed_job ∧ ¬ live Scenarios.completed_job 0.
Proof.
  assert (Hreach : reachable Scenarios.completed_job).
  { by exists 0, (Scenarios.busy_worker_events
                  ++ [Execute unit Scenarios.quick_bodies tt (λ _, 3)]). }
  split; [exact Hreach|].
  eapply (terminal_jobs_unreferenced Scenarios.completed_job 0 _ Hreach);
    [vm_compute; reflexivity|left; vm_compute; reflexivity].
Defined.

(** ** Runs in which only the threads call the failure handler *)

(** X23. The fault injector and the heartbeat monitor fail online workers
    only, and a worker with a job is busy.  So in a run from the initial
    state in which the failure handler is called by these two threads alone
    and every recovery reaches a worker that is failed, no failure ever
    takes a job from a worker: every job has [retry_count] 0, a FAILED job
    was ended by the executor runner and has its completion time, and a
    worker has a current job exactly when it is busy. *)
Theorem thread_runs_never_requeue
    (now : Z) (events : list Event) (l : nat) (job : JobTypes.Job) :
  guarded_run (init now) events →
  store (run events (init now)) !! l = Some job →
  JobTypes.retry_count job = 0 ∧
  (JobTypes.status job = JobTypes.FAILED → is_Some (JobTypes.completed_at job)) ∧
  (∀ i key w, workers (run events (init now)) !! i = Some (key, w) →
              (is_Some (current_job w) ↔ status w = "busy")).
Proof.
  intros Hrun Hjob.
  destruct (thread_run events (init now) Hrun (thread_init now))
    as ((_ & _ & Hstaff) & Htidy & Hnr).
  rewrite Forall_lookup in Hnr. destruct (Hnr l job Hjob) as [Hretry Hfailed].
  split; [done|]. split; [done|]. intros i key w Hi. split.
  - by apply (Htidy i key).
  - by apply (busy_has_job key w (workers_ok _ Hstaff i key w Hi)).
Qed.

Lemma thread_runs_never_requeue_witness :
  guarded_run (init 0) Scenarios.thread_events ∧
  ∃ job, store (run Scenarios.thread_events (init 0)) !! 0%nat = Some job ∧
         JobTypes.status job = JobTypes.COMPLETED ∧
         JobTypes.retry_count job = 0.
Proof.
  assert (Hrun : guarded_run (init 0) Scenarios.thread_events).
  { repeat split. intros [|i] w Hi; vm_compute in Hi; [|by destruct i].
    by injection Hi as <-. }
  split; [exact Hrun|]. eexists. split; [vm_compute; reflexivity|].
  split; [vm_compute; reflexivity|].
  eapply (thread_runs_never_requeue 0 Scenarios.thread_events 0 _ Hrun).
  vm_compute. reflexivity.
Defined.
